(** * A shallow embedding of the single-header PNG codec [png.h]

    The development follows the layout of the C source: image management,
    CRC-32, Adler-32, store-mode deflate, chunk writing, the encoder, the bit
    reader, canonical Huffman tables, zlib inflate, row filters and the
    decoder.  Every C function is a Rocq function of the same name.

    Conventions of the embedding.
    - A byte buffer is a [list Z] whose elements are in [0, 256).
    - [int] is 32 bits wide and signed arithmetic wraps (two's complement):
      the wrap-around is written [to_int].  [uint32_t] wraps with [to_u32],
      [size_t] is 64 bits wide and wraps with [to_size_t].
    - A pointer that may be [NULL] is an [option].
    - A function whose C body can touch memory outside its buffers returns in
      the monad [exec]: [Done v] is a run within bounds, [Undefined] a run
      that reads or writes out of bounds.
    - [malloc] and [calloc] succeed exactly for requests of at most
      [PTRDIFF_MAX] bytes. *)

From Stdlib Require Import ZArith Lia List Bool.
From stdpp Require Import base tactics option list gmap strings.

Local Open Scope Z_scope.

(** ** Machine integers *)

Definition INT_MAX : Z := 2147483647.
Definition PTRDIFF_MAX : Z := 9223372036854775807.

Definition to_int (z : Z) : Z := (z + 2147483648) mod 4294967296 - 2147483648.
Definition to_u32 (z : Z) : Z := z mod 4294967296.
Definition to_u16 (z : Z) : Z := z mod 65536.
Definition to_u8 (z : Z) : Z := z mod 256.
Definition to_size_t (z : Z) : Z := z mod 18446744073709551616.

(** ** Buffers *)

(** [buf[i]] for an index the C code keeps in range. *)
Definition byte_at (buf : list Z) (i : Z) : Z := nth (Z.to_nat i) buf 0.

(** [buf[i] = v]. *)
Definition set_at (buf : list Z) (i : Z) (v : Z) : list Z :=
  <[Z.to_nat i := v]> buf.

(** The [n] bytes of [buf] that start at offset [off]. *)
Definition slice (buf : list Z) (off n : Z) : list Z :=
  take (Z.to_nat n) (drop (Z.to_nat off) buf).

Definition len_of (buf : list Z) : Z := Z.of_nat (length buf).

Definition is_byte (b : Z) : Prop := 0 <= b < 256.

Definition malloc_ok (size : Z) : bool := size <=? PTRDIFF_MAX.

(** ** Runs with and without defined behaviour *)

Inductive exec (A : Type) : Type :=
| Done (a : A)
| Undefined.
Arguments Done {A} a.
Arguments Undefined {A}.

Definition exec_bind {A B} (m : exec A) (k : A -> exec B) : exec B :=
  match m with
  | Done a => k a
  | Undefined => Undefined
  end.

Notation "'let!' x ':=' m 'in' k" := (exec_bind m (fun x => k))
  (at level 10, x name, m at level 100, k at level 200).

(** [memcpy(dst + doff, src + soff, n)]: both ranges must lie inside their
    buffers. *)
Definition memcpy (dst : list Z) (doff : Z) (src : list Z) (soff n : Z)
  : exec (list Z) :=
  if (0 <=? doff) && (0 <=? soff) && (0 <=? n)
     && (doff + n <=? len_of dst) && (soff + n <=? len_of src)
  then Done (take (Z.to_nat doff) dst ++ slice src soff n
               ++ drop (Z.to_nat (doff + n)) dst)
  else Undefined.

(** The [n] bytes at [buf + off], all of which must lie inside [buf]. *)
Definition read_range (buf : list Z) (off n : Z) : exec (list Z) :=
  if (0 <=? off) && (0 <=? n) && (off + n <=? len_of buf)
  then Done (slice buf off n)
  else Undefined.

(** A checked single-byte store and load. *)
Definition store (buf : list Z) (i v : Z) : exec (list Z) :=
  if (0 <=? i) && (i <? len_of buf) then Done (set_at buf i v) else Undefined.

Definition load (buf : list Z) (i : Z) : exec Z :=
  if (0 <=? i) && (i <? len_of buf) then Done (byte_at buf i) else Undefined.

(** [for (i = a; i < b; i++)]: the values [i] takes. *)
Definition range_from (a b : Z) : list Z :=
  map (fun k => a + Z.of_nat k) (seq 0 (Z.to_nat (b - a))).

(** ** Image structure *)

Record png_image : Type := {
  width : Z;
  height : Z;
  channels : Z;
  data : list Z
}.

(** [png_create]: the buffer has [width * height * channels] bytes, the
    product taken in [int] and converted to [size_t] for [calloc]. *)
Definition pixel_bytes (w h c : Z) : Z :=
  to_size_t (to_int (to_int (w * h) * c)).

Definition png_create (w h c : Z) : option png_image :=
  if malloc_ok (pixel_bytes w h c)
  then Some {| width := w; height := h; channels := c;
               data := repeat 0 (Z.to_nat (pixel_bytes w h c)) |}
  else None.

Definition png_clone (img : option png_image) : exec (option png_image) :=
  match img with
  | None => Done None
  | Some i =>
    match png_create (width i) (height i) (channels i) with
    | None => Done None
    | Some clone =>
      let! d := memcpy (data clone) 0 (data i) 0
              (pixel_bytes (width i) (height i) (channels i)) in
      Done (Some {| width := width clone; height := height clone;
                    channels := channels clone; data := d |})
    end
  end.

(** ** CRC-32 *)

Fixpoint crc_bits (k : nat) (c : Z) : Z :=
  match k with
  | O => c
  | S k' =>
    crc_bits k' (if Z.testbit c 0
                 then Z.lxor 0xedb88320 (Z.shiftr c 1)
                 else Z.shiftr c 1)
  end.

Definition png_make_crc_table : list Z :=
  map (fun n => crc_bits 8 (Z.of_nat n)) (seq 0 256).

Definition png_crc_table : list Z := Eval vm_compute in png_make_crc_table.

Definition png_update_crc (crc : Z) (buf : list Z) : Z :=
  fold_left
    (fun c b =>
       Z.lxor (byte_at png_crc_table (Z.land (Z.lxor c b) 0xff)) (Z.shiftr c 8))
    buf crc.

Definition png_crc (buf : list Z) : Z :=
  Z.lxor (png_update_crc 0xffffffff buf) 0xffffffff.

(** ** Adler-32 *)

Definition adler_step (ab : Z * Z) (d : Z) : Z * Z :=
  let a := (fst ab + d) mod 65521 in
  (a, (snd ab + a) mod 65521).

Definition png_adler32 (buf : list Z) : Z :=
  let ab := fold_left adler_step buf (1, 0) in
  Z.lor (to_u32 (Z.shiftl (snd ab) 16)) (fst ab).

(** ** Big-endian 32-bit fields *)

Definition be32_bytes (v : Z) : list Z :=
  [Z.land (Z.shiftr v 24) 0xff; Z.land (Z.shiftr v 16) 0xff;
   Z.land (Z.shiftr v 8) 0xff; Z.land v 0xff].

Definition png_read_be32_mem (p : list Z) (off : Z) : Z :=
  Z.lor (Z.lor (Z.lor (to_u32 (Z.shiftl (byte_at p off) 24))
                      (to_u32 (Z.shiftl (byte_at p (off + 1)) 16)))
               (to_u32 (Z.shiftl (byte_at p (off + 2)) 8)))
        (byte_at p (off + 3)).

(** ** Deflate, store mode *)

Definition max_block : Z := 65535.

(** The [while (remaining > 0)] loop; [src] is the part of the input not yet
    emitted, so [remaining] is its length. *)
Fixpoint store_blocks (fuel : nat) (src : list Z) : list Z :=
  match fuel with
  | O => []
  | S fuel' =>
    let remaining := len_of src in
    if 0 <? remaining then
      let block_len := if max_block <? remaining then max_block else remaining in
      let is_final := if remaining <=? max_block then 1 else 0 in
      let nlen := to_size_t (Z.lnot block_len) in
      [is_final;
       Z.land block_len 0xff; Z.land (Z.shiftr block_len 8) 0xff;
       Z.land nlen 0xff; Z.land (Z.shiftr nlen 8) 0xff]
        ++ slice src 0 block_len
        ++ store_blocks fuel' (drop (Z.to_nat block_len) src)
    else []
  end.

(** [data] is the object the pointer argument points to and [len] the
    length passed with it; [NULL] is the empty object. *)
Definition png_deflate_store (buf : list Z) (len : Z) : exec (option (list Z)) :=
  let num_blocks := to_size_t (len + max_block - 1) / max_block in
  let total := to_size_t (2 + num_blocks * 5 + len + 4) in
  if negb (malloc_ok total) then Done None
  else if len_of buf <? len then Undefined
  else
    let src := slice buf 0 len in
    let out := [0x78; 0x01] ++ store_blocks (Z.to_nat len) src
                 ++ be32_bytes (png_adler32 src) in
    if len_of out <=? total then Done (Some out) else Undefined.

(** ** Chunk writing *)

(** A [FILE*] opened for writing is the list of bytes written so far. *)
Definition png_write_chunk (f : list Z) (type : list Z)
    (payload : option (list Z)) (len : Z) : exec (list Z) :=
  let present := match payload with Some _ => true | None => false end in
  let d := default [] payload in
  if negb (malloc_ok (4 + len)) then Undefined
  else if (0 <? len) && present && (len_of d <? len) then Undefined
  else
    let body := if (0 <? len) && present then slice d 0 len else [] in
    let crc_data := type ++ body ++ repeat 0 (Z.to_nat len - length body) in
    Done (f ++ be32_bytes len ++ type ++ body ++ be32_bytes (png_crc crc_data)).

Definition type_IHDR : list Z := [73; 72; 68; 82].
Definition type_IDAT : list Z := [73; 68; 65; 84].
Definition type_IEND : list Z := [73; 69; 78; 68].
Definition type_tEXt : list Z := [116; 69; 88; 116].

(** A C string is the list of its bytes before the terminating NUL. *)
Definition png_write_text_chunk (f : list Z) (keyword text : list Z)
  : exec (list Z) :=
  let key_len := len_of keyword in
  let text_len := len_of text in
  let data_len := key_len + 1 + text_len in
  if malloc_ok data_len
  then png_write_chunk f type_tEXt (Some (keyword ++ [0] ++ text)) data_len
  else Done f.

(** ** PNG writing *)

Definition signature : list Z := [0x89; 0x50; 0x4e; 0x47; 0x0d; 0x0a; 0x1a; 0x0a].

Definition color_type_of (c : Z) : Z :=
  if c =? 4 then 6 else if c =? 3 then 2 else if c =? 2 then 4 else 0.

Definition ihdr_bytes (img : png_image) : list Z :=
  be32_bytes (width img) ++ be32_bytes (height img)
    ++ [8; color_type_of (channels img); 0; 0; 0].

(** The row loop of the encoder: [raw[y * row_bytes] = 0] followed by the
    [memcpy] of one row of pixels. *)
Fixpoint save_rows (img : png_image) (row_bytes : Z) (ys : list Z)
    (raw : list Z) : exec (list Z) :=
  match ys with
  | [] => Done raw
  | y :: ys' =>
    let! raw1 := store raw (to_size_t (y * row_bytes)) 0 in
    let! raw2 := memcpy raw1 (to_size_t (to_size_t (y * row_bytes) + 1))
               (data img) (to_int (to_int (y * width img) * channels img))
               (to_size_t (to_int (width img * channels img))) in
    save_rows img row_bytes ys' raw2
  end.

Definition png_save_internal (img : png_image) (f : list Z)
    (keyword text : option (list Z)) : exec (Z * list Z) :=
  let f1 := f ++ signature in
  let! f2 := png_write_chunk f1 type_IHDR (Some (ihdr_bytes img)) 13 in
  let! f3 := match keyword, text with
         | Some k, Some t => png_write_text_chunk f2 k t
         | _, _ => Done f2
         end in
  let row_bytes := to_size_t (to_int (1 + to_int (width img * channels img))) in
  let raw_len := to_size_t (to_size_t (height img) * row_bytes) in
  let raw0 := if malloc_ok raw_len then repeat 0 (Z.to_nat raw_len) else [] in
  let! raw := save_rows img row_bytes (range_from 0 (height img)) raw0 in
  let! c := png_deflate_store raw raw_len in
  match c with
  | None => Done (-1, f3)
  | Some compressed =>
    let! f4 := png_write_chunk f3 type_IDAT (Some compressed) (len_of compressed) in
    let! f5 := png_write_chunk f4 type_IEND None 0 in
    Done (0, f5)
  end.

(** ** Inflate: the bit reader *)

Definition PNG_MAXBITS : Z := 15.

Record png_bitstream : Type := {
  bs_data : list Z;
  bytepos : Z;
  bitbuf : Z;
  bitcount : Z
}.

(** The [while] loop of [png_bitstream_fill]; every turn adds eight bits, so
    [n] turns are always enough. *)
Fixpoint fill_loop (fuel : nat) (bs : png_bitstream) (n : Z) : png_bitstream :=
  match fuel with
  | O => bs
  | S fuel' =>
    if (bitcount bs <? n) && (bytepos bs <? len_of (bs_data bs)) then
      fill_loop fuel'
        {| bs_data := bs_data bs;
           bytepos := bytepos bs + 1;
           bitbuf := Z.lor (bitbuf bs)
                       (to_u32 (Z.shiftl (byte_at (bs_data bs) (bytepos bs))
                                         (bitcount bs)));
           bitcount := bitcount bs + 8 |} n
    else bs
  end.

Definition png_bitstream_fill (bs : png_bitstream) (n : Z)
  : png_bitstream * bool :=
  let bs' := fill_loop (Z.to_nat n) bs n in
  (bs', n <=? bitcount bs').

(** [n] is an [int] below 32: the callers pass at most 16, and for [n] of 32
    or more the shifts [1u << n] and [bitbuf >>= n] have no defined
    result. *)
Definition png_bitstream_get (bs : png_bitstream) (n : Z)
  : option (Z * png_bitstream) :=
  if n =? 0 then Some (0, bs)
  else
    let (bs', ok) := png_bitstream_fill bs n in
    if ok then
      Some (Z.land (bitbuf bs') (to_u32 (to_u32 (Z.shiftl 1 n) - 1)),
            {| bs_data := bs_data bs';
               bytepos := bytepos bs';
               bitbuf := Z.shiftr (bitbuf bs') n;
               bitcount := bitcount bs' - n |})
    else None.

Definition png_bitstream_align (bs : png_bitstream) : option png_bitstream :=
  let skip := Z.land (bitcount bs) 7 in
  if skip =? 0 then Some bs
  else match png_bitstream_get bs skip with
       | Some (_, bs') => Some bs'
       | None => None
       end.

Fixpoint read_bytes_loop (n : nat) (bs : png_bitstream) (acc : list Z)
  : option (list Z * png_bitstream) :=
  match n with
  | O => Some (acc, bs)
  | S n' =>
    match png_bitstream_get bs 8 with
    | Some (v, bs') => read_bytes_loop n' bs' (acc ++ [to_u8 v])
    | None => None
    end
  end.

Definition png_bitstream_read_bytes (bs : png_bitstream) (len : Z)
  : option (list Z * png_bitstream) :=
  if bitcount bs =? 0 then
    if len_of (bs_data bs) <? bytepos bs + len then None
    else Some (slice (bs_data bs) (bytepos bs) len,
               {| bs_data := bs_data bs;
                  bytepos := bytepos bs + len;
                  bitbuf := bitbuf bs;
                  bitcount := bitcount bs |})
  else read_bytes_loop (Z.to_nat len) bs [].

(** ** Inflate: canonical Huffman tables *)

Record png_huffman : Type := {
  h_count : list Z;
  h_symbol : list Z
}.

(** First loop of [png_huffman_build]: reject a length above [PNG_MAXBITS],
    otherwise count it. *)
Fixpoint tally_lengths (lengths : list Z) (count : list Z) : option (list Z) :=
  match lengths with
  | [] => Some count
  | l :: rest =>
    if PNG_MAXBITS <? l then None
    else tally_lengths rest (set_at count l (to_u16 (byte_at count l + 1)))
  end.

(** Second loop: [left <<= 1; left -= count[len]; if (left < 0) return 0]. *)
Fixpoint kraft_check (lens : list Z) (count : list Z) (left : Z) : option Z :=
  match lens with
  | [] => Some left
  | len :: rest =>
    let left1 := to_int (left * 2) in
    let left2 := to_int (left1 - byte_at count len) in
    if left2 <? 0 then None else kraft_check rest count left2
  end.

(** Third loop: [offs[len + 1] = offs[len] + count[len]]. *)
Fixpoint fill_offsets (lens : list Z) (count offs : list Z) : list Z :=
  match lens with
  | [] => offs
  | len :: rest =>
    fill_offsets rest count
      (set_at offs (len + 1) (to_u16 (byte_at offs len + byte_at count len)))
  end.

(** Fourth loop: [if (len) h->symbol[offs[len]++] = i].  The state is the
    pair of [offs] and [symbol]; [i] is the index of the head of
    [lengths]. *)
Fixpoint place_symbols (lengths : list Z) (i : Z) (st : list Z * list Z)
  : list Z * list Z :=
  match lengths with
  | [] => st
  | len :: rest =>
    place_symbols rest (i + 1)
      (if len =? 0 then st
       else (set_at (fst st) len (to_u16 (byte_at (fst st) len + 1)),
             set_at (snd st) (byte_at (fst st) len) (to_u16 i)))
  end.

(** [lengths] holds the [n] code lengths the C function is given; all call
    sites pass at most 288 of them, the size of [symbol]. *)
Definition png_huffman_build (lengths : list Z) : option png_huffman :=
  match tally_lengths lengths (repeat 0 16) with
  | None => None
  | Some count =>
    match kraft_check (range_from 1 (PNG_MAXBITS + 1)) count 1 with
    | None => None
    | Some _ =>
      let offs := fill_offsets (range_from 1 PNG_MAXBITS) count
                    (set_at (repeat 0 16) 1 0) in
      let st := place_symbols lengths 0 (offs, repeat 0 288) in
      Some {| h_count := count; h_symbol := snd st |}
    end
  end.

Fixpoint huffman_decode_loop (fuel : nat) (len : Z) (bs : png_bitstream)
    (h : png_huffman) (code first index : Z) : option (Z * png_bitstream) :=
  match fuel with
  | O => None
  | S fuel' =>
    match png_bitstream_get bs 1 with
    | None => None
    | Some (bit, bs') =>
      let code1 := Z.lor code bit in
      let count := byte_at (h_count h) len in
      if code1 <? to_u32 (first + count) then
        Some (byte_at (h_symbol h) (to_u32 (index + to_u32 (code1 - first))), bs')
      else
        huffman_decode_loop fuel' (len + 1) bs' h
          (to_u32 (Z.shiftl code1 1))
          (to_u32 (Z.shiftl (to_u32 (first + count)) 1))
          (to_u32 (index + count))
    end
  end.

Definition png_huffman_decode (bs : png_bitstream) (h : png_huffman)
  : option (Z * png_bitstream) :=
  huffman_decode_loop (Z.to_nat PNG_MAXBITS) 1 bs h 0 0 0.

Definition fixed_litlen_lengths : list Z :=
  repeat 8 144 ++ repeat 9 112 ++ repeat 7 24 ++ repeat 8 8.

Definition fixed_dist_lengths : list Z := repeat 5 32.

Definition png_build_fixed_huffman : option (png_huffman * png_huffman) :=
  match png_huffman_build fixed_litlen_lengths with
  | None => None
  | Some litlen =>
    match png_huffman_build fixed_dist_lengths with
    | None => None
    | Some dist => Some (litlen, dist)
    end
  end.

Definition order : list Z :=
  [16; 17; 18; 0; 8; 7; 9; 6; 10; 5; 11; 4; 12; 3; 13; 2; 14; 1; 15].

(** [for (i = 0; i < ncode; i++) code_lengths[order[i]] = get(3)]. *)
Fixpoint read_code_lengths (ord : list Z) (bs : png_bitstream)
    (code_lengths : list Z) : option (list Z * png_bitstream) :=
  match ord with
  | [] => Some (code_lengths, bs)
  | o :: rest =>
    match png_bitstream_get bs 3 with
    | None => None
    | Some (v, bs') => read_code_lengths rest bs' (set_at code_lengths o (to_u8 v))
    end
  end.

(** The [while (i < total)] loop.  [lengths] holds the entries written so
    far, so [i] is its length; every turn that does not fail writes at least
    one entry. *)
Fixpoint read_lengths (fuel : nat) (bs : png_bitstream) (code_huff : png_huffman)
    (total : Z) (lengths : list Z) (prev : Z)
  : option (list Z * png_bitstream) :=
  let i := len_of lengths in
  if negb (i <? total) then Some (lengths, bs)
  else
    match fuel with
    | O => None
    | S fuel' =>
      match png_huffman_decode bs code_huff with
      | None => None
      | Some (sym, bs1) =>
        if sym <=? 15 then
          read_lengths fuel' bs1 code_huff total (lengths ++ [to_u8 sym]) sym
        else if sym =? 16 then
          if i =? 0 then None
          else match png_bitstream_get bs1 2 with
               | None => None
               | Some (r, bs2) =>
                 let rep := to_u32 (r + 3) in
                 if total <? to_int (i + to_int rep) then None
                 else read_lengths fuel' bs2 code_huff total
                        (lengths ++ repeat (to_u8 prev) (Z.to_nat rep)) prev
               end
        else if sym =? 17 then
          match png_bitstream_get bs1 3 with
          | None => None
          | Some (r, bs2) =>
            let rep := to_u32 (r + 3) in
            if total <? to_int (i + to_int rep) then None
            else read_lengths fuel' bs2 code_huff total
                   (lengths ++ repeat 0 (Z.to_nat rep)) 0
          end
        else if sym =? 18 then
          match png_bitstream_get bs1 7 with
          | None => None
          | Some (r, bs2) =>
            let rep := to_u32 (r + 11) in
            if total <? to_int (i + to_int rep) then None
            else read_lengths fuel' bs2 code_huff total
                   (lengths ++ repeat 0 (Z.to_nat rep)) 0
          end
        else None
      end
    end.

Definition png_build_dynamic_huffman (bs : png_bitstream)
  : option (png_huffman * png_huffman * png_bitstream) :=
  match png_bitstream_get bs 5 with
  | None => None
  | Some (hlit, bs1) =>
  match png_bitstream_get bs1 5 with
  | None => None
  | Some (hdist, bs2) =>
  match png_bitstream_get bs2 4 with
  | None => None
  | Some (hclen, bs3) =>
    let nlen := to_int hlit + 257 in
    let ndist := to_int hdist + 1 in
    let ncode := to_int hclen + 4 in
    if (288 <? nlen) || (32 <? ndist) then None
    else
      match read_code_lengths (take (Z.to_nat ncode) order) bs3 (repeat 0 19) with
      | None => None
      | Some (code_lengths, bs4) =>
        match png_huffman_build code_lengths with
        | None => None
        | Some code_huff =>
          let total := nlen + ndist in
          match read_lengths (Z.to_nat total) bs4 code_huff total [] 0 with
          | None => None
          | Some (lengths, bs5) =>
            match png_huffman_build (slice lengths 0 nlen) with
            | None => None
            | Some litlen =>
              match png_huffman_build (slice lengths nlen ndist) with
              | None => None
              | Some dist => Some (litlen, dist, bs5)
              end
            end
          end
        end
      end
  end end end.

(** ** Inflate: the block loop *)

Definition len_base : list Z :=
  [3; 4; 5; 6; 7; 8; 9; 10; 11; 13;
   15; 17; 19; 23; 27; 31; 35; 43; 51; 59;
   67; 83; 99; 115; 131; 163; 195; 227; 258].

Definition len_extra : list Z :=
  [0; 0; 0; 0; 0; 0; 0; 0; 1; 1;
   1; 1; 2; 2; 2; 2; 3; 3; 3; 3;
   4; 4; 4; 4; 5; 5; 5; 5; 0].

Definition dist_base : list Z :=
  [1; 2; 3; 4; 5; 7; 9; 13; 17; 25;
   33; 49; 65; 97; 129; 193; 257; 385; 513; 769;
   1025; 1537; 2049; 3073; 4097; 6145; 8193; 12289; 16385; 24577].

Definition dist_extra : list Z :=
  [0; 0; 0; 0; 1; 1; 2; 2; 3; 3;
   4; 4; 5; 5; 6; 6; 7; 7; 8; 8;
   9; 9; 10; 10; 11; 11; 12; 12; 13; 13].

(** The output buffer [out] is modelled by the bytes written so far, so
    [out_pos] is its length: the C code writes [out] only at [out_pos] and
    reads it only below [out_pos]. *)

(** [for (i = 0; i < length; i++) { out[out_pos] = out[out_pos - distance];
    out_pos++; }] *)
Fixpoint lz77_copy (n : nat) (out : list Z) (distance : Z) : list Z :=
  match n with
  | O => out
  | S n' => lz77_copy n' (out ++ [byte_at out (len_of out - distance)]) distance
  end.

(** The back-reference branch of the symbol loop once [length] and
    [distance] have been decoded. *)
Definition lz77_backref (out : list Z) (expected_len : Z) (length distance : Z)
  : option (list Z) :=
  if (distance <=? 0) || (len_of out <? to_size_t distance) then None
  else if expected_len <? len_of out + length then None
  else Some (lz77_copy (Z.to_nat length) out distance).

(** The part of the back-reference branch that reads [length] and
    [distance]: base value and extra bits of the length symbol, then the
    distance symbol with its base value and extra bits. *)
Definition decode_backref (bs1 : png_bitstream) (dist : png_huffman) (sym : Z)
  : option (Z * Z * png_bitstream) :=
  let len_sym := sym - 257 in
  let length0 := byte_at len_base len_sym in
  match (if byte_at len_extra len_sym =? 0 then Some (length0, bs1)
         else match png_bitstream_get bs1 (byte_at len_extra len_sym) with
              | None => None
              | Some (extra, bs2) => Some (to_int (length0 + to_int extra), bs2)
              end) with
  | None => None
  | Some (length, bs2) =>
    match png_huffman_decode bs2 dist with
    | None => None
    | Some (dist_sym, bs3) =>
      if 30 <=? dist_sym then None
      else
        let distance0 := byte_at dist_base dist_sym in
        if byte_at dist_extra dist_sym =? 0 then Some (length, distance0, bs3)
        else match png_bitstream_get bs3 (byte_at dist_extra dist_sym) with
             | None => None
             | Some (e, bs4) => Some (length, to_int (distance0 + to_int e), bs4)
             end
    end
  end.

(** The [for (;;)] symbol loop of a fixed or dynamic block. *)
Fixpoint inflate_symbols (fuel : nat) (bs : png_bitstream)
    (litlen dist : png_huffman) (expected_len : Z) (out : list Z)
  : option (list Z * png_bitstream) :=
  match fuel with
  | O => None
  | S fuel' =>
    match png_huffman_decode bs litlen with
    | None => None
    | Some (sym, bs1) =>
      if sym <? 256 then
        if expected_len <=? len_of out then None
        else inflate_symbols fuel' bs1 litlen dist expected_len
               (out ++ [to_u8 sym])
      else if sym =? 256 then Some (out, bs1)
      else if sym <=? 285 then
        match decode_backref bs1 dist sym with
        | None => None
        | Some (length, distance, bs4) =>
          match lz77_backref out expected_len length distance with
          | None => None
          | Some out' => inflate_symbols fuel' bs4 litlen dist expected_len out'
          end
        end
      else None
    end
  end.

(** The [while (!final)] block loop.  [sym_fuel] bounds the symbol loop of
    each block. *)
Fixpoint inflate_blocks (fuel sym_fuel : nat) (bs : png_bitstream)
    (expected_len : Z) (out : list Z) : option (list Z) :=
  match fuel with
  | O => None
  | S fuel' =>
    match png_bitstream_get bs 1 with
    | None => None
    | Some (bfinal, bs1) =>
    match png_bitstream_get bs1 2 with
    | None => None
    | Some (btype, bs2) =>
      let next (r : option (list Z * png_bitstream)) :=
        match r with
        | None => None
        | Some (out', bs') =>
          if to_int bfinal =? 0
          then inflate_blocks fuel' sym_fuel bs' expected_len out'
          else Some out'
        end in
      if btype =? 0 then
        match png_bitstream_align bs2 with
        | None => None
        | Some bs3 =>
        match png_bitstream_get bs3 16 with
        | None => None
        | Some (stored_len, bs4) =>
        match png_bitstream_get bs4 16 with
        | None => None
        | Some (stored_nlen, bs5) =>
          if negb (Z.lxor stored_len 0xffff =? stored_nlen) then None
          else if expected_len <? len_of out + stored_len then None
          else match png_bitstream_read_bytes bs5 stored_len with
               | None => None
               | Some (bytes, bs6) => next (Some (out ++ bytes, bs6))
               end
        end end end
      else if (btype =? 1) || (btype =? 2) then
        match (if btype =? 1
               then match png_build_fixed_huffman with
                    | None => None
                    | Some (l, d) => Some (l, d, bs2)
                    end
               else png_build_dynamic_huffman bs2) with
        | None => None
        | Some (litlen, dist, bs3) =>
          next (inflate_symbols sym_fuel bs3 litlen dist expected_len out)
        end
      else None
    end end
  end.

(** Every turn of the block loop and of the symbol loop consumes at least
    one bit of the deflate payload or fails, so one more turn than the
    payload has bits never runs out. *)
Definition inflate_fuel (deflate_len : Z) : nat := S (Z.to_nat (8 * deflate_len)).

Definition png_inflate_zlib (buf : list Z) (expected_len : Z)
  : option (list Z) :=
  let len := len_of buf in
  if len <? 6 then None
  else
    let cmf := byte_at buf 0 in
    let flg := byte_at buf 1 in
    if negb (Z.land cmf 0x0f =? 8) then None
    else if negb ((Z.shiftl cmf 8 + flg) mod 31 =? 0) then None
    else
      let fdict := negb (Z.land flg 0x20 =? 0) in
      if fdict && (len <? 10) then None
      else
        let pos := if fdict then 6 else 2 in
        if len <? pos + 4 then None
        else
          let deflate_len := len - pos - 4 in
          let bs := {| bs_data := slice buf pos deflate_len;
                       bytepos := 0; bitbuf := 0; bitcount := 0 |} in
          if negb (malloc_ok expected_len) then None
          else
            match inflate_blocks (inflate_fuel deflate_len)
                    (inflate_fuel deflate_len) bs expected_len [] with
            | None => None
            | Some out =>
              if negb (len_of out =? expected_len) then None
              else
                let expected_adler :=
                  Z.lor (Z.lor (Z.lor
                    (to_u32 (Z.shiftl (byte_at buf (len - 4)) 24))
                    (to_u32 (Z.shiftl (byte_at buf (len - 3)) 16)))
                    (to_u32 (Z.shiftl (byte_at buf (len - 2)) 8)))
                    (byte_at buf (len - 1)) in
                if negb (png_adler32 out =? expected_adler) then None
                else Some out
            end.

(** ** PNG filtering *)

Definition png_abs (x : Z) : Z := if x <? 0 then to_int (- x) else x.

(** The body of the Paeth loop once [a], [b] and [c] are read. *)
Definition paeth_predict (a b c : Z) : Z :=
  let p := a + b - c in
  let pa := png_abs (p - a) in
  let pb := png_abs (p - b) in
  let pc := png_abs (p - c) in
  if (pa <=? pb) && (pa <=? pc) then a else if pb <=? pc then b else c.

Definition prev_at (prev_row : option (list Z)) (i : Z) : Z :=
  match prev_row with
  | Some p => byte_at p i
  | None => 0
  end.

(** [row] and [prev_row] are the [width * channels] bytes the two pointers
    point to; the loops update [row] in place. *)
Definition png_unfilter_row (row : list Z) (prev_row : option (list Z))
    (filter width channels : Z) : list Z :=
  let bpp := channels in
  let n := to_int (width * channels) in
  if filter =? 0 then row
  else if filter =? 1 then
    fold_left
      (fun row i => set_at row i (to_u8 (byte_at row i + byte_at row (i - bpp))))
      (range_from bpp n) row
  else if filter =? 2 then
    match prev_row with
    | Some p =>
      fold_left
        (fun row i => set_at row i (to_u8 (byte_at row i + byte_at p i)))
        (range_from 0 n) row
    | None => row
    end
  else if filter =? 3 then
    fold_left
      (fun row i =>
         let a := if bpp <=? i then byte_at row (i - bpp) else 0 in
         let b := prev_at prev_row i in
         set_at row i (to_u8 (byte_at row i + Z.quot (a + b) 2)))
      (range_from 0 n) row
  else if filter =? 4 then
    fold_left
      (fun row i =>
         let a := if bpp <=? i then byte_at row (i - bpp) else 0 in
         let b := prev_at prev_row i in
         let c := if bpp <=? i then prev_at prev_row (i - bpp) else 0 in
         set_at row i (to_u8 (byte_at row i + paeth_predict a b c)))
      (range_from 0 n) row
  else row.

(** ** PNG reading *)

(** The variables the chunk loop of [png_load_mem] updates. *)
Record chunk_state : Type := {
  cs_width : Z;
  cs_height : Z;
  cs_color_type : Z;
  cs_idat : option (list Z)
}.

Definition chunk_state_init : chunk_state :=
  {| cs_width := 0; cs_height := 0; cs_color_type := 0; cs_idat := None |}.

(** [while (pos + 8 <= len)]: every turn that does not leave the loop moves
    [pos] forward by at least twelve bytes. *)
Fixpoint read_chunks (fuel : nat) (buf : list Z) (pos : Z) (st : chunk_state)
  : exec chunk_state :=
  match fuel with
  | O => Done st
  | S fuel' =>
    if negb (pos + 8 <=? len_of buf) then Done st
    else
      let chunk_len := png_read_be32_mem buf pos in
      let chunk_type := slice buf (pos + 4) 4 in
      let pos := pos + 8 in
      if len_of buf <? pos + chunk_len + 4 then Done st
      else if bool_decide (chunk_type = type_IHDR) then
        if chunk_len <? 13 then Done st
        else
          read_chunks fuel' buf (pos + chunk_len + 4)
            {| cs_width := to_int (png_read_be32_mem buf pos);
               cs_height := to_int (png_read_be32_mem buf (pos + 4));
               cs_color_type := byte_at buf (pos + 9);
               cs_idat := cs_idat st |}
      else if bool_decide (chunk_type = type_IDAT) then
        let idat := default [] (cs_idat st) in
        (* [realloc] returns NULL and [memcpy] writes through it *)
        if negb (malloc_ok (len_of idat + chunk_len)) then Undefined
        else
          read_chunks fuel' buf (pos + chunk_len + 4)
            {| cs_width := cs_width st; cs_height := cs_height st;
               cs_color_type := cs_color_type st;
               cs_idat := Some (idat ++ slice buf pos chunk_len) |}
      else if bool_decide (chunk_type = type_IEND) then Done st
      else read_chunks fuel' buf (pos + chunk_len + 4) st
  end.

(** The row loop of [png_load_mem].  [raw] is unfiltered in place,
    [prev_row] is the offset in [raw] of the previous row. *)
Fixpoint load_rows (ys : list Z) (w c row_bytes : Z) (raw img_data : list Z)
    (prev_row : option Z) : exec (list Z) :=
  match ys with
  | [] => Done img_data
  | y :: ys' =>
    let off := to_int (y * row_bytes) in
    let n := to_size_t (to_int (w * c)) in
    let! filter := load raw off in
    let! row := read_range raw (off + 1) n in
    let! prev :=
      match prev_row with
      | None => Done None
      | Some p => let! r := read_range raw p n in Done (Some r)
      end in
    let row' := png_unfilter_row row prev filter w c in
    let! raw' := memcpy raw (off + 1) row' 0 n in
    let! img_data' :=
      memcpy img_data (to_int (to_int (y * w) * c)) row' 0 n in
    load_rows ys' w c row_bytes raw' img_data' (Some (off + 1))
  end.

Definition channels_of (color_type : Z) : option Z :=
  if color_type =? 0 then Some 1
  else if color_type =? 2 then Some 3
  else if color_type =? 4 then Some 2
  else if color_type =? 6 then Some 4
  else None.

(** The part of [png_load_mem] after the chunk loop. *)
Definition load_image (st : chunk_state) : exec (option png_image) :=
  match cs_idat st with
  | None => Done None
  | Some idat_data =>
    if (cs_width st =? 0) || (cs_height st =? 0) then Done None
    else
      match channels_of (cs_color_type st) with
      | None => Done None
      | Some c =>
        let w := cs_width st in
        let h := cs_height st in
        let raw_len := to_size_t (to_int (h * to_int (1 + to_int (w * c)))) in
        match png_inflate_zlib idat_data raw_len with
        | None => Done None
        | Some raw =>
          match png_create w h c with
          | None => Done None
          | Some img =>
            let row_bytes := to_int (1 + to_int (w * c)) in
            let! d := load_rows (range_from 0 h) w c row_bytes raw (data img) None in
            Done (Some {| width := w; height := h; channels := c; data := d |})
          end
        end
      end
  end.

Definition png_load_mem (buf : list Z) : exec (option png_image) :=
  if len_of buf <? 8 then Done None
  else if negb (bool_decide (slice buf 0 8 = signature)) then Done None
  else
    let! st := read_chunks (length buf) buf 8 chunk_state_init in
    load_image st.

(** ** Files and the heap *)

(** A file system: the contents of the files that exist, and the paths that
    cannot be opened for writing. *)
Record filesystem : Type := {
  fs_files : gmap string (list Z);
  fs_denied : gset string
}.

Definition png_load (path : string) (fs : filesystem) : exec (option png_image) :=
  match fs_files fs !! path with
  | None => Done None
  | Some file_data =>
    if negb (malloc_ok (len_of file_data)) then Done None
    else png_load_mem file_data
  end.

(** [fopen(path, "wb")], the writes and [fclose]: the file holds what was
    written, also when [png_save_internal] returns -1. *)
Definition save_to (img : png_image) (path : string)
    (keyword text : option (list Z)) (fs : filesystem)
  : exec (Z * filesystem) :=
  if bool_decide (elem_of path (fs_denied fs)) then Done (-1, fs)
  else
    let! r := png_save_internal img [] keyword text in
    Done (fst r, {| fs_files := <[path := snd r]> (fs_files fs);
                    fs_denied := fs_denied fs |}).

Definition png_save (img : option png_image) (path : option string)
    (fs : filesystem) : exec (Z * filesystem) :=
  match img, path with
  | Some i, Some p => save_to i p None None fs
  | _, _ => Done (-1, fs)
  end.

Definition png_save_with_text (img : option png_image) (path : option string)
    (keyword text : option (list Z)) (fs : filesystem)
  : exec (Z * filesystem) :=
  match img, path with
  | Some i, Some p => save_to i p keyword text fs
  | _, _ => Done (-1, fs)
  end.

(** The heap of live images, by address.  [png_free] releases the image at a
    non-NULL address; releasing an address that is not live is undefined. *)
Definition png_free (img : option nat) (heap : gmap nat png_image)
  : exec (gmap nat png_image) :=
  match img with
  | None => Done heap
  | Some a =>
    match heap !! a with
    | Some _ => Done (delete a heap)
    | None => Undefined
    end
  end.

(** ** The round-trip test of [jpg_test/test.c] *)

Definition tmp_png : string := "/tmp/jpeg_test_roundtrip.png"%string.

(** [memcmp(a, b, n) == 0]: both ranges must lie inside their buffers. *)
Definition memcmp_eq (a b : list Z) (n : Z) : exec bool :=
  let! x := read_range a 0 n in
  let! y := read_range b 0 n in
  Done (bool_decide (x = y)).

(** [test_png_roundtrip].  [jpeg_load] belongs to [jpeg.h], which is not
    among these sources: [jpg] stands for what it returned, a structure with
    the fields [width], [height], [channels] and [data] the test reads.
    [remove] deletes the file. *)
Definition test_png_roundtrip (jpg : option png_image) (fs : filesystem)
  : exec (Z * filesystem) :=
  match jpg with
  | None => Done (-1, fs)
  | Some j =>
    match png_create (width j) (height j) (channels j) with
    | None => Done (-2, fs)
    | Some png =>
      let n := pixel_bytes (width j) (height j) (channels j) in
      let! d := memcpy (data png) 0 (data j) 0 n in
      let png1 := {| width := width png; height := height png;
                     channels := channels png; data := d |} in
      let! r := png_save (Some png1) (Some tmp_png) fs in
      if fst r <? 0 then Done (-3, snd r)
      else
        let! l := png_load tmp_png (snd r) in
        match l with
        | None => Done (-4, snd r)
        | Some png2 =>
          let! ok :=
            if (width png2 =? width j) && (height png2 =? height j)
               && (channels png2 =? channels j)
            then memcmp_eq (data png2) (data j) n
            else Done false in
          Done (if ok then 0 else -5,
                {| fs_files := delete tmp_png (fs_files (snd r));
                   fs_denied := fs_denied (snd r) |})
        end
    end
  end.

(** * Definitions for the statements

    What follows is not code of [png.h]: the notions the theorems are stated
    with, and the concrete inputs they are tried on. *)

(** ** Row filters *)

(** The predictor in the words of the specification. *)
Definition PaethPredictor (a b c : Z) : Z :=
  let p := a + b - c in
  let pa := Z.abs (p - a) in
  let pb := Z.abs (p - b) in
  let pc := Z.abs (p - c) in
  if decide (pa <= pb /\ pa <= pc) then a
  else if decide (pb <= pc) then b
  else c.

(** The left neighbour of byte [i] in [row], [0] when there is none. *)
Definition left_of (row : list Z) (bpp i : Z) : Z :=
  if bpp <=? i then byte_at row (i - bpp) else 0.

(** The upper-left neighbour. *)
Definition upper_left_of (prev_row : option (list Z)) (bpp i : Z) : Z :=
  if bpp <=? i then prev_at prev_row (i - bpp) else 0.

(** One turn of the filter-4 loop of [png_unfilter_row] at byte [i]. *)
Definition paeth_step (prev_row : option (list Z)) (bpp : Z) (row : list Z) (i : Z) :=
  set_at row i
    (to_u8 (byte_at row i
            + paeth_predict (left_of row bpp i) (prev_at prev_row i)
                (upper_left_of prev_row bpp i))).

(** ** Canonical Huffman codes *)

(** The number of codes of length [len] among [lengths]. *)
Definition code_count (lengths : list Z) (len : Z) : Z :=
  len_of (filter (fun l => l = len) lengths).

(** The Kraft count of the specification: [left = 1] at the start and
    [left = (left << 1) - count[len]] for each length in turn. *)
Fixpoint kraft_left (lengths : list Z) (len : nat) : Z :=
  match len with
  | O => 1
  | S k => 2 * kraft_left lengths k - code_count lengths (Z.of_nat (S k))
  end.

(** The symbols of code length [len], in increasing order; [i] is the symbol
    at the head of [lengths]. *)
Fixpoint symbols_of_length (lengths : list Z) (len : Z) (i : Z) : list Z :=
  match lengths with
  | [] => []
  | l :: rest =>
    if decide (l = len) then i :: symbols_of_length rest len (i + 1)
    else symbols_of_length rest len (i + 1)
  end.

(** The canonical order: symbols grouped by length 1 to 15. *)
Definition canonical_symbols (lengths : list Z) : list Z :=
  flat_map (fun len => symbols_of_length lengths len 0) (range_from 1 16).

(** The number of codes whose length is between 1 and [k]. *)
Fixpoint codes_upto (lengths : list Z) (k : nat) : Z :=
  match k with
  | O => 0
  | S j => codes_upto lengths j + code_count lengths (Z.of_nat (S j))
  end.

Definition place_inv (lengths done : list Z) (st : list Z * list Z) : Prop :=
  length (fst st) = 16%nat /\ length (snd st) = 288%nat
  /\ forall len : nat, (1 <= len <= 15)%nat ->
       byte_at (fst st) (Z.of_nat len)
       = codes_upto lengths (len - 1) + code_count done (Z.of_nat len)
       /\ slice (snd st) (codes_upto lengths (len - 1)) (code_count done (Z.of_nat len))
          = symbols_of_length done (Z.of_nat len) 0.

(** ** Chunks *)

(** A chunk as it lies in a file. *)
Record chunk : Type := {
  ck_type : list Z;
  ck_payload : list Z;
  ck_crc : list Z
}.

Definition chunk_bytes (k : chunk) : list Z :=
  be32_bytes (len_of (ck_payload k)) ++ ck_type k ++ ck_payload k ++ ck_crc k.

Definition chunk_wf (k : chunk) : Prop :=
  length (ck_type k) = 4%nat /\ length (ck_crc k) = 4%nat
  /\ len_of (ck_payload k) < 4294967296.

(** The end of the input as the chunk loop meets it: fewer than eight bytes,
    or a chunk whose declared length runs past the end. *)
Definition overruns (tail : list Z) : Prop :=
  len_of tail < 8 \/ len_of tail < 12 + png_read_be32_mem tail 0.

(** What the chunk loop does with a sequence of whole chunks. *)
Fixpoint collect (cks : list chunk) (st : chunk_state) : exec chunk_state :=
  match cks with
  | [] => Done st
  | k :: rest =>
    if bool_decide (ck_type k = type_IHDR) then
      if len_of (ck_payload k) <? 13 then Done st
      else collect rest
             {| cs_width := to_int (png_read_be32_mem (ck_payload k) 0);
                cs_height := to_int (png_read_be32_mem (ck_payload k) 4);
                cs_color_type := byte_at (ck_payload k) 9;
                cs_idat := cs_idat st |}
    else if bool_decide (ck_type k = type_IDAT) then
      if negb (malloc_ok (len_of (default [] (cs_idat st)) + len_of (ck_payload k)))
      then Undefined
      else collect rest
             {| cs_width := cs_width st; cs_height := cs_height st;
                cs_color_type := cs_color_type st;
                cs_idat := Some (default [] (cs_idat st) ++ ck_payload k) |}
    else if bool_decide (ck_type k = type_IEND) then Done st
    else collect rest st
  end.

(** ** The state of the bit reader *)

(** The bits the reader has not consumed yet. *)
Definition bits_left (bs : png_bitstream) : Z :=
  8 * (len_of (bs_data bs) - bytepos bs) + bitcount bs.

Definition bs_wf (bs : png_bitstream) : Prop :=
  0 <= bytepos bs <= len_of (bs_data bs) /\ 0 <= bitcount bs.

(** ** Stored blocks *)

Definition aligned_at (buf : list Z) (p : Z) : png_bitstream :=
  {| bs_data := buf; bytepos := p; bitbuf := 0; bitcount := 0 |}.

(** The five header bytes of a stored block of [bl] bytes. *)
Definition stored_header (fin bl : Z) : list Z :=
  [fin; Z.land bl 0xff; Z.land (Z.shiftr bl 8) 0xff;
   Z.land (to_size_t (Z.lnot bl)) 0xff;
   Z.land (Z.shiftr (to_size_t (Z.lnot bl)) 8) 0xff].

(** The store-mode zlib stream of [raw]. *)
Definition zlib_store (raw : list Z) : list Z :=
  [0x78; 0x01] ++ store_blocks (length raw) raw ++ be32_bytes (png_adler32 raw).

(** ** Raw image data and the files of the encoder *)

(** The raw image data: each row of [n] bytes after its filter byte. *)
Fixpoint rows_with_filters (fs : list Z) (n : Z) (pixels : list Z) : list Z :=
  match fs with
  | [] => []
  | f :: rest =>
    f :: slice pixels 0 n ++ rows_with_filters rest n (drop (Z.to_nat n) pixels)
  end.

(** [k] zero bytes, as [calloc] returns them. *)
Definition zeros (k : Z) : list Z := repeat 0 (Z.to_nat k).

(** A chunk as [png_write_chunk] writes it, with the CRC-32 of type and
    payload. *)
Definition written_chunk (type payload : list Z) : chunk :=
  {| ck_type := type; ck_payload := payload;
     ck_crc := be32_bytes (png_crc (type ++ payload)) |}.

(** The raw data [png_save_internal] builds: every row with filter byte 0. *)
Definition image_raw (img : png_image) : list Z :=
  rows_with_filters (repeat 0 (Z.to_nat (height img)))
    (width img * channels img) (data img).

(** The chunks of the file [png_save_internal] writes for [img], with the
    chunks [text] between IHDR and IDAT. *)
Definition saved_chunks (img : png_image) (text : list chunk) : list chunk :=
  [written_chunk type_IHDR (ihdr_bytes img)] ++ text
    ++ [written_chunk type_IDAT (zlib_store (image_raw img));
        written_chunk type_IEND []].

(** The images the encoder handles within [int] arithmetic. *)
Definition encodable (img : png_image) : Prop :=
  1 <= width img /\ 1 <= height img /\ 1 <= channels img
  /\ width img * channels img < INT_MAX
  /\ height img * (width img * channels img) <= INT_MAX
  /\ len_of (data img) = width img * height img * channels img.

(** ** Rows of the decoder *)

(** A filter byte whose row [png_unfilter_row] leaves as it is. *)
Definition leaves_row (f : Z) : Prop := f = 0 \/ 4 < f.

(** Row [y] of the raw data: its filter byte and its bytes. *)
Definition row_at (raw : list Z) (n y f : Z) (row : list Z) : Prop :=
  exists pre post,
    raw = pre ++ [f] ++ row ++ post /\ len_of pre = y * (1 + n) /\ len_of row = n.

(** The chunks of an image file with one IDAT chunk in store mode. *)
Definition stored_image_chunks (hdr raw : list Z) : list chunk :=
  [written_chunk type_IHDR hdr; written_chunk type_IDAT (zlib_store raw);
   written_chunk type_IEND []].

(** Two chunks of the same type and payload; their CRC fields may differ. *)
Definition same_content (k k' : chunk) : Prop :=
  ck_type k = ck_type k' /\ ck_payload k = ck_payload k'.


(** ** Concrete inputs *)

(** An image of one column and [2^30] rows of one zero byte each. *)
Definition tall_image : png_image :=
  {| width := 1; height := 1073741824; channels := 1;
     data := zeros 1073741824 |}.

(** A grey image of one pixel. *)
Definition grey_pixel : png_image :=
  {| width := 1; height := 1; channels := 1; data := [7] |}.

(** Its IHDR chunk with a CRC field of zeros. *)
Definition bad_ihdr : chunk :=
  {| ck_type := type_IHDR; ck_payload := ihdr_bytes grey_pixel;
     ck_crc := [0; 0; 0; 0] |}.

(** The header of an IEND chunk that declares one byte of payload. *)
Definition cut_iend : list Z := [0; 0; 0; 1; 73; 69; 78; 68].

(** A file of [grey_pixel] whose IHDR chunk carries a wrong CRC and whose
    last chunk declares a byte of payload that is not there. *)
Definition bad_crc_file : list Z :=
  signature
    ++ flat_map chunk_bytes
         [bad_ihdr; written_chunk type_IDAT (zlib_store (image_raw grey_pixel))]
    ++ cut_iend.

(** An RGB image of one pixel. *)
Definition rgb_pixel : png_image :=
  {| width := 1; height := 1; channels := 3; data := [10; 20; 30] |}.

(** A file of [rgb_pixel] whose only row has filter byte 5. *)
Definition filter5_file : list Z :=
  signature
    ++ flat_map chunk_bytes
         (stored_image_chunks (ihdr_bytes rgb_pixel) [5; 10; 20; 30]).


(** A file whose IHDR declares width [2^30 + 1], height 1 and four
    channels, and whose IDAT holds one row of four bytes. *)
Definition wide_file : list Z :=
  signature
    ++ flat_map chunk_bytes
         (stored_image_chunks [64; 0; 0; 1; 0; 0; 0; 1; 8; 6; 0; 0; 0]
            [0; 1; 2; 3; 4]).

(** The image [png_load_mem] returns for [wide_file]. *)
Definition wide_image : png_image :=
  {| width := 1073741825; height := 1; channels := 4; data := [1; 2; 3; 4] |}.

(** The 3 by 2 RGBA image with bytes 0 to 23. *)
Definition rgba_3x2 : png_image :=
  {| width := 3; height := 2; channels := 4;
     data := [0; 1; 2; 3; 4; 5; 6; 7; 8; 9; 10; 11;
              12; 13; 14; 15; 16; 17; 18; 19; 20; 21; 22; 23] |}.

Definition empty_huffman : png_huffman := {| h_count := []; h_symbol := [] |}.

(** The fixed tables of [png_build_fixed_huffman]. *)
Definition fixed_litlen : png_huffman :=
  default empty_huffman (png_huffman_build fixed_litlen_lengths).
Definition fixed_dist : png_huffman :=
  default empty_huffman (png_huffman_build fixed_dist_lengths).

(** The bit reader inside the fixed block of the [ABABABA] stream, after the
    three header bits. *)
Definition backref_bits (pos buf count : Z) : png_bitstream :=
  {| bs_data := [3; 67; 0]; bytepos := pos; bitbuf := buf; bitcount := count |}.

(** ** Checksums *)

(** The sum of the bytes of a buffer. *)
Definition byte_sum (buf : list Z) : Z := fold_right Z.add 0 buf.

(** The sum of the bytes, each weighted by the number of bytes from it to
    the end of the buffer. *)
Fixpoint weighted_sum (buf : list Z) : Z :=
  match buf with
  | [] => 0
  | d :: rest => (len_of rest + 1) * d + weighted_sum rest
  end.

(** One turn of the inner loop of [png_make_crc_table]. *)
Definition crc_bit (c : Z) : Z :=
  if Z.testbit c 0 then Z.lxor 0xedb88320 (Z.shiftr c 1) else Z.shiftr c 1.

(** The CRC register after byte [b], one bit at a time. *)
Definition crc_byte (c b : Z) : Z := crc_bits 8 (Z.lxor c b).

(** ** The bit stream *)

(** The bytes of a buffer as one number, least significant byte first: bit
    [k] of the stream is bit [k] of this number. *)
Fixpoint stream_value (data : list Z) : Z :=
  match data with
  | [] => 0
  | d :: rest => d + 256 * stream_value rest
  end.

(** The number of bits the reader has handed out. *)
Definition bits_consumed (bs : png_bitstream) : Z := 8 * bytepos bs - bitcount bs.

(** The next [n] bits of the stream, the first one in the lowest place. *)
Definition next_bits (bs : png_bitstream) (n : Z) : Z :=
  (stream_value (bs_data bs) / 2 ^ bits_consumed bs) mod 2 ^ n.

(** The register holds the bits of the stream that were loaded and not yet
    handed out, and nothing else. *)
Definition bs_sync (bs : png_bitstream) : Prop :=
  bs_wf bs /\ Forall is_byte (bs_data bs) /\ bitcount bs <= 32
  /\ 0 <= bits_consumed bs
  /\ bitbuf bs = next_bits bs (bitcount bs).

(** ** Canonical codes *)

(** The first code of each length: 0 for length 1, and for each further
    length twice the first code after the last one of the length before. *)
Fixpoint first_code (lengths : list Z) (len : nat) : Z :=
  match len with
  | O => 0
  | S k =>
    match k with
    | O => 0
    | S _ => 2 * (first_code lengths k + code_count lengths (Z.of_nat k))
    end
  end.

(** The code of symbol [s]: the first code of its length plus the number of
    smaller symbols of the same length. *)
Definition canonical_code (lengths : list Z) (s : Z) : Z :=
  first_code lengths (Z.to_nat (byte_at lengths s))
  + code_count (take (Z.to_nat s) lengths) (byte_at lengths s).

(** The [len] bits of [code], the most significant one first. *)
Fixpoint code_bits (len : nat) (code : Z) : list Z :=
  match len with
  | O => []
  | S k => (code / 2 ^ Z.of_nat k) mod 2 :: code_bits k code
  end.

(** The reader hands out the bits [bits] one after the other; the result is
    the state it is left in. *)
Fixpoint reads_bits (bs : png_bitstream) (bits : list Z) : option png_bitstream :=
  match bits with
  | [] => Some bs
  | b :: rest =>
    match png_bitstream_get bs 1 with
    | Some (v, bs1) => if v =? b then reads_bits bs1 rest else None
    | None => None
    end
  end.

(** ** The chunk loop on a prefix of whole chunks *)

(** What the chunk loop does with a sequence of whole chunks that is followed
    by more input: [k] is the rest of the loop, which is not reached when the
    loop ends inside the sequence. *)
Fixpoint collect_with (cks : list chunk) (st : chunk_state)
    (k : chunk_state -> exec chunk_state) : exec chunk_state :=
  match cks with
  | [] => k st
  | c :: rest =>
    if bool_decide (ck_type c = type_IHDR) then
      if len_of (ck_payload c) <? 13 then Done st
      else collect_with rest
             {| cs_width := to_int (png_read_be32_mem (ck_payload c) 0);
                cs_height := to_int (png_read_be32_mem (ck_payload c) 4);
                cs_color_type := byte_at (ck_payload c) 9;
                cs_idat := cs_idat st |} k
    else if bool_decide (ck_type c = type_IDAT) then
      if negb (malloc_ok (len_of (default [] (cs_idat st)) + len_of (ck_payload c)))
      then Undefined
      else collect_with rest
             {| cs_width := cs_width st; cs_height := cs_height st;
                cs_color_type := cs_color_type st;
                cs_idat := Some (default [] (cs_idat st) ++ ck_payload c) |} k
    else if bool_decide (ck_type c = type_IEND) then Done st
    else collect_with rest st k
  end.

(** ** A file with a wrapped row size *)

(** A file whose IHDR declares width [2^29], height 2 and four channels, so
    that [width * channels] wraps to [-2^31] and the raw size to 2, with a
    stream of two bytes. *)
Definition wrapped_row_file : list Z :=
  signature
    ++ flat_map chunk_bytes
         (stored_image_chunks [32; 0; 0; 0; 0; 0; 0; 2; 8; 6; 0; 0; 0] [0; 0]).

(** ** The fixed code of DEFLATE *)

(** Length and value of the code of literal/length symbol [s] in a fixed
    block. *)
Definition fixed_len (s : Z) : Z :=
  if s <? 144 then 8 else if s <? 256 then 9 else if s <? 280 then 7 else 8.

Definition fixed_code (s : Z) : Z :=
  if s <? 144 then 48 + s
  else if s <? 256 then 400 + (s - 144)
  else if s <? 280 then s - 256
  else 192 + (s - 280).

(** ** Inputs of the further examples *)

(** A reader that has taken three bits of the two bytes [181; 1]. *)
Definition three_bits_in : png_bitstream :=
  {| bs_data := [181; 1]; bytepos := 1; bitbuf := 22; bitcount := 5 |}.



(** A text chunk and an end chunk with CRC fields of zeros. *)
Definition text_chunk : chunk :=
  {| ck_type := type_tEXt; ck_payload := [65; 0; 66]; ck_crc := [0; 0; 0; 0] |}.

Definition end_chunk : chunk :=
  {| ck_type := type_IEND; ck_payload := []; ck_crc := [0; 0; 0; 0] |}.


(** A file system without files, where every path can be written. *)
Definition no_files : filesystem := {| fs_files := empty; fs_denied := empty |}.

(** * Proofs *)

(** ** Basic facts about buffers *)

Lemma len_of_nonneg buf : 0 <= len_of buf.
Proof. unfold len_of. lia. Qed.

Lemma len_of_app a b : len_of (a ++ b) = len_of a + len_of b.
Proof. unfold len_of. rewrite length_app. lia. Qed.

Lemma len_of_set_at buf i v : len_of (set_at buf i v) = len_of buf.
Proof. unfold len_of, set_at. by rewrite length_insert. Qed.

Lemma byte_at_set_at_eq buf i v :
  0 <= i < len_of buf -> byte_at (set_at buf i v) i = v.
Proof.
  unfold byte_at, set_at, len_of. intros Hi.
  apply nth_lookup_Some. apply list_lookup_insert_eq. lia.
Qed.

Lemma byte_at_set_at_ne buf i j v :
  0 <= i -> 0 <= j -> i <> j -> byte_at (set_at buf i v) j = byte_at buf j.
Proof.
  unfold byte_at, set_at. intros Hi Hj Hne.
  rewrite !nth_lookup, list_lookup_insert_ne; [done | lia].
Qed.

Lemma to_int_small z : - 2147483648 <= z <= INT_MAX -> to_int z = z.
Proof. unfold to_int, INT_MAX. intros Hz. rewrite Z.mod_small; lia. Qed.

Lemma to_u32_small z : 0 <= z < 4294967296 -> to_u32 z = z.
Proof. unfold to_u32. intros Hz. by apply Z.mod_small. Qed.

Lemma to_size_t_small z : 0 <= z < 18446744073709551616 -> to_size_t z = z.
Proof. unfold to_size_t. intros Hz. by apply Z.mod_small. Qed.

Lemma to_u16_small z : 0 <= z < 65536 -> to_u16 z = z.
Proof. unfold to_u16. intros Hz. by apply Z.mod_small. Qed.

Lemma to_u8_small z : 0 <= z < 256 -> to_u8 z = z.
Proof. unfold to_u8. intros Hz. by apply Z.mod_small. Qed.

Lemma range_from_snoc a k :
  range_from a (a + Z.of_nat (S k)) = range_from a (a + Z.of_nat k) ++ [a + Z.of_nat k].
Proof.
  unfold range_from.
  replace (Z.to_nat (a + Z.of_nat (S k) - a)) with (S k) by lia.
  replace (Z.to_nat (a + Z.of_nat k - a)) with k by lia.
  rewrite seq_S, map_app. reflexivity.
Qed.

Lemma png_abs_abs x : - INT_MAX <= x <= INT_MAX -> png_abs x = Z.abs x.
Proof.
  unfold png_abs, to_int, INT_MAX. intros Hx.
  destruct (x <? 0) eqn:E.
  - apply Z.ltb_lt in E. rewrite Z.abs_neq by lia.
    rewrite Z.mod_small by lia. lia.
  - apply Z.ltb_ge in E. rewrite Z.abs_eq by lia. reflexivity.
Qed.

(** ** Paeth reconstruction *)

Lemma paeth_predict_spec a b c :
  is_byte a -> is_byte b -> is_byte c ->
  paeth_predict a b c = PaethPredictor a b c.
Proof.
  unfold is_byte, paeth_predict, PaethPredictor. intros Ha Hb Hc. cbv zeta.
  rewrite !png_abs_abs by (unfold INT_MAX; lia).
  repeat case_decide; repeat case_match;
    rewrite ?andb_true_iff, ?andb_false_iff, ?Z.leb_le, ?Z.leb_gt in *; lia.
Qed.

Lemma paeth_scan prev_row bpp row (k : nat) :
  1 <= bpp -> (k <= length row)%nat ->
  let S := fold_left (paeth_step prev_row bpp) (range_from 0 (Z.of_nat k)) row in
  len_of S = len_of row
  /\ (forall j, Z.of_nat k <= j -> byte_at S j = byte_at row j)
  /\ (forall j, 0 <= j < Z.of_nat k ->
        byte_at S j =
        to_u8 (byte_at row j
               + paeth_predict (left_of S bpp j) (prev_at prev_row j)
                   (upper_left_of prev_row bpp j))).
Proof.
  intros Hbpp. induction k as [|k IH]; intros Hk S.
  - subst S. cbn. split; [done|]. split; [done|]. intros; lia.
  - destruct IH as (Hlen & Hrest & Hdone); [lia|].
    subst S. change (Z.of_nat (Datatypes.S k)) with (0 + Z.of_nat (Datatypes.S k)).
    rewrite range_from_snoc, fold_left_app. cbn [fold_left].
    change (0 + Z.of_nat k) with (Z.of_nat k).
    set (S := fold_left (paeth_step prev_row bpp) (range_from 0 (Z.of_nat k)) row) in *.
    assert (Hin : 0 <= Z.of_nat k < len_of S) by (rewrite Hlen; unfold len_of; lia).
    set (v := to_u8 (byte_at S (Z.of_nat k)
            + paeth_predict (left_of S bpp (Z.of_nat k)) (prev_at prev_row (Z.of_nat k))
                (upper_left_of prev_row bpp (Z.of_nat k)))).
    change (paeth_step prev_row bpp S (Z.of_nat k)) with (set_at S (Z.of_nat k) v).
    split; [|split].
    + by rewrite len_of_set_at.
    + intros j Hj. rewrite byte_at_set_at_ne by lia. apply Hrest. lia.
    + intros j Hj.
      assert (Hleft : forall x, left_of (set_at S (Z.of_nat k) x) bpp j = left_of S bpp j).
      { intros x. unfold left_of. case_match; [|done].
        apply Z.leb_le in H. apply byte_at_set_at_ne; lia. }
      rewrite Hleft.
      destruct (decide (j = Z.of_nat k)) as [->|Hne].
      * rewrite byte_at_set_at_eq by done. subst v. rewrite Hrest by lia. reflexivity.
      * rewrite byte_at_set_at_ne by lia. apply Hdone. lia.
Qed.

Lemma to_u8_byte z : is_byte (to_u8 z).
Proof. unfold is_byte, to_u8. apply Z.mod_pos_bound. lia. Qed.

Lemma byte_at_is_byte buf i : Forall is_byte buf -> is_byte (byte_at buf i).
Proof.
  intros Hb. unfold byte_at.
  destruct (nth_in_or_default (Z.to_nat i) buf 0) as [Hin | ->].
  - rewrite Forall_forall in Hb. apply Hb. by apply list_elem_of_In.
  - unfold is_byte; lia.
Qed.

Lemma prev_at_is_byte prev_row i :
  (forall p, prev_row = Some p -> Forall is_byte p) -> is_byte (prev_at prev_row i).
Proof.
  intros Hp. destruct prev_row as [p|]; cbn.
  - apply byte_at_is_byte. by apply Hp.
  - unfold is_byte; lia.
Qed.

(** C7.  Filter type 4 sets every byte [i] of the row to
    [(row[i] + PaethPredictor(a, b, c)) mod 256], where [a] is the
    reconstructed byte [bpp] places to the left, [b] the byte above and [c]
    the byte above [a], each [0] when absent, and [PaethPredictor] computes
    [p = a + b - c], the three distances [|p - a|], [|p - b|], [|p - c|] and
    picks [a], then [b], then [c] on ties. *)
Theorem paeth_row_reconstruction
    (row : list Z) (prev_row : option (list Z)) (w c i : Z) :
  1 <= c ->
  0 <= w * c <= INT_MAX ->
  len_of row = w * c ->
  (forall p, prev_row = Some p -> len_of p = w * c /\ Forall is_byte p) ->
  0 <= i < w * c ->
  let out := png_unfilter_row row prev_row 4 w c in
  let a := if decide (c <= i) then byte_at out (i - c) else 0 in
  let b := match prev_row with Some p => byte_at p i | None => 0 end in
  let c' := match prev_row with
            | Some p => if decide (c <= i) then byte_at p (i - c) else 0
            | None => 0
            end in
  byte_at out i = (byte_at row i + PaethPredictor a b c') mod 256.
Proof.
  intros Hc Hn Hlen Hprev Hi out a b c'.
  assert (Hout : out = fold_left (paeth_step prev_row c)
                         (range_from 0 (Z.of_nat (Z.to_nat (w * c)))) row).
  { subst out. unfold png_unfilter_row. cbn [Z.eqb Pos.eqb].
    rewrite to_int_small by lia.
    rewrite Z2Nat.id by lia. reflexivity. }
  destruct (paeth_scan prev_row c row (Z.to_nat (w * c))) as (_ & _ & Hdone);
    [lia | unfold len_of in Hlen; lia |].
  rewrite <- Hout in Hdone. rewrite (Hdone i) by lia.
  assert (Ha : left_of out c i = a).
  { unfold left_of. subst a. case_decide; case_match;
      rewrite ?Z.leb_le, ?Z.leb_gt in *; first [done | lia]. }
  assert (Hb : prev_at prev_row i = b) by (by destruct prev_row).
  assert (Hc' : upper_left_of prev_row c i = c').
  { unfold upper_left_of. subst c'. destruct prev_row; cbn;
      repeat case_decide; repeat case_match;
      rewrite ?Z.leb_le, ?Z.leb_gt in *; first [done | lia]. }
  rewrite Ha, Hb, Hc'. unfold to_u8. f_equal. f_equal.
  apply paeth_predict_spec.
  - subst a. case_decide; [|unfold is_byte; lia].
    rewrite Hout.
    destruct (paeth_scan prev_row c row (Z.to_nat (w * c))) as (_ & _ & Hd);
      [lia | unfold len_of in Hlen; lia |].
    rewrite (Hd (i - c)) by lia. apply to_u8_byte.
  - rewrite <- Hb. apply prev_at_is_byte. intros p Hp. by apply Hprev.
  - rewrite <- Hc'. unfold upper_left_of. case_match; [|unfold is_byte; lia].
    apply prev_at_is_byte. intros p Hp. by apply Hprev.
Qed.

(** ** Canonical Huffman tables *)

Lemma code_count_nil len : code_count [] len = 0.
Proof. reflexivity. Qed.

Lemma code_count_cons l rest len :
  code_count (l :: rest) len = (if decide (l = len) then 1 else 0) + code_count rest len.
Proof.
  unfold code_count, len_of. rewrite filter_cons.
  case_decide; cbn [length]; lia.
Qed.

Lemma code_count_nonneg lengths len : 0 <= code_count lengths len.
Proof. unfold code_count. apply len_of_nonneg. Qed.

Lemma code_count_le lengths len : code_count lengths len <= len_of lengths.
Proof.
  unfold code_count, len_of. pose proof (length_filter (fun l => l = len) lengths). lia.
Qed.

Lemma byte_at_repeat0 n i : byte_at (repeat 0 n) i = 0.
Proof.
  unfold byte_at. destruct (decide (Z.to_nat i < n)%nat).
  - by rewrite nth_repeat_lt.
  - apply nth_overflow. rewrite repeat_length. lia.
Qed.

Lemma tally_lengths_spec lengths count :
  Forall is_byte lengths ->
  length count = 16%nat ->
  (forall len, 0 <= len <= 15 -> 0 <= byte_at count len) ->
  (forall len, 0 <= len <= 15 -> byte_at count len + code_count lengths len < 65536) ->
  match tally_lengths lengths count with
  | None => Exists (fun l => 15 < l) lengths
  | Some count' =>
    Forall (fun l => l <= 15) lengths
    /\ length count' = 16%nat
    /\ forall len, 0 <= len <= 15 ->
         byte_at count' len = byte_at count len + code_count lengths len
  end.
Proof.
  intros Hb. revert count.
  induction Hb as [|l rest Hl Hrest IH]; intros count Hlen Hpos Hsmall.
  - cbn. split; [constructor|]. split; [done|]. intros. rewrite code_count_nil. lia.
  - cbn [tally_lengths]. unfold PNG_MAXBITS. destruct (15 <? l) eqn:E.
    + apply Z.ltb_lt in E. by left.
    + apply Z.ltb_ge in E. unfold is_byte in Hl.
      assert (Hin : 0 <= l < len_of count) by (unfold len_of; lia).
      assert (Hinc : to_u16 (byte_at count l + 1) = byte_at count l + 1).
      { unfold to_u16. apply Z.mod_small.
        specialize (Hpos l). specialize (Hsmall l).
        rewrite code_count_cons in Hsmall. pose proof (code_count_nonneg rest l).
        rewrite decide_True in Hsmall by done. lia. }
      rewrite Hinc.
      specialize (IH (set_at count l (byte_at count l + 1))).
      assert (Hget : forall len, 0 <= len <= 15 ->
                byte_at (set_at count l (byte_at count l + 1)) len
                = byte_at count len + (if decide (l = len) then 1 else 0)).
      { intros len Hr. case_decide as Hd.
        - subst len. by rewrite byte_at_set_at_eq.
        - rewrite byte_at_set_at_ne by lia. lia. }
      assert (H1 : length (set_at count l (byte_at count l + 1)) = 16%nat)
        by (unfold set_at; by rewrite length_insert).
      assert (H2 : forall len, 0 <= len <= 15 ->
                0 <= byte_at (set_at count l (byte_at count l + 1)) len).
      { intros len Hr. rewrite Hget by done. specialize (Hpos len Hr).
        case_decide; lia. }
      assert (H3 : forall len, 0 <= len <= 15 ->
                byte_at (set_at count l (byte_at count l + 1)) len
                + code_count rest len < 65536).
      { intros len Hr. rewrite Hget by done. specialize (Hsmall len Hr).
        rewrite code_count_cons in Hsmall. lia. }
      specialize (IH H1 H2 H3).
      destruct (tally_lengths rest (set_at count l (byte_at count l + 1)))
        as [count'|].
      * destruct IH as (Hall & Hlen' & Hcnt).
        split; [constructor; [lia|done]|]. split; [done|].
        intros len Hr. rewrite Hcnt, Hget by done. rewrite code_count_cons. lia.
      * by right.
Qed.

Lemma tally_lengths_build lengths :
  Forall is_byte lengths ->
  len_of lengths <= 288 ->
  match tally_lengths lengths (repeat 0 16) with
  | None => Exists (fun l => 15 < l) lengths
  | Some count =>
    Forall (fun l => l <= 15) lengths
    /\ length count = 16%nat
    /\ forall len, 0 <= len <= 15 -> byte_at count len = code_count lengths len
  end.
Proof.
  intros Hb Hn.
  pose proof (tally_lengths_spec lengths (repeat 0 16) Hb) as H.
  destruct (tally_lengths lengths (repeat 0 16)) as [count|].
  - destruct H as (Hall & Hlen & Hcnt).
    + reflexivity.
    + intros. by rewrite byte_at_repeat0.
    + intros len _. rewrite byte_at_repeat0. pose proof (code_count_le lengths len). lia.
    + split; [done|]. split; [done|]. intros len Hr.
      rewrite Hcnt by done. by rewrite byte_at_repeat0.
  - apply H.
    + reflexivity.
    + intros. by rewrite byte_at_repeat0.
    + intros len _. rewrite byte_at_repeat0. pose proof (code_count_le lengths len). lia.
Qed.

(** *** The Kraft check *)

Lemma range_from_cons a b :
  a < b -> range_from a b = a :: range_from (a + 1) b.
Proof.
  intros Hab. unfold range_from.
  replace (Z.to_nat (b - a)) with (S (Z.to_nat (b - (a + 1)))) by lia.
  cbn [seq map]. f_equal; [lia|].
  rewrite <- seq_shift, map_map. apply map_ext. intros k. lia.
Qed.

Lemma range_from_nil a b : b <= a -> range_from a b = [].
Proof. intros Hab. unfold range_from. by replace (Z.to_nat (b - a)) with 0%nat by lia. Qed.

Lemma kraft_left_upper lengths k : kraft_left lengths k <= 2 ^ Z.of_nat k.
Proof.
  induction k as [|k IH]; [cbn; lia|].
  cbn [kraft_left]. pose proof (code_count_nonneg lengths (Z.of_nat (S k))).
  replace (Z.of_nat (S k)) with (Z.succ (Z.of_nat k)) at 2 by lia.
  rewrite Z.pow_succ_r by lia. lia.
Qed.

Lemma kraft_check_spec lengths count (m k : nat) :
  len_of lengths <= 288 ->
  (forall len, 0 <= len <= 15 -> byte_at count len = code_count lengths len) ->
  (k + m <= 15)%nat ->
  0 <= kraft_left lengths k ->
  match kraft_check (range_from (Z.of_nat k + 1) (Z.of_nat (k + m) + 1)) count
          (kraft_left lengths k) with
  | None => exists j, (k < j <= k + m)%nat /\ kraft_left lengths j < 0
  | Some v =>
    v = kraft_left lengths (k + m)
    /\ forall j, (k < j <= k + m)%nat -> 0 <= kraft_left lengths j
  end.
Proof.
  intros Hn Hcnt. revert k. induction m as [|m IH]; intros k Hkm Hpos.
  - rewrite range_from_nil by lia. cbn. rewrite Nat.add_0_r. split; [done|]. intros; lia.
  - rewrite range_from_cons by lia. cbn [kraft_check].
    pose proof (kraft_left_upper lengths k) as Hup.
    assert (Hpow : 2 ^ Z.of_nat k <= 2 ^ 15) by (apply Z.pow_le_mono_r; lia).
    rewrite Hcnt by lia.
    pose proof (code_count_nonneg lengths (Z.of_nat k + 1)).
    pose proof (code_count_le lengths (Z.of_nat k + 1)).
    assert (Hstep : to_int (to_int (kraft_left lengths k * 2)
                            - code_count lengths (Z.of_nat k + 1))
                    = kraft_left lengths (S k)).
    { cbn [kraft_left]. replace (Z.of_nat (S k)) with (Z.of_nat k + 1) by lia.
      rewrite (to_int_small (_ * 2)) by (unfold INT_MAX; lia).
      rewrite to_int_small by (unfold INT_MAX; lia). lia. }
    rewrite Hstep. destruct (kraft_left lengths (S k) <? 0) eqn:E.
    + apply Z.ltb_lt in E. exists (S k). split; [lia|done].
    + apply Z.ltb_ge in E. specialize (IH (S k)).
      replace (Z.of_nat (S k) + 1) with (Z.of_nat k + 1 + 1) in IH by lia.
      replace (S k + m)%nat with (k + S m)%nat in IH by lia.
      destruct (kraft_check _ count (kraft_left lengths (S k))) as [v|].
      * destruct IH as (-> & Hall); [lia | done |].
        split; [done|]. intros j Hj.
        destruct (decide (j = S k)) as [->|]; [done|]. apply Hall. lia.
      * destruct IH as (j & Hj & Hneg); [lia | done |].
        exists j. split; [lia|done].
Qed.

(** *** Offsets *)

Lemma codes_upto_cons l rest k :
  codes_upto (l :: rest) k
  = (if decide (1 <= l <= Z.of_nat k) then 1 else 0) + codes_upto rest k.
Proof.
  induction k as [|k IH].
  - cbn [codes_upto]. rewrite decide_False by lia. lia.
  - cbn [codes_upto]. rewrite IH, code_count_cons.
    repeat case_decide; lia.
Qed.

Lemma codes_upto_nonneg lengths k : 0 <= codes_upto lengths k.
Proof.
  induction k as [|k IH]; cbn [codes_upto]; [lia|].
  pose proof (code_count_nonneg lengths (Z.of_nat (S k))). lia.
Qed.

Lemma codes_upto_le lengths k : codes_upto lengths k <= len_of lengths.
Proof.
  induction lengths as [|l rest IH].
  - induction k as [|k IHk]; cbn [codes_upto]; [done|].
    rewrite code_count_nil. unfold len_of in *. cbn in *. lia.
  - rewrite codes_upto_cons. unfold len_of in *. cbn [length].
    case_decide; lia.
Qed.

Lemma codes_upto_mono lengths (a b : nat) :
  (a <= b)%nat -> codes_upto lengths a <= codes_upto lengths b.
Proof.
  induction 1 as [|b Hab IH]; [lia|].
  cbn [codes_upto]. pose proof (code_count_nonneg lengths (Z.of_nat (S b))). lia.
Qed.

Lemma fill_offsets_spec lengths count (m k : nat) offs :
  len_of lengths <= 288 ->
  (forall len, 0 <= len <= 15 -> byte_at count len = code_count lengths len) ->
  (k + 1 + m <= 15)%nat ->
  length offs = 16%nat ->
  (forall j, (1 <= j <= k + 1)%nat ->
     byte_at offs (Z.of_nat j) = codes_upto lengths (j - 1)) ->
  let offs' := fill_offsets (range_from (Z.of_nat k + 1) (Z.of_nat (k + m) + 1))
                 count offs in
  length offs' = 16%nat
  /\ forall j, (1 <= j <= k + 1 + m)%nat ->
       byte_at offs' (Z.of_nat j) = codes_upto lengths (j - 1).
Proof.
  intros Hn Hcnt. revert k offs. induction m as [|m IH]; intros k offs Hkm Hlen Hoffs.
  - rewrite range_from_nil by lia. cbn. split; [done|].
    intros j Hj. apply Hoffs. lia.
  - rewrite range_from_cons by lia. cbn [fill_offsets].
    rewrite Hcnt by lia.
    assert (Hk1 : byte_at offs (Z.of_nat k + 1) = codes_upto lengths k).
    { replace (Z.of_nat k + 1) with (Z.of_nat (k + 1)) by lia.
      rewrite Hoffs by lia. f_equal. lia. }
    rewrite Hk1.
    assert (Hsum : codes_upto lengths k + code_count lengths (Z.of_nat k + 1)
                   = codes_upto lengths (S k)).
    { cbn [codes_upto]. do 2 f_equal. lia. }
    rewrite Hsum.
    pose proof (codes_upto_nonneg lengths (S k)).
    pose proof (codes_upto_le lengths (S k)).
    rewrite to_u16_small by lia.
    specialize (IH (S k) (set_at offs (Z.of_nat k + 1 + 1) (codes_upto lengths (S k)))).
    replace (Z.of_nat (S k) + 1) with (Z.of_nat k + 1 + 1) in IH by lia.
    replace (S k + m)%nat with (k + S m)%nat in IH by lia.
    destruct IH as (Hlen' & Hall).
    + lia.
    + unfold set_at. by rewrite length_insert.
    + intros j Hj. destruct (decide (j = S k + 1)%nat) as [->|Hne].
      * replace (Z.of_nat (S k + 1)) with (Z.of_nat k + 1 + 1) by lia.
        rewrite byte_at_set_at_eq by (unfold len_of; lia).
        f_equal. lia.
      * rewrite byte_at_set_at_ne by lia. apply Hoffs. lia.
    + split; [done|]. intros j Hj. apply Hall. lia.
Qed.

(** *** Placement *)

Lemma symbols_of_length_app a b len i :
  symbols_of_length (a ++ b) len i
  = symbols_of_length a len i ++ symbols_of_length b len (i + len_of a).
Proof.
  revert i. induction a as [|l a IH]; intros i.
  - cbn. f_equal. unfold len_of. cbn. lia.
  - cbn [app symbols_of_length]. rewrite IH.
    replace (i + 1 + len_of a) with (i + len_of (l :: a))
      by (unfold len_of; cbn [length]; lia).
    by case_decide.
Qed.

Lemma symbols_of_length_len lengths len i :
  len_of (symbols_of_length lengths len i) = code_count lengths len.
Proof.
  revert i. induction lengths as [|l rest IH]; intros i; [done|].
  cbn [symbols_of_length]. rewrite code_count_cons.
  case_decide; [|by rewrite IH].
  unfold len_of in *. cbn [length]. specialize (IH (i + 1)). lia.
Qed.

Lemma code_count_app a b len :
  code_count (a ++ b) len = code_count a len + code_count b len.
Proof.
  unfold code_count. by rewrite filter_app, len_of_app.
Qed.

Lemma slice_set_at_outside buf p v s c :
  0 <= p -> 0 <= s -> 0 <= c -> (p < s \/ s + c <= p) ->
  slice (set_at buf p v) s c = slice buf s c.
Proof.
  intros Hp Hs Hc Hout. unfold slice, set_at.
  apply list_eq. intros i.
  destruct (decide (i < Z.to_nat c)%nat).
  - rewrite !lookup_take_lt, !lookup_drop by done.
    by rewrite list_lookup_insert_ne by lia.
  - by rewrite !lookup_take_ge by lia.
Qed.

Lemma slice_set_at_next buf p v s c :
  0 <= s -> 0 <= c -> p = s + c -> p < len_of buf ->
  slice (set_at buf p v) s (c + 1) = slice buf s c ++ [v].
Proof.
  intros Hs Hc -> Hin. unfold slice, set_at, len_of in *.
  assert (Hl : length (take (Z.to_nat c) (drop (Z.to_nat s) buf)) = Z.to_nat c)
    by (rewrite length_take, length_drop; lia).
  apply list_eq. intros i.
  destruct (decide (i < Z.to_nat c)%nat) as [Hlt|Hge].
  - rewrite lookup_take_lt, lookup_drop by lia.
    rewrite lookup_app_l by lia.
    rewrite lookup_take_lt, lookup_drop by lia.
    by rewrite list_lookup_insert_ne by lia.
  - rewrite lookup_app_r by lia. rewrite Hl.
    destruct (decide (i = Z.to_nat c)) as [->|Hne].
    + rewrite lookup_take_lt, lookup_drop by lia.
      rewrite Nat.sub_diag. cbn.
      replace (Z.to_nat s + Z.to_nat c)%nat with (Z.to_nat (s + c)) by lia.
      apply list_lookup_insert_eq. lia.
    + rewrite lookup_take_ge by lia.
      destruct (i - Z.to_nat c)%nat eqn:E; [lia|]. done.
Qed.

Lemma codes_upto_succ lengths (len : nat) :
  (1 <= len)%nat ->
  codes_upto lengths len = codes_upto lengths (len - 1) + code_count lengths (Z.of_nat len).
Proof.
  intros Hlen. destruct len as [|k]; [lia|].
  cbn [codes_upto]. replace (S k - 1)%nat with k by lia. reflexivity.
Qed.

Lemma place_step lengths done l rest st :
  lengths = done ++ l :: rest ->
  0 <= l <= 15 ->
  len_of lengths <= 288 ->
  place_inv lengths done st ->
  place_inv lengths (done ++ [l])
    (if l =? 0 then st
     else (set_at (fst st) l (to_u16 (byte_at (fst st) l + 1)),
           set_at (snd st) (byte_at (fst st) l) (to_u16 (len_of done)))).
Proof.
  intros Hsplit Hl Hn (Hlo & Hls & Hinv).
  assert (Hcc : forall len, code_count (done ++ [l]) len
                  = code_count done len + (if decide (l = len) then 1 else 0)).
  { intros len. rewrite code_count_app, code_count_cons, code_count_nil. lia. }
  assert (Hsy : forall len, symbols_of_length (done ++ [l]) len 0
                  = symbols_of_length done len 0
                    ++ (if decide (l = len) then [len_of done] else [])).
  { intros len. rewrite symbols_of_length_app. cbn [symbols_of_length].
    rewrite Z.add_0_l. by case_decide. }
  assert (Htot : forall len, code_count lengths len
                  = code_count done len + (if decide (l = len) then 1 else 0)
                    + code_count rest len).
  { intros len. subst lengths. rewrite code_count_app, code_count_cons. lia. }
  destruct (l =? 0) eqn:E0.
  - apply Z.eqb_eq in E0. subst l.
    split; [done|]. split; [done|]. intros len Hr.
    destruct (Hinv len Hr) as (Ho & Hs).
    rewrite Hcc, Hsy, !decide_False by lia.
    rewrite Z.add_0_r, app_nil_r. done.
  - apply Z.eqb_neq in E0. unfold place_inv. cbn [fst snd].
    set (L := Z.to_nat l).
    assert (HL : (1 <= L <= 15)%nat) by lia.
    destruct (Hinv L HL) as (HoL & HsL).
    replace (Z.of_nat L) with l in HoL, HsL by lia.
    pose proof (code_count_nonneg done l) as Hcd.
    pose proof (code_count_nonneg rest l) as Hcr.
    pose proof (codes_upto_nonneg lengths (L - 1)) as Hcu.
    pose proof (codes_upto_succ lengths L ltac:(lia)) as HsuccL.
    replace (Z.of_nat L) with l in HsuccL by lia.
    pose proof (codes_upto_le lengths L) as HleL.
    pose proof (Htot l) as HtotL. rewrite decide_True in HtotL by done.
    assert (Hp : 0 <= byte_at (fst st) l < 288) by lia.
    split; [unfold set_at; by rewrite length_insert|].
    split; [unfold set_at; by rewrite length_insert|].
    intros len Hr. destruct (Hinv len Hr) as (Ho & Hs).
    pose proof (code_count_nonneg done (Z.of_nat len)).
    pose proof (code_count_nonneg rest (Z.of_nat len)).
    pose proof (codes_upto_nonneg lengths (len - 1)).
    rewrite Hcc, Hsy.
    destruct (decide (l = Z.of_nat len)) as [Heq|Hne].
    + assert (len = L) by lia. subst len. rewrite <- Heq.
      split.
      * rewrite byte_at_set_at_eq by (unfold len_of; lia).
        rewrite to_u16_small by lia. lia.
      * rewrite slice_set_at_next with (c := code_count done l); try lia.
        -- rewrite HsL. f_equal. f_equal. apply to_u16_small.
           assert (len_of lengths = len_of done + 1 + len_of rest).
           { subst lengths. rewrite len_of_app. unfold len_of. cbn [length]. lia. }
           pose proof (len_of_nonneg done). pose proof (len_of_nonneg rest). lia.
        -- unfold len_of. lia.
    + rewrite Z.add_0_r, app_nil_r. split.
      * rewrite byte_at_set_at_ne by lia. done.
      * rewrite slice_set_at_outside; [done | lia | lia | lia |].
        pose proof (codes_upto_succ lengths len ltac:(lia)) as Hsl.
        pose proof (Htot (Z.of_nat len)) as Htl.
        rewrite decide_False in Htl by done.
        destruct (decide (len < L)%nat).
        -- right. pose proof (codes_upto_mono lengths len (L - 1) ltac:(lia)). lia.
        -- left. pose proof (codes_upto_mono lengths L (len - 1) ltac:(lia)). lia.
Qed.

Lemma place_symbols_inv rest : forall done st,
  Forall (fun l => 0 <= l <= 15) (done ++ rest) ->
  len_of (done ++ rest) <= 288 ->
  place_inv (done ++ rest) done st ->
  place_inv (done ++ rest) (done ++ rest) (place_symbols rest (len_of done) st).
Proof.
  induction rest as [|l rest IH]; intros done st Hall Hn Hinv.
  - cbn. by rewrite app_nil_r in *.
  - cbn [place_symbols].
    assert (Hl : 0 <= l <= 15).
    { rewrite Forall_app, Forall_cons in Hall. tauto. }
    pose proof (place_step (done ++ l :: rest) done l rest st eq_refl Hl Hn Hinv) as Hstep.
    replace (done ++ l :: rest) with ((done ++ [l]) ++ rest) in *
      by (by rewrite <- app_assoc).
    replace (len_of done + 1) with (len_of (done ++ [l]))
      by (rewrite len_of_app; unfold len_of; cbn; lia).
    apply IH; done.
Qed.

Lemma slice_0_add buf a b :
  0 <= a -> 0 <= b -> slice buf 0 (a + b) = slice buf 0 a ++ slice buf a b.
Proof.
  intros Ha Hb. unfold slice. cbn [Z.to_nat drop].
  rewrite Z2Nat.inj_add by lia. by rewrite take_take_drop.
Qed.

Lemma canonical_prefix lengths sym (k : nat) :
  (forall len : nat, (1 <= len <= k)%nat ->
     slice sym (codes_upto lengths (len - 1)) (code_count lengths (Z.of_nat len))
     = symbols_of_length lengths (Z.of_nat len) 0) ->
  slice sym 0 (codes_upto lengths k)
  = flat_map (fun len => symbols_of_length lengths len 0)
      (range_from 1 (Z.of_nat k + 1)).
Proof.
  induction k as [|k IH]; intros Hreg.
  - by rewrite range_from_nil by lia.
  - replace (Z.of_nat (S k) + 1) with (1 + Z.of_nat (S k)) by lia.
    rewrite range_from_snoc, flat_map_app. cbn [flat_map]. rewrite app_nil_r.
    replace (1 + Z.of_nat k) with (Z.of_nat k + 1) by lia.
    rewrite <- IH by (intros len Hr; apply Hreg; lia).
    cbn [codes_upto].
    rewrite slice_0_add by (apply codes_upto_nonneg || apply code_count_nonneg).
    f_equal. specialize (Hreg (S k) ltac:(lia)).
    replace (S k - 1)%nat with k in Hreg by lia.
    rewrite Hreg. f_equal. lia.
Qed.

Lemma canonical_symbols_len lengths :
  len_of (canonical_symbols lengths) = codes_upto lengths 15.
Proof.
  unfold canonical_symbols. change 16 with (Z.of_nat 15 + 1).
  generalize 15%nat. intros k. induction k as [|k IH].
  - by rewrite range_from_nil by lia.
  - replace (Z.of_nat (S k) + 1) with (1 + Z.of_nat (S k)) by lia.
    rewrite range_from_snoc, flat_map_app, len_of_app. cbn [flat_map].
    rewrite app_nil_r, symbols_of_length_len.
    replace (1 + Z.of_nat k) with (Z.of_nat k + 1) by lia.
    rewrite IH. cbn [codes_upto]. do 2 f_equal. lia.
Qed.

Lemma kraft_left_neg_mono lengths (j k : nat) :
  (j <= k)%nat -> kraft_left lengths j < 0 -> kraft_left lengths k < 0.
Proof.
  induction 1 as [|k Hjk IH]; [done|]. intros Hneg. specialize (IH Hneg).
  cbn [kraft_left]. pose proof (code_count_nonneg lengths (Z.of_nat (S k))). lia.
Qed.

Lemma kraft_left_all_zero lengths (k : nat) :
  Forall (fun l => l = 0) lengths -> kraft_left lengths k = 2 ^ Z.of_nat k.
Proof.
  intros Hz. induction k as [|k IH]; [done|].
  cbn [kraft_left]. rewrite IH.
  assert (Hc : code_count lengths (Z.of_nat (S k)) = 0).
  { clear IH. induction Hz as [|l rest Hl Hrest IHz]; [done|].
    rewrite code_count_cons, IHz, decide_False by lia. done. }
  rewrite Hc. replace (Z.of_nat (S k)) with (Z.succ (Z.of_nat k)) by lia.
  rewrite Z.pow_succ_r by lia. lia.
Qed.

(** What [png_huffman_build] returns, by cases. *)
Lemma png_huffman_build_cases lengths :
  Forall is_byte lengths ->
  len_of lengths <= 288 ->
  match png_huffman_build lengths with
  | None =>
    Exists (fun l => 15 < l) lengths
    \/ (Forall (fun l => l <= 15) lengths
        /\ exists len : nat, (1 <= len <= 15)%nat /\ kraft_left lengths len < 0)
  | Some h =>
    Forall (fun l => l <= 15) lengths
    /\ (forall len : nat, (1 <= len <= 15)%nat -> 0 <= kraft_left lengths len)
    /\ (forall len, 0 <= len <= 15 -> byte_at (h_count h) len = code_count lengths len)
    /\ slice (h_symbol h) 0 (len_of (canonical_symbols lengths))
       = canonical_symbols lengths
  end.
Proof.
  intros Hb Hn. unfold png_huffman_build.
  pose proof (tally_lengths_build lengths Hb Hn) as Ht.
  destruct (tally_lengths lengths (repeat 0 16)) as [count|]; [|by left].
  destruct Ht as (Hall & Hlc & Hcnt).
  pose proof (kraft_check_spec lengths count 15 0 Hn Hcnt ltac:(lia) ltac:(cbn; lia)) as Hk.
  change (range_from (Z.of_nat 0 + 1) (Z.of_nat (0 + 15) + 1))
    with (range_from 1 (PNG_MAXBITS + 1)) in Hk.
  change (kraft_left lengths 0) with 1 in Hk.
  destruct (kraft_check (range_from 1 (PNG_MAXBITS + 1)) count 1) as [v|].
  - destruct Hk as (_ & Hpos).
    split; [done|]. split; [intros len Hr; apply Hpos; lia|].
    cbn [h_count h_symbol]. split; [done|].
    pose proof (fill_offsets_spec lengths count 14 0 (set_at (repeat 0 16) 1 0)
                  Hn Hcnt ltac:(lia) eq_refl) as Ho.
    change (range_from (Z.of_nat 0 + 1) (Z.of_nat (0 + 14) + 1))
      with (range_from 1 PNG_MAXBITS) in Ho.
    destruct Ho as (Hlo & Hoffs).
    { intros j Hj. assert (j = 1%nat) as -> by lia. reflexivity. }
    set (offs := fill_offsets (range_from 1 PNG_MAXBITS) count
                   (set_at (repeat 0 16) 1 0)) in *.
    assert (Hrange : Forall (fun l => 0 <= l <= 15) ([] ++ lengths)).
    { cbn [app]. rewrite Forall_forall in *. intros l Hl.
      specialize (Hb l Hl). specialize (Hall l Hl). unfold is_byte in Hb.
      cbn beta in *. lia. }
    pose proof (place_symbols_inv lengths [] (offs, repeat 0 288) Hrange Hn) as Hp.
    cbn [app] in Hp. change (len_of []) with 0 in Hp.
    destruct Hp as (_ & _ & Hreg).
    { split; [done|]. split; [done|]. intros len Hr. cbn [fst snd].
      rewrite code_count_nil, Z.add_0_r. split; [apply Hoffs; lia|].
      reflexivity. }
    rewrite canonical_symbols_len. unfold canonical_symbols.
    apply (canonical_prefix lengths _ 15).
    intros len Hr. apply Hreg. lia.
  - right. split; [done|]. destruct Hk as (j & Hj & Hneg). exists j. split; [lia|done].
Qed.

(** C8.  [png_huffman_build] fails exactly when a code length exceeds 15 or
    the Kraft count goes negative at some length; an incomplete code set
    (count still positive after length 15), and so the all-zero one, is
    accepted; an accepted build holds the number of codes of each length in
    [count] and the symbols of nonzero length in [symbol], grouped by length
    and in increasing symbol order within a length. *)
Theorem png_huffman_build_spec (lengths : list Z) :
  Forall is_byte lengths ->
  len_of lengths <= 288 ->
  (png_huffman_build lengths = None <->
     Exists (fun l => 15 < l) lengths
     \/ exists len : nat, (1 <= len <= 15)%nat /\ kraft_left lengths len < 0)
  /\ (Forall (fun l => l <= 15) lengths -> 0 < kraft_left lengths 15 ->
      is_Some (png_huffman_build lengths))
  /\ (Forall (fun l => l = 0) lengths -> is_Some (png_huffman_build lengths))
  /\ (forall h, png_huffman_build lengths = Some h ->
        (forall len, 0 <= len <= 15 -> byte_at (h_count h) len = code_count lengths len)
        /\ slice (h_symbol h) 0 (len_of (canonical_symbols lengths))
           = canonical_symbols lengths).
Proof.
  intros Hb Hn. pose proof (png_huffman_build_cases lengths Hb Hn) as Hc.
  assert (Hiff : png_huffman_build lengths = None <->
     Exists (fun l => 15 < l) lengths
     \/ exists len : nat, (1 <= len <= 15)%nat /\ kraft_left lengths len < 0).
  { destruct (png_huffman_build lengths) as [h|].
    - destruct Hc as (Hall & Hpos & _). split; [done|]. intros [Hex | (len & Hr & Hneg)].
      + exfalso. rewrite Exists_exists in Hex. destruct Hex as (l & Hl & Hbig).
        rewrite Forall_forall in Hall. specialize (Hall l Hl). cbn beta in Hall. lia.
      + specialize (Hpos len Hr). lia.
    - split; [|done]. intros _. destruct Hc as [Hex | (_ & Hneg)]; [by left | by right]. }
  assert (Hinc : Forall (fun l => l <= 15) lengths -> 0 < kraft_left lengths 15 ->
                 is_Some (png_huffman_build lengths)).
  { intros Hall Hleft. destruct (png_huffman_build lengths) as [h|] eqn:E; [by eexists|].
    exfalso. destruct (proj1 Hiff eq_refl) as [Hex | (len & Hr & Hneg)].
    - rewrite Exists_exists in Hex. destruct Hex as (l & Hl & Hbig).
      rewrite Forall_forall in Hall. specialize (Hall l Hl). cbn beta in Hall. lia.
    - pose proof (kraft_left_neg_mono lengths len 15 ltac:(lia) Hneg). lia. }
  split; [done|]. split; [done|]. split.
  - intros Hz. apply Hinc.
    + eapply Forall_impl; [exact Hz|]. cbn beta. intros; lia.
    + rewrite kraft_left_all_zero by done. cbn. lia.
  - intros h Hh. rewrite Hh in Hc. destruct Hc as (_ & _ & Hcount & Hsym). done.
Qed.

(** ** LZ77 back-references *)

Lemma byte_at_app_l a b i : 0 <= i < len_of a -> byte_at (a ++ b) i = byte_at a i.
Proof. unfold byte_at, len_of. intros Hi. apply app_nth1. lia. Qed.

Lemma byte_at_app_r a b i :
  len_of a <= i -> byte_at (a ++ b) i = byte_at b (i - len_of a).
Proof.
  unfold byte_at, len_of. intros Hi. rewrite app_nth2 by lia. f_equal. lia.
Qed.

Lemma byte_at_prefix buf pre i :
  slice buf 0 (len_of pre) = pre -> 0 <= i < len_of pre ->
  byte_at buf i = byte_at pre i.
Proof.
  unfold slice, len_of, byte_at. cbn [Z.to_nat drop]. rewrite Nat2Z.id.
  intros Hpre Hi. rewrite !nth_lookup. rewrite <- Hpre at 1.
  by rewrite lookup_take_lt by lia.
Qed.

Lemma lz77_copy_spec (n : nat) : forall out d,
  1 <= d <= len_of out ->
  let out' := lz77_copy n out d in
  len_of out' = len_of out + Z.of_nat n
  /\ slice out' 0 (len_of out) = out
  /\ forall i, 0 <= i < Z.of_nat n ->
       byte_at out' (len_of out + i) = byte_at out' (len_of out + i - d).
Proof.
  induction n as [|n IH]; intros out d Hd out'.
  - subst out'. cbn [lz77_copy]. split; [lia|]. split; [|intros; lia].
    unfold slice, len_of. cbn [Z.to_nat drop]. rewrite Nat2Z.id. apply firstn_all.
  - subst out'. cbn [lz77_copy].
    set (b := byte_at out (len_of out - d)).
    destruct (IH (out ++ [b]) d) as (Hlen & Hpre & Hcopy).
    { rewrite len_of_app. unfold len_of at 2. cbn [length]. lia. }
    set (out' := lz77_copy n (out ++ [b]) d) in *.
    rewrite len_of_app in *. change (len_of [b]) with 1 in *.
    assert (Hpre' : slice out' 0 (len_of out) = out).
    { unfold slice, len_of in *. cbn [Z.to_nat drop] in *.
      rewrite Nat2Z.id. replace (Z.to_nat (Z.of_nat (length out) + 1))
        with (S (length out)) in Hpre by lia.
      apply (f_equal (take (length out))) in Hpre.
      rewrite take_take, Nat.min_l in Hpre by lia.
      rewrite Hpre. apply take_app_length. }
    split; [lia|]. split; [done|].
    intros i Hi. destruct (decide (i = 0)) as [->|Hne].
    + rewrite Z.add_0_r.
      assert (Hpb : slice out' 0 (len_of (out ++ [b])) = out ++ [b]).
      { rewrite len_of_app. exact Hpre. }
      rewrite (byte_at_prefix out' (out ++ [b])); [|done|rewrite len_of_app; change (len_of [b]) with 1; pose proof (len_of_nonneg out); lia].
      rewrite (byte_at_prefix out' (out ++ [b])); [|done|rewrite len_of_app; change (len_of [b]) with 1; lia].
      rewrite byte_at_app_r by lia. rewrite Z.sub_diag.
      rewrite byte_at_app_l by lia. reflexivity.
    + specialize (Hcopy (i - 1) ltac:(lia)).
      replace (len_of out + 1 + (i - 1)) with (len_of out + i) in Hcopy by lia.
      exact Hcopy.
Qed.

Lemma to_int_range z : - 2147483648 <= to_int z <= INT_MAX.
Proof.
  unfold to_int, INT_MAX.
  pose proof (Z.mod_pos_bound (z + 2147483648) 4294967296 ltac:(lia)). lia.
Qed.

Lemma lz77_backref_spec out expected_len length distance :
  - 2147483648 <= distance <= INT_MAX ->
  match lz77_backref out expected_len length distance with
  | None => ~ (1 <= distance <= len_of out /\ len_of out + length <= expected_len)
  | Some out' =>
    1 <= distance <= len_of out /\ len_of out + length <= expected_len
    /\ out' = lz77_copy (Z.to_nat length) out distance
  end.
Proof.
  intros Hd. unfold lz77_backref, INT_MAX in *.
  destruct (distance <=? 0) eqn:E1; cbn [orb].
  { apply Z.leb_le in E1. lia. }
  apply Z.leb_gt in E1. rewrite to_size_t_small by lia.
  destruct (len_of out <? distance) eqn:E2.
  { apply Z.ltb_lt in E2. lia. }
  apply Z.ltb_ge in E2.
  destruct (expected_len <? len_of out + length) eqn:E3.
  { apply Z.ltb_lt in E3. lia. }
  apply Z.ltb_ge in E3. split; [lia|]. split; [lia|done].
Qed.

Lemma table_at_range (table : list Z) lo hi i :
  Forall (fun v => lo <= v <= hi) table -> lo <= 0 <= hi ->
  lo <= byte_at table i <= hi.
Proof.
  intros Ht H0. unfold byte_at.
  destruct (nth_in_or_default (Z.to_nat i) table 0) as [Hin | ->]; [|done].
  rewrite Forall_forall in Ht. apply Ht. by apply list_elem_of_In.
Qed.

Lemma decode_backref_int_range bs1 dist sym length distance bs4 :
  decode_backref bs1 dist sym = Some (length, distance, bs4) ->
  - 2147483648 <= distance <= INT_MAX.
Proof.
  unfold decode_backref. intros H.
  assert (Hbase : forall i, - 2147483648 <= byte_at dist_base i <= INT_MAX).
  { intros i. apply table_at_range; [|unfold INT_MAX; lia].
    unfold dist_base, INT_MAX. repeat constructor; lia. }
  repeat case_match; simplify_eq; first [apply Hbase | apply to_int_range].
Qed.

(** C6.  In the symbol loop, a decoded back-reference fails the decode
    unless [1 <= distance <= bytes written] and
    [bytes written + length <= expected_len]; otherwise the loop goes on with
    [length] more bytes, each the byte [distance] places before it in the
    output as it stands after the copy, so that a copy longer than its
    distance repeats the bytes it has just written.  [AB] followed by a
    back-reference of length 5 and distance 2 gives [ABABABA], also through
    the stored-then-fixed zlib stream of the specification. *)
Theorem inflate_backref_step
    (fuel : nat) (bs bs1 bs4 : png_bitstream) (litlen dist : png_huffman)
    (expected_len : Z) (out : list Z) (sym length distance : Z) :
  png_huffman_decode bs litlen = Some (sym, bs1) ->
  257 <= sym <= 285 ->
  decode_backref bs1 dist sym = Some (length, distance, bs4) ->
  (~ (1 <= distance <= len_of out /\ len_of out + length <= expected_len) ->
     inflate_symbols (S fuel) bs litlen dist expected_len out = None)
  /\ (1 <= distance <= len_of out -> len_of out + length <= expected_len ->
      exists out',
        inflate_symbols (S fuel) bs litlen dist expected_len out
        = inflate_symbols fuel bs4 litlen dist expected_len out'
        /\ len_of out' = len_of out + Z.max 0 length
        /\ slice out' 0 (len_of out) = out
        /\ forall i, 0 <= i < length ->
             byte_at out' (len_of out + i) = byte_at out' (len_of out + i - distance))
  /\ lz77_backref [65; 66] 7 5 2 = Some [65; 66; 65; 66; 65; 66; 65]
  /\ png_inflate_zlib
       [120; 1; 0; 2; 0; 253; 255; 65; 66; 3; 67; 0; 7; 47; 1; 203] 7
     = Some [65; 66; 65; 66; 65; 66; 65].
Proof.
  intros Hsym Hrange Hdec.
  pose proof (decode_backref_int_range _ _ _ _ _ _ Hdec) as Hint.
  pose proof (lz77_backref_spec out expected_len length distance Hint) as Hb.
  assert (Hstep : inflate_symbols (S fuel) bs litlen dist expected_len out
                  = match lz77_backref out expected_len length distance with
                    | None => None
                    | Some out' => inflate_symbols fuel bs4 litlen dist expected_len out'
                    end).
  { cbn [inflate_symbols]. rewrite Hsym.
    replace (sym <? 256) with false by (symmetry; apply Z.ltb_ge; lia).
    replace (sym =? 256) with false by (symmetry; apply Z.eqb_neq; lia).
    replace (sym <=? 285) with true by (symmetry; apply Z.leb_le; lia).
    by rewrite Hdec. }
  rewrite Hstep. split; [|split; [|split]].
  - intros Hbad. destruct (lz77_backref out expected_len length distance); [|done].
    destruct Hb as (H1 & H2 & _). tauto.
  - intros Hd Hl. destruct (lz77_backref out expected_len length distance) as [out'|];
      [|tauto].
    destruct Hb as (_ & _ & ->).
    destruct (lz77_copy_spec (Z.to_nat length) out distance Hd) as (Hlen & Hpre & Hcopy).
    eexists. split; [reflexivity|]. split; [lia|]. split; [done|].
    intros i Hi. apply Hcopy. lia.
  - reflexivity.
  - vm_compute. reflexivity.
Qed.

(** ** Bytes and words *)

Lemma lor_shiftl_add a b k :
  0 <= k -> 0 <= a < 2 ^ k -> Z.lor a (Z.shiftl b k) = a + b * 2 ^ k.
Proof.
  intros Hk Ha. rewrite Z.shiftl_mul_pow2 by done.
  destruct (decide (a = 0)) as [->|Hne]; [by rewrite Z.lor_0_l|].
  assert (Hland : Z.land a (b * 2 ^ k) = 0).
  { apply Z.bits_inj'; intros n Hn. rewrite Z.land_spec, Z.bits_0.
    destruct (decide (n < k)).
    - rewrite Z.mul_pow2_bits_low by lia. apply andb_false_r.
    - rewrite (Z.bits_above_log2 a n); [done | lia |].
      apply Z.lt_le_trans with k; [|lia]. apply Z.log2_lt_pow2; lia. }
  rewrite <- Z.lxor_lor by done. symmetry. by apply Z.add_nocarry_lxor.
Qed.

Lemma lor_mul_add x y k :
  0 <= k -> 0 <= y < 2 ^ k -> Z.lor (x * 2 ^ k) y = x * 2 ^ k + y.
Proof.
  intros Hk Hy. rewrite Z.lor_comm, <- Z.shiftl_mul_pow2 by done.
  rewrite lor_shiftl_add by done. rewrite Z.shiftl_mul_pow2 by done. lia.
Qed.

Lemma land_255 x : Z.land x 0xff = x mod 256.
Proof. change 0xff with (Z.ones 8). by rewrite Z.land_ones. Qed.

Lemma shiftr_div x k : 0 <= k -> Z.shiftr x k = x / 2 ^ k.
Proof. apply Z.shiftr_div_pow2. Qed.

Lemma be32_bytes_length v : length (be32_bytes v) = 4%nat.
Proof. reflexivity. Qed.

Lemma be32_bytes_is_byte v : Forall is_byte (be32_bytes v).
Proof.
  unfold be32_bytes, is_byte. rewrite !land_255.
  repeat constructor; apply Z.mod_pos_bound; lia.
Qed.

(** Four bytes in big-endian order make the word they were cut from. *)
Lemma be32_combine b0 b1 b2 b3 :
  is_byte b0 -> is_byte b1 -> is_byte b2 -> is_byte b3 ->
  Z.lor (Z.lor (Z.lor (to_u32 (Z.shiftl b0 24)) (to_u32 (Z.shiftl b1 16)))
               (to_u32 (Z.shiftl b2 8))) b3
  = b0 * 16777216 + b1 * 65536 + b2 * 256 + b3.
Proof.
  unfold is_byte. intros H0 H1 H2 H3.
  rewrite !Z.shiftl_mul_pow2 by lia.
  rewrite !to_u32_small by lia.
  rewrite (lor_mul_add b0 (b1 * 2 ^ 16) 24) by lia.
  replace (b0 * 2 ^ 24 + b1 * 2 ^ 16) with ((b0 * 2 ^ 8 + b1) * 2 ^ 16) by lia.
  rewrite (lor_mul_add _ (b2 * 2 ^ 8) 16) by lia.
  replace ((b0 * 2 ^ 8 + b1) * 2 ^ 16 + b2 * 2 ^ 8)
    with (((b0 * 2 ^ 8 + b1) * 2 ^ 8 + b2) * 2 ^ 8) by lia.
  rewrite (lor_mul_add _ b3 8) by lia. lia.
Qed.

Lemma png_read_be32_mem_bytes v :
  0 <= v < 4294967296 -> png_read_be32_mem (be32_bytes v) 0 = v.
Proof.
  intros Hv. unfold png_read_be32_mem, be32_bytes.
  cbv [byte_at nth Z.to_nat Z.add Pos.to_nat Pos.iter_op Nat.add Pos.add Pos.succ].
  rewrite be32_combine; rewrite ?land_255, ?shiftr_div by lia;
    try (apply Z.mod_pos_bound; lia).
  change (2 ^ 24) with 16777216. change (2 ^ 16) with 65536. change (2 ^ 8) with 256.
  Z.div_mod_to_equations. lia.
Qed.

(** Reading a word is local: it depends on the four bytes at the offset. *)
Lemma png_read_be32_mem_app pre b post off :
  0 <= off -> off + 4 <= len_of b ->
  png_read_be32_mem (pre ++ b ++ post) (len_of pre + off) = png_read_be32_mem b off.
Proof.
  intros Ho Hb. unfold png_read_be32_mem.
  assert (E : forall k, 0 <= k < 4 ->
            byte_at (pre ++ b ++ post) (len_of pre + off + k) = byte_at b (off + k)).
  { intros k Hk. rewrite byte_at_app_r by lia. rewrite byte_at_app_l by lia.
    f_equal. lia. }
  rewrite <- (Z.add_0_r (len_of pre + off)) at 1.
  rewrite !E by lia. by rewrite Z.add_0_r.
Qed.

(** ** The chunk loop as a fold over chunks *)

Lemma slice_middle (a b c : list Z) :
  slice (a ++ b ++ c) (len_of a) (len_of b) = b.
Proof.
  unfold slice, len_of. rewrite !Nat2Z.id.
  rewrite drop_app_length. apply take_app_length.
Qed.

Lemma slice_middle' (a b c : list Z) off n :
  off = len_of a -> n = len_of b -> slice (a ++ b ++ c) off n = b.
Proof. intros -> ->. apply slice_middle. Qed.

Lemma byte_at_middle (a b c : list Z) i :
  0 <= i < len_of b -> byte_at (a ++ b ++ c) (len_of a + i) = byte_at b i.
Proof.
  intros Hi. pose proof (len_of_nonneg a).
  rewrite byte_at_app_r by lia. rewrite byte_at_app_l by lia. f_equal. lia.
Qed.

Lemma chunk_bytes_len k :
  chunk_wf k -> len_of (chunk_bytes k) = 12 + len_of (ck_payload k).
Proof.
  intros (Ht & Hc & _). unfold chunk_bytes. rewrite !len_of_app.
  unfold len_of in *. rewrite be32_bytes_length. lia.
Qed.

Lemma read_chunks_tail fuel pre tail st :
  overruns tail -> read_chunks fuel (pre ++ tail) (len_of pre) st = Done st.
Proof.
  intros Hov. destruct fuel as [|fuel]; [done|]. cbn [read_chunks].
  rewrite len_of_app. pose proof (len_of_nonneg tail).
  destruct (len_of pre + 8 <=? len_of pre + len_of tail) eqn:E; cbn [negb]; [|done].
  apply Z.leb_le in E. destruct Hov as [Hov|Hov]; [lia|].
  assert (Hr : png_read_be32_mem (pre ++ tail) (len_of pre) = png_read_be32_mem tail 0).
  { pose proof (png_read_be32_mem_app pre tail [] 0 ltac:(lia) ltac:(lia)) as H1.
    by rewrite app_nil_r, Z.add_0_r in H1. }
  rewrite Hr.
  destruct (len_of pre + len_of tail <? len_of pre + 8 + png_read_be32_mem tail 0 + 4) eqn:E2;
    [done|]. apply Z.ltb_ge in E2. lia.
Qed.

Lemma read_chunks_collect cks : forall fuel pre tail st,
  Forall chunk_wf cks ->
  overruns tail ->
  (length cks <= fuel)%nat ->
  read_chunks fuel (pre ++ flat_map chunk_bytes cks ++ tail) (len_of pre) st
  = collect cks st.
Proof.
  induction cks as [|k rest IH]; intros fuel pre tail st Hwf Hov Hfuel.
  - cbn [flat_map app collect]. by apply read_chunks_tail.
  - destruct fuel as [|fuel]; [cbn in Hfuel; lia|].
    apply Forall_cons in Hwf. destruct Hwf as (Hk & Hrest).
    pose proof Hk as (Ht & Hc & Hp).
    pose proof (len_of_nonneg (ck_payload k)) as Hp0.
    cbn [flat_map]. set (more := flat_map chunk_bytes rest ++ tail).
    set (L := len_of (ck_payload k)) in *.
    assert (Hbuf : pre ++ (chunk_bytes k ++ flat_map chunk_bytes rest) ++ tail
                   = pre ++ chunk_bytes k ++ more).
    { subst more. by rewrite <- app_assoc. }
    rewrite Hbuf. clear Hbuf.
    set (buf := pre ++ chunk_bytes k ++ more).
    assert (Hlen : len_of buf = len_of pre + 12 + L + len_of more).
    { subst buf. rewrite !len_of_app, chunk_bytes_len by done. lia. }
    pose proof (len_of_nonneg more) as Hm0. pose proof (len_of_nonneg pre) as Hpre0.
    assert (Hcl : png_read_be32_mem buf (len_of pre) = L).
    { subst buf. unfold chunk_bytes. rewrite <- !app_assoc.
      pose proof (png_read_be32_mem_app pre (be32_bytes L)
                    (ck_type k ++ ck_payload k ++ ck_crc k ++ more) 0
                    ltac:(lia) ltac:(unfold len_of; cbn; lia)) as H1.
      rewrite Z.add_0_r in H1. fold L. rewrite H1.
      apply png_read_be32_mem_bytes. lia. }
    assert (Hty : slice buf (len_of pre + 4) 4 = ck_type k).
    { subst buf. unfold chunk_bytes. rewrite <- !app_assoc.
      rewrite (app_assoc pre). apply slice_middle'.
      - rewrite len_of_app. unfold len_of. rewrite be32_bytes_length. lia.
      - unfold len_of. lia. }
    assert (Hsplit : buf = (pre ++ be32_bytes L ++ ck_type k) ++ ck_payload k
                           ++ (ck_crc k ++ more)).
    { subst buf. unfold chunk_bytes. fold L. by rewrite <- !app_assoc. }
    assert (Hhead : len_of (pre ++ be32_bytes L ++ ck_type k) = len_of pre + 8).
    { rewrite !len_of_app. unfold len_of. rewrite be32_bytes_length. lia. }
    assert (Hnext : buf = (pre ++ chunk_bytes k) ++ flat_map chunk_bytes rest ++ tail).
    { subst buf more. by rewrite <- app_assoc. }
    assert (Hnpos : len_of pre + 8 + L + 4 = len_of (pre ++ chunk_bytes k)).
    { rewrite len_of_app, chunk_bytes_len by done. fold L. lia. }
    cbn [read_chunks]. rewrite Hcl, Hty.
    replace (len_of pre + 8 <=? len_of buf) with true
      by (symmetry; apply Z.leb_le; lia).
    replace (len_of buf <? len_of pre + 8 + L + 4) with false
      by (symmetry; apply Z.ltb_ge; lia).
    cbn [negb collect]. fold L. rewrite Hnpos.
    assert (Hrec : forall st', read_chunks fuel buf (len_of (pre ++ chunk_bytes k)) st'
                     = collect rest st').
    { intros st'. rewrite Hnext. apply IH; [done | done | cbn in Hfuel; lia]. }
    destruct (bool_decide (ck_type k = type_IHDR)).
    { destruct (L <? 13) eqn:E13; [done|]. apply Z.ltb_ge in E13.
      rewrite Hrec. f_equal. f_equal.
      - f_equal. rewrite Hsplit, <- Hhead.
        rewrite <- (Z.add_0_r (len_of _)). apply png_read_be32_mem_app; lia.
      - f_equal. rewrite Hsplit, <- Hhead. apply png_read_be32_mem_app; lia.
      - rewrite Hsplit, <- Hhead. apply byte_at_middle. fold L. lia. }
    destruct (bool_decide (ck_type k = type_IDAT)).
    { fold L. destruct (negb (malloc_ok (len_of (default [] (cs_idat st)) + L))); [done|].
      rewrite Hrec. rewrite Hsplit at 1.
      by rewrite (slice_middle' _ (ck_payload k) _ (len_of pre + 8) L)
        by (done || by rewrite Hhead). }
    destruct (bool_decide (ck_type k = type_IEND)); [done|].
    apply Hrec.
Qed.

(** ** The bit reader on byte-aligned input *)

Lemma fill_loop_stop fuel bs n :
  n <= bitcount bs \/ len_of (bs_data bs) <= bytepos bs ->
  fill_loop fuel bs n = bs.
Proof.
  intros Hstop. destruct fuel as [|fuel]; [done|]. cbn [fill_loop].
  destruct (bitcount bs <? n) eqn:E1; [|done].
  destruct (bytepos bs <? len_of (bs_data bs)) eqn:E2; [|done].
  apply Z.ltb_lt in E1, E2. lia.
Qed.

Lemma fill_loop_step fuel bs n :
  bitcount bs < n -> bytepos bs < len_of (bs_data bs) ->
  fill_loop (S fuel) bs n
  = fill_loop fuel
      {| bs_data := bs_data bs;
         bytepos := bytepos bs + 1;
         bitbuf := Z.lor (bitbuf bs)
                     (to_u32 (Z.shiftl (byte_at (bs_data bs) (bytepos bs))
                                       (bitcount bs)));
         bitcount := bitcount bs + 8 |} n.
Proof.
  intros H1 H2. cbn [fill_loop].
  replace (bitcount bs <? n) with true by (symmetry; apply Z.ltb_lt; lia).
  replace (bytepos bs <? len_of (bs_data bs)) with true
    by (symmetry; apply Z.ltb_lt; lia).
  reflexivity.
Qed.

Lemma shiftl_1 n : 0 <= n -> Z.shiftl 1 n = 2 ^ n.
Proof. intros Hn. rewrite Z.shiftl_mul_pow2 by done. lia. Qed.

Lemma land_mask x n :
  0 <= n < 32 -> Z.land x (to_u32 (to_u32 (Z.shiftl 1 n) - 1)) = x mod 2 ^ n.
Proof.
  intros Hn. rewrite shiftl_1 by lia.
  assert (1 <= 2 ^ n < 4294967296).
  { pose proof (Z.pow_le_mono_r 2 0 n ltac:(lia) ltac:(lia)) as H0.
    pose proof (Z.pow_lt_mono_r 2 n 32 ltac:(lia) ltac:(lia) ltac:(lia)) as H1.
    change (2 ^ 0) with 1 in H0. change (2 ^ 32) with 4294967296 in H1. lia. }
  rewrite (to_u32_small (2 ^ n)) by lia. rewrite to_u32_small by lia.
  replace (2 ^ n - 1) with (Z.ones n) by (rewrite Z.ones_equiv; lia).
  apply Z.land_ones. lia.
Qed.

(** Reading at most eight bits when the register is empty takes one byte. *)
Lemma get_from_aligned buf p n :
  0 <= p < len_of buf -> is_byte (byte_at buf p) -> 1 <= n <= 8 ->
  png_bitstream_get (aligned_at buf p) n
  = Some (byte_at buf p mod 2 ^ n,
          {| bs_data := buf; bytepos := p + 1;
             bitbuf := byte_at buf p / 2 ^ n; bitcount := 8 - n |}).
Proof.
  intros Hp Hb Hn. unfold png_bitstream_get, png_bitstream_fill.
  replace (n =? 0) with false by (symmetry; apply Z.eqb_neq; lia).
  destruct (Z.to_nat n) as [|m] eqn:E; [lia|].
  cbn [fill_loop aligned_at bs_data bytepos bitbuf bitcount].
  replace (0 <? n) with true by (symmetry; apply Z.ltb_lt; lia).
  replace (p <? len_of buf) with true by (symmetry; apply Z.ltb_lt; lia).
  cbn [andb]. rewrite fill_loop_stop by (cbn; lia).
  cbn [bs_data bytepos bitbuf bitcount].
  replace (n <=? 0 + 8) with true by (symmetry; apply Z.leb_le; lia).
  unfold is_byte in Hb.
  rewrite Z.shiftl_0_r, to_u32_small, Z.lor_0_l by lia.
  rewrite land_mask by lia. rewrite shiftr_div by lia.
  reflexivity.
Qed.

(** Reading bits that are already in the register. *)
Lemma get_buffered bs n :
  1 <= n <= bitcount bs -> n < 32 ->
  png_bitstream_get bs n
  = Some (bitbuf bs mod 2 ^ n,
          {| bs_data := bs_data bs; bytepos := bytepos bs;
             bitbuf := bitbuf bs / 2 ^ n; bitcount := bitcount bs - n |}).
Proof.
  intros Hn Hn32. unfold png_bitstream_get, png_bitstream_fill.
  replace (n =? 0) with false by (symmetry; apply Z.eqb_neq; lia).
  rewrite fill_loop_stop by lia.
  replace (n <=? bitcount bs) with true by (symmetry; apply Z.leb_le; lia).
  rewrite land_mask by lia. rewrite shiftr_div by lia. reflexivity.
Qed.

(** Reading sixteen bits when the register is empty takes two bytes, low
    byte first. *)
Lemma get16_from_aligned buf p :
  0 <= p -> p + 2 <= len_of buf ->
  is_byte (byte_at buf p) -> is_byte (byte_at buf (p + 1)) ->
  png_bitstream_get (aligned_at buf p) 16
  = Some (byte_at buf p + byte_at buf (p + 1) * 256, aligned_at buf (p + 2)).
Proof.
  intros Hp Hlen Hb0 Hb1. unfold png_bitstream_get, png_bitstream_fill.
  change (16 =? 0) with false. change (Z.to_nat 16) with (S (S 14)).
  rewrite fill_loop_step by (cbn; lia).
  cbn [aligned_at bs_data bytepos bitbuf bitcount].
  rewrite fill_loop_step by (cbn; lia).
  cbn [bs_data bytepos bitbuf bitcount].
  rewrite fill_loop_stop by (cbn; lia).
  cbn [bs_data bytepos bitbuf bitcount].
  change (16 <=? 0 + 8 + 8) with true. change (0 + 8) with 8.
  unfold is_byte in *.
  rewrite Z.shiftl_0_r, (to_u32_small (byte_at buf p)), Z.lor_0_l by lia.
  rewrite Z.shiftl_mul_pow2 by lia.
  rewrite to_u32_small by lia.
  rewrite Z.lor_comm, lor_mul_add by lia.
  rewrite land_mask by lia. rewrite shiftr_div by lia.
  change (2 ^ 16) with 65536. change (2 ^ 8) with 256.
  rewrite Z.mod_small by lia. rewrite Z.div_small by lia.
  unfold aligned_at. f_equal. f_equal; [lia|]. f_equal; lia.
Qed.

(** ** Inflating what [png_deflate_store] wrote *)

Lemma lxor_ffff x : 0 <= x < 65536 -> Z.lxor x 0xffff = 65535 - x.
Proof.
  intros Hx.
  assert (Hland : Z.land x (65535 - x) = 0).
  { replace (65535 - x) with (Z.land (Z.lnot x) (Z.ones 16)).
    - rewrite Z.land_assoc, Z.land_lnot_diag. apply Z.land_0_l.
    - rewrite Z.land_ones by lia. unfold Z.lnot. change (2 ^ 16) with 65536.
      Z.div_mod_to_equations. lia. }
  pose proof (Z.add_nocarry_lxor x (65535 - x) Hland) as Hadd.
  replace (x + (65535 - x)) with 65535 in Hadd by lia.
  change 0xffff with 65535. rewrite Hadd at 1.
  by rewrite <- Z.lxor_assoc, Z.lxor_nilpotent, Z.lxor_0_l.
Qed.

Lemma stored_block_step fuel sf pre fin bl payload post e out :
  fin = 0 \/ fin = 1 ->
  0 <= bl <= 65535 ->
  len_of payload = bl ->
  len_of out + bl <= e ->
  let buf := pre ++ stored_header fin bl ++ payload ++ post in
  inflate_blocks (S fuel) sf (aligned_at buf (len_of pre)) e out
  = if fin =? 0
    then inflate_blocks fuel sf (aligned_at buf (len_of pre + 5 + bl)) e
           (out ++ payload)
    else Some (out ++ payload).
Proof.
  intros Hfin Hbl Hpl Hfit buf.
  set (p := len_of pre). pose proof (len_of_nonneg pre) as Hp0. fold p in Hp0.
  assert (Hlen : len_of buf = p + 5 + bl + len_of post).
  { subst buf p. rewrite !len_of_app. unfold stored_header, len_of in *. cbn [length]. lia. }
  pose proof (len_of_nonneg post) as Hpost0.
  assert (Hhdr : forall i, 0 <= i < 5 ->
            byte_at buf (p + i) = byte_at (stored_header fin bl) i).
  { intros i Hi. subst buf p. apply byte_at_middle. unfold len_of. cbn. lia. }
  assert (H0 : byte_at buf p = fin).
  { rewrite <- (Z.add_0_r p), Hhdr by lia. reflexivity. }
  assert (H1 : byte_at buf (p + 1) = bl mod 256).
  { rewrite Hhdr by lia. unfold stored_header. cbn. apply land_255. }
  assert (H2 : byte_at buf (p + 1 + 1) = (bl / 256) mod 256).
  { replace (p + 1 + 1) with (p + 2) by lia. rewrite Hhdr by lia.
    unfold stored_header, byte_at. change (Z.to_nat 2) with 2%nat. cbn [nth].
    by rewrite land_255, shiftr_div by lia. }
  set (nl := to_size_t (Z.lnot bl)).
  assert (Hnl : nl = 18446744073709551615 - bl).
  { subst nl. unfold to_size_t, Z.lnot. Z.div_mod_to_equations. lia. }
  assert (H3 : byte_at buf (p + 1 + 2) = nl mod 256).
  { replace (p + 1 + 2) with (p + 3) by lia. rewrite Hhdr by lia.
    unfold stored_header, byte_at. change (Z.to_nat 3) with 3%nat. cbn [nth].
    apply land_255. }
  assert (H4 : byte_at buf (p + 1 + 2 + 1) = (nl / 256) mod 256).
  { replace (p + 1 + 2 + 1) with (p + 4) by lia. rewrite Hhdr by lia.
    unfold stored_header, byte_at. change (Z.to_nat 4) with 4%nat. cbn [nth].
    by rewrite land_255, shiftr_div by lia. }
  cbn [inflate_blocks].
  rewrite (get_from_aligned buf p 1) by (rewrite ?H0; unfold is_byte; lia).
  rewrite H0.
  assert (Hfm : fin mod 2 ^ 1 = fin) by (destruct Hfin as [-> | ->]; reflexivity).
  assert (Hfd : fin / 2 ^ 1 = 0) by (destruct Hfin as [-> | ->]; reflexivity).
  rewrite Hfm, Hfd.
  rewrite get_buffered by (cbn; lia). cbn [bs_data bytepos bitbuf bitcount].
  change (0 mod 2 ^ 2 =? 0) with true. cbv iota.
  unfold png_bitstream_align. cbn [bs_data bytepos bitbuf bitcount].
  change (Z.land (8 - 1 - 2) 7) with 5. change (5 =? 0) with false. cbv iota.
  rewrite get_buffered by (cbn; lia). cbn [bs_data bytepos bitbuf bitcount].
  change (0 / 2 ^ 2 / 2 ^ 5) with 0. change (8 - 1 - 2 - 5) with 0.
  fold (aligned_at buf (p + 1)).
  rewrite get16_from_aligned
    by (rewrite ?H1, ?H2; unfold is_byte; try apply Z.mod_pos_bound; lia).
  rewrite get16_from_aligned
    by (rewrite ?H3, ?H4; unfold is_byte; try apply Z.mod_pos_bound; lia).
  rewrite H1, H2, H3, H4.
  assert (Hsl : bl mod 256 + bl / 256 mod 256 * 256 = bl)
    by (Z.div_mod_to_equations; lia).
  assert (Hsn : nl mod 256 + nl / 256 mod 256 * 256 = 65535 - bl)
    by (rewrite Hnl; Z.div_mod_to_equations; lia).
  rewrite Hsl, Hsn, lxor_ffff by lia.
  rewrite Z.eqb_refl. cbn [negb].
  replace (e <? len_of out + bl) with false by (symmetry; apply Z.ltb_ge; lia).
  unfold png_bitstream_read_bytes. cbn [aligned_at bs_data bytepos bitbuf bitcount].
  change (0 =? 0) with true. cbv iota.
  replace (len_of buf <? p + 1 + 2 + 2 + bl) with false
    by (symmetry; apply Z.ltb_ge; lia).
  assert (Hpay : slice buf (p + 1 + 2 + 2) bl = payload).
  { subst buf. rewrite (app_assoc pre). apply slice_middle'; [|done].
    rewrite len_of_app. unfold len_of, stored_header. cbn [length]. fold (len_of pre). lia. }
  rewrite Hpay.
  replace (p + 1 + 2 + 2 + bl) with (p + 5 + bl) by lia.
  destruct Hfin as [-> | ->]; reflexivity.
Qed.

Lemma store_blocks_nil fs : store_blocks fs [] = [].
Proof. by destruct fs. Qed.

Lemma slice_all (buf : list Z) : slice buf 0 (len_of buf) = buf.
Proof. unfold slice, len_of. rewrite Nat2Z.id. apply firstn_all. Qed.

Lemma slice_0 (buf : list Z) n : slice buf 0 n = take (Z.to_nat n) buf.
Proof. reflexivity. Qed.

Lemma len_of_slice (buf : list Z) off n :
  0 <= off -> 0 <= n -> off + n <= len_of buf -> len_of (slice buf off n) = n.
Proof.
  intros Ho Hn Hin. unfold slice, len_of in *.
  rewrite length_take, length_drop. lia.
Qed.

Lemma store_blocks_unfold fs src :
  0 < len_of src ->
  store_blocks (S fs) src
  = let bl := if max_block <? len_of src then max_block else len_of src in
    stored_header (if len_of src <=? max_block then 1 else 0) bl
      ++ slice src 0 bl ++ store_blocks fs (drop (Z.to_nat bl) src).
Proof.
  intros Hpos. cbn [store_blocks].
  replace (0 <? len_of src) with true by (symmetry; apply Z.ltb_lt; lia).
  reflexivity.
Qed.

Lemma inflate_store_blocks fs : forall src pre out fuel sf e,
  0 < len_of src ->
  (length src <= fs)%nat ->
  (length src <= fuel)%nat ->
  len_of out + len_of src <= e ->
  inflate_blocks fuel sf (aligned_at (pre ++ store_blocks fs src) (len_of pre)) e out
  = Some (out ++ src).
Proof.
  induction fs as [|fs IH]; intros src pre out fuel sf e Hpos Hfs Hfuel Hfit.
  { unfold len_of in Hpos. lia. }
  destruct fuel as [|fuel]; [unfold len_of in Hpos; lia|].
  rewrite store_blocks_unfold by done. cbv zeta. unfold max_block.
  destruct (65535 <? len_of src) eqn:E.
  - apply Z.ltb_lt in E.
    replace (len_of src <=? 65535) with false by (symmetry; apply Z.leb_gt; lia).
    assert (Hpl : len_of (slice src 0 65535) = 65535) by (apply len_of_slice; lia).
    rewrite (stored_block_step fuel sf pre 0 65535 (slice src 0 65535)) by (done || lia).
    change (0 =? 0) with true. cbv iota.
    set (src' := drop (Z.to_nat 65535) src).
    assert (Hsrc : src = slice src 0 65535 ++ src').
    { rewrite slice_0. subst src'. by rewrite take_drop. }
    assert (Hlen' : len_of src = 65535 + len_of src').
    { rewrite Hsrc at 1. rewrite len_of_app. lia. }
    rewrite (app_assoc (stored_header 0 65535)), (app_assoc pre).
    replace (len_of pre + 5 + 65535)
      with (len_of (pre ++ stored_header 0 65535 ++ slice src 0 65535))
      by (rewrite !len_of_app, Hpl; unfold len_of, stored_header; cbn [length]; lia).
    rewrite IH; [| lia | unfold len_of in *; lia | unfold len_of in *; lia
                 | rewrite len_of_app; lia].
    rewrite <- app_assoc. f_equal. f_equal. by symmetry.
  - apply Z.ltb_ge in E.
    replace (len_of src <=? 65535) with true by (symmetry; apply Z.leb_le; lia).
    rewrite slice_all.
    replace (drop (Z.to_nat (len_of src)) src) with (@nil Z)
      by (unfold len_of; rewrite Nat2Z.id; symmetry; apply drop_all).
    rewrite store_blocks_nil.
    rewrite (stored_block_step fuel sf pre 1 (len_of src) src []) by (done || lia).
    reflexivity.
Qed.

Lemma store_blocks_len fs : forall src,
  (length src <= fs)%nat ->
  len_of (store_blocks fs src) = len_of src + 5 * ((len_of src + 65534) / 65535).
Proof.
  induction fs as [|fs IH]; intros src Hfs.
  { destruct src; [reflexivity | cbn in Hfs; lia]. }
  destruct (decide (0 < len_of src)) as [Hpos|Hz].
  - rewrite store_blocks_unfold by done. cbv zeta. unfold max_block.
    rewrite !len_of_app. change (len_of (stored_header _ _)) with 5.
    destruct (65535 <? len_of src) eqn:E.
    + apply Z.ltb_lt in E.
      assert (Hpl : len_of (slice src 0 65535) = 65535) by (apply len_of_slice; lia).
      assert (Hd : len_of (drop (Z.to_nat 65535) src) = len_of src - 65535).
      { unfold len_of in *. rewrite length_drop. lia. }
      rewrite Hpl, IH, Hd by (unfold len_of in *; lia).
      Z.div_mod_to_equations. lia.
    + apply Z.ltb_ge in E. rewrite slice_all.
      replace (drop (Z.to_nat (len_of src)) src) with (@nil Z)
        by (unfold len_of; rewrite Nat2Z.id; symmetry; apply drop_all).
      rewrite store_blocks_nil. change (len_of []) with 0.
      Z.div_mod_to_equations. lia.
  - assert (src = []) as -> by (destruct src; [done | unfold len_of in Hz; cbn in Hz; lia]).
    rewrite store_blocks_nil. reflexivity.
Qed.

Lemma adler_step_range ab d :
  0 <= fst (adler_step ab d) < 65521 /\ 0 <= snd (adler_step ab d) < 65521.
Proof. unfold adler_step. cbn [fst snd]. split; apply Z.mod_pos_bound; lia. Qed.

Lemma adler_fold_range buf ab :
  0 <= fst ab < 65521 /\ 0 <= snd ab < 65521 ->
  0 <= fst (fold_left adler_step buf ab) < 65521
  /\ 0 <= snd (fold_left adler_step buf ab) < 65521.
Proof.
  revert ab. induction buf as [|d buf IH]; intros ab Hab; [done|].
  cbn [fold_left]. apply IH. apply adler_step_range.
Qed.

Lemma png_adler32_range buf : 0 <= png_adler32 buf < 4294967296.
Proof.
  unfold png_adler32.
  destruct (adler_fold_range buf (1, 0)) as (Ha & Hb); [cbn; lia|].
  set (ab := fold_left adler_step buf (1, 0)) in *.
  rewrite Z.shiftl_mul_pow2 by lia. rewrite to_u32_small by lia.
  rewrite lor_mul_add by lia. lia.
Qed.

Lemma inflate_zlib_store raw :
  0 < len_of raw <= PTRDIFF_MAX ->
  png_inflate_zlib (zlib_store raw) (len_of raw) = Some raw.
Proof.
  intros Hlen. unfold png_inflate_zlib, zlib_store, PTRDIFF_MAX in *.
  set (blocks := store_blocks (length raw) raw).
  set (trailer := be32_bytes (png_adler32 raw)).
  pose proof (store_blocks_len (length raw) raw (Nat.le_refl _)) as Hbl.
  fold blocks in Hbl.
  assert (Hge : len_of raw <= len_of blocks).
  { rewrite Hbl. Z.div_mod_to_equations. lia. }
  set (buf := [120; 1] ++ blocks ++ trailer).
  assert (Hbuf : len_of buf = 2 + len_of blocks + 4).
  { subst buf. rewrite !len_of_app. change (len_of [120; 1]) with 2.
    change (len_of trailer) with 4. lia. }
  rewrite Hbuf.
  replace (2 + len_of blocks + 4 <? 6) with false by (symmetry; apply Z.ltb_ge; lia).
  change (byte_at buf 0) with 120. change (byte_at buf 1) with 1.
  change (negb (Z.land 120 15 =? 8)) with false.
  change (negb ((Z.shiftl 120 8 + 1) mod 31 =? 0)) with false.
  change (negb (Z.land 1 32 =? 0)) with false.
  cbv iota. cbn [andb].
  replace (2 + len_of blocks + 4 <? 2 + 4) with false by (symmetry; apply Z.ltb_ge; lia).
  replace (2 + len_of blocks + 4 - 2 - 4) with (len_of blocks) by lia.
  assert (Hsl : slice buf 2 (len_of blocks) = blocks).
  { subst buf. by apply slice_middle'. }
  rewrite Hsl.
  unfold malloc_ok, PTRDIFF_MAX.
  replace (len_of raw <=? 9223372036854775807) with true by (symmetry; apply Z.leb_le; lia).
  cbn [negb].
  fold (aligned_at blocks 0).
  pose proof (inflate_store_blocks (length raw) raw [] [] (inflate_fuel (len_of blocks))
                (inflate_fuel (len_of blocks)) (len_of raw) ltac:(lia) (Nat.le_refl _)) as Hinf.
  cbn [app] in Hinf. change (len_of []) with 0 in Hinf. fold blocks in Hinf.
  rewrite Hinf; [| unfold inflate_fuel, len_of in *; lia | lia].
  rewrite Z.eqb_refl. cbn [negb].
  replace (2 + len_of blocks + 4 - 3) with (2 + len_of blocks + 4 - 4 + 1) by lia.
  replace (2 + len_of blocks + 4 - 2) with (2 + len_of blocks + 4 - 4 + 2) by lia.
  replace (2 + len_of blocks + 4 - 1) with (2 + len_of blocks + 4 - 4 + 3) by lia.
  fold (png_read_be32_mem buf (2 + len_of blocks + 4 - 4)).
  assert (Hrd : png_read_be32_mem buf (2 + len_of blocks + 4 - 4) = png_adler32 raw).
  { subst buf. rewrite (app_assoc [120; 1]).
    pose proof (png_read_be32_mem_app ([120; 1] ++ blocks) trailer [] 0
                  ltac:(lia) ltac:(unfold len_of; cbn; lia)) as H1.
    rewrite app_nil_r in H1. rewrite len_of_app in H1. change (len_of [120; 1]) with 2 in H1.
    replace (2 + len_of blocks + 4 - 4) with (2 + len_of blocks + 0) by lia.
    rewrite H1. subst trailer. apply png_read_be32_mem_bytes. apply png_adler32_range. }
  rewrite Hrd, Z.eqb_refl. reflexivity.
Qed.

(** ** The loops never run out of fuel *)

Lemma fill_loop_fuel n : forall f1 f2 bs,
  n - bitcount bs <= Z.of_nat f1 -> n - bitcount bs <= Z.of_nat f2 ->
  fill_loop f1 bs n = fill_loop f2 bs n.
Proof.
  induction f1 as [|f1 IH]; intros f2 bs H1 H2.
  - rewrite (fill_loop_stop f2) by lia. reflexivity.
  - destruct f2 as [|f2]; [by rewrite (fill_loop_stop (S f1)) by lia|].
    cbn [fill_loop]. case_match; [|done]. apply IH; cbn [bitcount]; lia.
Qed.

Lemma fill_loop_inv n : forall fuel bs,
  bs_wf bs ->
  bs_wf (fill_loop fuel bs n) /\ bits_left (fill_loop fuel bs n) = bits_left bs.
Proof.
  induction fuel as [|fuel IH]; intros bs Hwf; [done|].
  cbn [fill_loop]. case_match eqn:E; [|done].
  apply andb_true_iff in E. destruct E as (E1 & E2).
  apply Z.ltb_lt in E1, E2. destruct Hwf as (Hp & Hc).
  destruct (IH {| bs_data := bs_data bs; bytepos := bytepos bs + 1;
                  bitbuf := Z.lor (bitbuf bs)
                              (to_u32 (Z.shiftl (byte_at (bs_data bs) (bytepos bs))
                                                (bitcount bs)));
                  bitcount := bitcount bs + 8 |}) as (Hwf' & Hbl).
  { unfold bs_wf. cbn [bs_data bytepos bitcount]. lia. }
  split; [done|]. rewrite Hbl. unfold bits_left. cbn [bs_data bytepos bitcount]. lia.
Qed.

Lemma png_bitstream_get_inv bs n v bs' :
  png_bitstream_get bs n = Some (v, bs') -> 0 <= n -> bs_wf bs ->
  bs_wf bs' /\ bits_left bs' = bits_left bs - n /\ 0 <= v.
Proof.
  unfold png_bitstream_get, png_bitstream_fill. intros H Hn Hwf.
  destruct (n =? 0) eqn:E0.
  - apply Z.eqb_eq in E0. simplify_eq. split; [done|]. split; lia.
  - destruct (n <=? bitcount (fill_loop (Z.to_nat n) bs n)) eqn:E; [|discriminate].
    apply Z.leb_le in E. simplify_eq.
    destruct (fill_loop_inv n (Z.to_nat n) bs Hwf) as ((Hp & Hc) & Hbl).
    split; [|split].
    + unfold bs_wf. cbn [bs_data bytepos bitcount]. lia.
    + rewrite <- Hbl. unfold bits_left. cbn [bs_data bytepos bitcount]. lia.
    + apply Z.land_nonneg. right. unfold to_u32. apply Z.mod_pos_bound. lia.
Qed.

Lemma png_bitstream_align_inv bs bs' :
  png_bitstream_align bs = Some bs' -> bs_wf bs ->
  bs_wf bs' /\ bits_left bs' <= bits_left bs.
Proof.
  unfold png_bitstream_align. intros H Hwf.
  destruct (Z.land (bitcount bs) 7 =? 0); [simplify_eq; split; [done|lia]|].
  destruct (png_bitstream_get bs _) as [[v b]|] eqn:E; [|discriminate]. simplify_eq.
  assert (Hs : 0 <= Z.land (bitcount bs) 7) by (apply Z.land_nonneg; right; lia).
  destruct (png_bitstream_get_inv _ _ _ _ E Hs Hwf) as (Hw & Hb & _).
  split; [done|lia].
Qed.

Lemma read_bytes_loop_S n bs acc :
  read_bytes_loop (S n) bs acc =
  match png_bitstream_get bs 8 with
  | Some (v, b) => read_bytes_loop n b (acc ++ [to_u8 v])
  | None => None
  end.
Proof. reflexivity. Qed.

Lemma read_bytes_loop_inv n : forall bs acc r bs',
  read_bytes_loop n bs acc = Some (r, bs') -> bs_wf bs ->
  bs_wf bs' /\ bits_left bs' <= bits_left bs.
Proof.
  induction n as [|n IH]; intros bs acc r bs' H Hwf.
  - injection H as <- <-. split; [done|lia].
  - rewrite read_bytes_loop_S in H.
    destruct (png_bitstream_get bs 8) as [[v b]|] eqn:E; [|discriminate].
    destruct (png_bitstream_get_inv _ _ _ _ E ltac:(lia) Hwf) as (Hw & Hb & _).
    destruct (IH _ _ _ _ H Hw) as (Hw' & Hb'). split; [done|lia].
Qed.

Lemma png_bitstream_read_bytes_inv bs len r bs' :
  png_bitstream_read_bytes bs len = Some (r, bs') -> 0 <= len -> bs_wf bs ->
  bs_wf bs' /\ bits_left bs' <= bits_left bs.
Proof.
  unfold png_bitstream_read_bytes. intros H Hlen Hwf.
  destruct (bitcount bs =? 0).
  - destruct (len_of (bs_data bs) <? bytepos bs + len) eqn:E; [discriminate|].
    apply Z.ltb_ge in E. simplify_eq. destruct Hwf as (Hp & Hc).
    unfold bs_wf, bits_left. cbn [bs_data bytepos bitcount]. lia.
  - by eapply read_bytes_loop_inv.
Qed.

Lemma huffman_decode_loop_inv h : forall fuel len bs code first index sym bs',
  huffman_decode_loop fuel len bs h code first index = Some (sym, bs') ->
  bs_wf bs -> bs_wf bs' /\ bits_left bs' < bits_left bs.
Proof.
  induction fuel as [|fuel IH]; intros len bs code first index sym bs' H Hwf;
    [discriminate|].
  cbn [huffman_decode_loop] in H.
  destruct (png_bitstream_get bs 1) as [[bit b]|] eqn:E; [|discriminate].
  destruct (png_bitstream_get_inv _ _ _ _ E ltac:(lia) Hwf) as (Hw & Hb & _).
  case_match.
  - simplify_eq. split; [done|lia].
  - destruct (IH _ _ _ _ _ _ _ H Hw) as (Hw' & Hb'). split; [done|lia].
Qed.

Lemma png_huffman_decode_inv bs h sym bs' :
  png_huffman_decode bs h = Some (sym, bs') -> bs_wf bs ->
  bs_wf bs' /\ bits_left bs' < bits_left bs.
Proof. apply huffman_decode_loop_inv. Qed.

Lemma extra_bits_nonneg (table : list Z) i :
  Forall (fun v => 0 <= v <= 13) table -> 0 <= byte_at table i.
Proof. intros Ht. apply (table_at_range table 0 13 i Ht). lia. Qed.

Lemma len_extra_range : Forall (fun v => 0 <= v <= 13) len_extra.
Proof. unfold len_extra. repeat (constructor; [lia|]). constructor. Qed.

Lemma dist_extra_range : Forall (fun v => 0 <= v <= 13) dist_extra.
Proof. unfold dist_extra. repeat (constructor; [lia|]). constructor. Qed.

Lemma decode_backref_inv bs dist sym length distance bs' :
  decode_backref bs dist sym = Some (length, distance, bs') -> bs_wf bs ->
  bs_wf bs' /\ bits_left bs' < bits_left bs.
Proof.
  unfold decode_backref. intros H Hwf.
  pose proof (extra_bits_nonneg len_extra (sym - 257) len_extra_range) as Hle.
  assert (Hfirst : forall r b,
            (if byte_at len_extra (sym - 257) =? 0
             then Some (byte_at len_base (sym - 257), bs)
             else match png_bitstream_get bs (byte_at len_extra (sym - 257)) with
                  | Some (extra, bs2) =>
                    Some (to_int (byte_at len_base (sym - 257) + to_int extra), bs2)
                  | None => None
                  end) = Some (r, b) ->
            bs_wf b /\ bits_left b <= bits_left bs).
  { intros r b Hr. case_match.
    - simplify_eq. split; [done|lia].
    - destruct (png_bitstream_get bs _) as [[e b2]|] eqn:E; [|discriminate].
      simplify_eq.
      destruct (png_bitstream_get_inv _ _ _ _ E Hle Hwf) as (Hw & Hb & _).
      split; [done|lia]. }
  destruct (if byte_at len_extra (sym - 257) =? 0 then _ else _) as [[r b]|];
    [|discriminate].
  destruct (Hfirst r b eq_refl) as (Hw2 & Hb2).
  destruct (png_huffman_decode b dist) as [[ds b3]|] eqn:Ed; [|discriminate].
  destruct (png_huffman_decode_inv _ _ _ _ Ed Hw2) as (Hw3 & Hb3).
  destruct (30 <=? ds); [discriminate|].
  pose proof (extra_bits_nonneg dist_extra ds dist_extra_range) as Hde.
  case_match.
  - simplify_eq. split; [done|lia].
  - destruct (png_bitstream_get b3 _) as [[e b4]|] eqn:E; [|discriminate].
    simplify_eq.
    destruct (png_bitstream_get_inv _ _ _ _ E Hde Hw3) as (Hw & Hb & _).
    split; [done|lia].
Qed.

(** Two amounts of fuel above the number of bits left give the same run of
    the symbol loop. *)
Lemma inflate_symbols_fuel litlen dist e : forall f1 f2 bs out,
  bs_wf bs -> bits_left bs < Z.of_nat f1 -> bits_left bs < Z.of_nat f2 ->
  inflate_symbols f1 bs litlen dist e out = inflate_symbols f2 bs litlen dist e out.
Proof.
  induction f1 as [|f1 IH]; intros f2 bs out Hwf H1 H2.
  { destruct Hwf as (Hp & Hc). unfold bits_left in H1. lia. }
  destruct f2 as [|f2].
  { destruct Hwf as (Hp & Hc). unfold bits_left in H2. lia. }
  cbn [inflate_symbols].
  destruct (png_huffman_decode bs litlen) as [[sym b1]|] eqn:Ed; [|done].
  destruct (png_huffman_decode_inv _ _ _ _ Ed Hwf) as (Hw1 & Hb1).
  repeat case_match; try done.
  - apply IH; [done | lia | lia].
  - simplify_eq.
    match goal with H : decode_backref _ _ _ = Some _ |- _ =>
      destruct (decode_backref_inv _ _ _ _ _ _ H Hw1) as (Hw4 & Hb4) end.
    apply IH; [done | lia | lia].
Qed.

Lemma inflate_symbols_inv litlen dist e : forall fuel bs out out' bs',
  inflate_symbols fuel bs litlen dist e out = Some (out', bs') -> bs_wf bs ->
  bs_wf bs' /\ bits_left bs' < bits_left bs.
Proof.
  induction fuel as [|fuel IH]; intros bs out out' bs' H Hwf; [discriminate|].
  cbn [inflate_symbols] in H.
  destruct (png_huffman_decode bs litlen) as [[sym b1]|] eqn:Ed; [|discriminate].
  destruct (png_huffman_decode_inv _ _ _ _ Ed Hwf) as (Hw1 & Hb1).
  repeat case_match; try discriminate.
  - destruct (IH _ _ _ _ H Hw1) as (Hw & Hb). split; [done|lia].
  - simplify_eq. split; [done|lia].
  - simplify_eq.
    match goal with H : decode_backref _ _ _ = Some _ |- _ =>
      destruct (decode_backref_inv _ _ _ _ _ _ H Hw1) as (Hw4 & Hb4) end.
    destruct (IH _ _ _ _ H Hw4) as (Hw & Hb). split; [done|lia].
Qed.

Lemma png_bitstream_get_bound bs n v bs' :
  png_bitstream_get bs n = Some (v, bs') -> 0 <= n < 32 -> 0 <= v < 2 ^ n.
Proof.
  unfold png_bitstream_get, png_bitstream_fill. intros H Hn.
  destruct (n =? 0) eqn:E0.
  - apply Z.eqb_eq in E0. simplify_eq. change (2 ^ 0) with 1. lia.
  - destruct (n <=? bitcount (fill_loop (Z.to_nat n) bs n)); [|discriminate].
    simplify_eq. rewrite land_mask by done. apply Z.mod_pos_bound.
    apply Z.pow_pos_nonneg; lia.
Qed.

Lemma read_code_lengths_inv : forall ord bs cl cl' bs',
  read_code_lengths ord bs cl = Some (cl', bs') -> bs_wf bs ->
  bs_wf bs' /\ bits_left bs' <= bits_left bs.
Proof.
  induction ord as [|o ord IH]; intros bs cl cl' bs' H Hwf.
  - cbn in H. simplify_eq. split; [done|lia].
  - cbn [read_code_lengths] in H.
    destruct (png_bitstream_get bs 3) as [[v b]|] eqn:E; [|discriminate].
    destruct (png_bitstream_get_inv _ _ _ _ E ltac:(lia) Hwf) as (Hw & Hb & _).
    destruct (IH _ _ _ _ H Hw) as (Hw' & Hb'). split; [done|lia].
Qed.

(** A repeat code writes at least three entries. *)
Lemma repeat_count r n k :
  0 <= r < 2 ^ n -> 0 <= n <= 7 -> 3 <= k <= 11 ->
  (3 <= Z.to_nat (to_u32 (r + k)))%nat.
Proof.
  intros Hr Hn Hk.
  assert (2 ^ n <= 2 ^ 7) by (apply Z.pow_le_mono_r; lia).
  change (2 ^ 7) with 128 in *. rewrite to_u32_small by lia. lia.
Qed.

Lemma len_of_repeat (x : Z) n : len_of (repeat x n) = Z.of_nat n.
Proof. unfold len_of. by rewrite repeat_length. Qed.

(** Two amounts of fuel of at least the number of entries still to write
    give the same run of the code-length loop. *)
Lemma read_lengths_fuel code_huff total : forall f1 f2 bs lengths prev,
  total - len_of lengths <= Z.of_nat f1 ->
  total - len_of lengths <= Z.of_nat f2 ->
  read_lengths f1 bs code_huff total lengths prev
  = read_lengths f2 bs code_huff total lengths prev.
Proof.
  assert (Hstop : forall f bs lengths prev,
            total <= len_of lengths ->
            read_lengths f bs code_huff total lengths prev = Some (lengths, bs)).
  { intros f bs lengths prev Hl. destruct f; cbn [read_lengths];
      by rewrite (proj2 (Z.ltb_ge _ _) Hl). }
  induction f1 as [|f1 IH]; intros f2 bs lengths prev H1 H2.
  { by rewrite !Hstop by lia. }
  destruct f2 as [|f2]; [by rewrite !Hstop by lia|].
  cbn [read_lengths].
  destruct (len_of lengths <? total) eqn:El; [|done]. cbn [negb].
  apply Z.ltb_lt in El.
  destruct (png_huffman_decode bs code_huff) as [[sym b1]|]; [|done].
  destruct (sym <=? 15).
  { apply IH; rewrite len_of_app; change (len_of [to_u8 sym]) with 1; lia. }
  destruct (sym =? 16).
  { destruct (len_of lengths =? 0); [done|].
    destruct (png_bitstream_get b1 2) as [[r b2]|] eqn:E; [|done].
    pose proof (png_bitstream_get_bound _ _ _ _ E ltac:(lia)) as Hr.
    pose proof (repeat_count r 2 3 Hr ltac:(lia) ltac:(lia)).
    case_match; [done|]. apply IH; rewrite len_of_app, len_of_repeat; lia. }
  destruct (sym =? 17).
  { destruct (png_bitstream_get b1 3) as [[r b2]|] eqn:E; [|done].
    pose proof (png_bitstream_get_bound _ _ _ _ E ltac:(lia)) as Hr.
    pose proof (repeat_count r 3 3 Hr ltac:(lia) ltac:(lia)).
    case_match; [done|]. apply IH; rewrite len_of_app, len_of_repeat; lia. }
  destruct (sym =? 18); [|done].
  destruct (png_bitstream_get b1 7) as [[r b2]|] eqn:E; [|done].
  pose proof (png_bitstream_get_bound _ _ _ _ E ltac:(lia)) as Hr.
  pose proof (repeat_count r 7 11 Hr ltac:(lia) ltac:(lia)).
  case_match; [done|]. apply IH; rewrite len_of_app, len_of_repeat; lia.
Qed.

Lemma read_lengths_inv code_huff total : forall fuel bs lengths prev l' bs',
  read_lengths fuel bs code_huff total lengths prev = Some (l', bs') ->
  bs_wf bs -> bs_wf bs' /\ bits_left bs' <= bits_left bs.
Proof.
  assert (Hget : forall b n r b2, png_bitstream_get b n = Some (r, b2) ->
            0 <= n -> bs_wf b -> bs_wf b2 /\ bits_left b2 <= bits_left b).
  { intros b n r b2 E Hn Hw.
    destruct (png_bitstream_get_inv _ _ _ _ E Hn Hw) as (? & ? & _).
    split; [done|lia]. }
  induction fuel as [|fuel IH]; intros bs lengths prev l' bs' H Hwf.
  { cbn [read_lengths] in H. destruct (len_of lengths <? total);
      cbn [negb] in H; [discriminate|]. simplify_eq. split; [done|lia]. }
  cbn [read_lengths] in H.
  destruct (len_of lengths <? total); cbn [negb] in H;
    [|simplify_eq; split; [done|lia]].
  destruct (png_huffman_decode bs code_huff) as [[sym b1]|] eqn:Ed; [|discriminate].
  destruct (png_huffman_decode_inv _ _ _ _ Ed Hwf) as (Hw1 & Hb1).
  destruct (sym <=? 15).
  { destruct (IH _ _ _ _ _ H Hw1). split; [done|lia]. }
  destruct (sym =? 16).
  { destruct (len_of lengths =? 0); [discriminate|].
    destruct (png_bitstream_get b1 2) as [[r b2]|] eqn:E; [|discriminate].
    destruct (Hget _ _ _ _ E ltac:(lia) Hw1).
    case_match; [discriminate|]. destruct (IH _ _ _ _ _ H ltac:(done)).
    split; [done|lia]. }
  destruct (sym =? 17).
  { destruct (png_bitstream_get b1 3) as [[r b2]|] eqn:E; [|discriminate].
    destruct (Hget _ _ _ _ E ltac:(lia) Hw1).
    case_match; [discriminate|]. destruct (IH _ _ _ _ _ H ltac:(done)).
    split; [done|lia]. }
  destruct (sym =? 18); [|discriminate].
  destruct (png_bitstream_get b1 7) as [[r b2]|] eqn:E; [|discriminate].
  destruct (Hget _ _ _ _ E ltac:(lia) Hw1).
  case_match; [discriminate|]. destruct (IH _ _ _ _ _ H ltac:(done)).
  split; [done|lia].
Qed.

Lemma png_build_dynamic_huffman_inv bs litlen dist bs' :
  png_build_dynamic_huffman bs = Some (litlen, dist, bs') -> bs_wf bs ->
  bs_wf bs' /\ bits_left bs' <= bits_left bs.
Proof.
  unfold png_build_dynamic_huffman. intros H Hwf.
  destruct (png_bitstream_get bs 5) as [[hlit b1]|] eqn:E1; [|discriminate].
  destruct (png_bitstream_get_inv _ _ _ _ E1 ltac:(lia) Hwf) as (Hw1 & Hb1 & _).
  destruct (png_bitstream_get b1 5) as [[hdist b2]|] eqn:E2; [|discriminate].
  destruct (png_bitstream_get_inv _ _ _ _ E2 ltac:(lia) Hw1) as (Hw2 & Hb2 & _).
  destruct (png_bitstream_get b2 4) as [[hclen b3]|] eqn:E3; [|discriminate].
  destruct (png_bitstream_get_inv _ _ _ _ E3 ltac:(lia) Hw2) as (Hw3 & Hb3 & _).
  case_match; [discriminate|].
  destruct (read_code_lengths _ b3 _) as [[cl b4]|] eqn:E4; [|discriminate].
  destruct (read_code_lengths_inv _ _ _ _ _ E4 Hw3) as (Hw4 & Hb4).
  destruct (png_huffman_build cl); [|discriminate].
  destruct (read_lengths _ b4 _ _ _ _) as [[ls b5]|] eqn:E5; [|discriminate].
  destruct (read_lengths_inv _ _ _ _ _ _ _ _ E5 Hw4) as (Hw5 & Hb5).
  repeat case_match; simplify_eq. split; [done|lia].
Qed.

(** Two amounts of fuel above the number of bits left give the same run of
    the block loop. *)
Lemma inflate_blocks_fuel e : forall f1 f2 s1 s2 bs out,
  bs_wf bs ->
  bits_left bs < Z.of_nat f1 -> bits_left bs < Z.of_nat f2 ->
  bits_left bs < Z.of_nat s1 -> bits_left bs < Z.of_nat s2 ->
  inflate_blocks f1 s1 bs e out = inflate_blocks f2 s2 bs e out.
Proof.
  induction f1 as [|f1 IH]; intros f2 s1 s2 bs out Hwf H1 H2 H3 H4.
  { destruct Hwf as (Hp & Hc). unfold bits_left in H1. lia. }
  destruct f2 as [|f2].
  { destruct Hwf as (Hp & Hc). unfold bits_left in H2. lia. }
  cbn [inflate_blocks]. cbv zeta.
  destruct (png_bitstream_get bs 1) as [[bfinal b1]|] eqn:E1; [|done].
  destruct (png_bitstream_get_inv _ _ _ _ E1 ltac:(lia) Hwf) as (Hw1 & Hb1 & _).
  destruct (png_bitstream_get b1 2) as [[btype b2]|] eqn:E2; [|done].
  destruct (png_bitstream_get_inv _ _ _ _ E2 ltac:(lia) Hw1) as (Hw2 & Hb2 & _).
  destruct (btype =? 0).
  { destruct (png_bitstream_align b2) as [b3|] eqn:E3; [|done].
    destruct (png_bitstream_align_inv _ _ E3 Hw2) as (Hw3 & Hb3).
    destruct (png_bitstream_get b3 16) as [[slen b4]|] eqn:E4; [|done].
    destruct (png_bitstream_get_inv _ _ _ _ E4 ltac:(lia) Hw3) as (Hw4 & Hb4 & Hs).
    destruct (png_bitstream_get b4 16) as [[snlen b5]|] eqn:E5; [|done].
    destruct (png_bitstream_get_inv _ _ _ _ E5 ltac:(lia) Hw4) as (Hw5 & Hb5 & _).
    destruct (negb _); [done|]. destruct (e <? _); [done|].
    destruct (png_bitstream_read_bytes b5 slen) as [[bytes b6]|] eqn:E6; [|done].
    destruct (png_bitstream_read_bytes_inv _ _ _ _ E6 Hs Hw5) as (Hw6 & Hb6).
    destruct (to_int bfinal =? 0); [|done]. apply IH; [done|lia..]. }
  destruct ((btype =? 1) || (btype =? 2)); [|done].
  destruct (btype =? 1).
  - destruct png_build_fixed_huffman as [[l d]|]; [|done].
    rewrite (inflate_symbols_fuel l d e s1 s2 b2 out Hw2) by lia.
    destruct (inflate_symbols s2 b2 l d e out) as [[out' b']|] eqn:Es; [|done].
    destruct (inflate_symbols_inv _ _ _ _ _ _ _ _ Es Hw2) as (Hw' & Hb').
    destruct (to_int bfinal =? 0); [|done]. apply IH; [done|lia..].
  - destruct (png_build_dynamic_huffman b2) as [[[l d] b3]|] eqn:Ed; [|done].
    destruct (png_build_dynamic_huffman_inv _ _ _ _ Ed Hw2) as (Hw3 & Hb3).
    rewrite (inflate_symbols_fuel l d e s1 s2 b3 out Hw3) by lia.
    destruct (inflate_symbols s2 b3 l d e out) as [[out' b']|] eqn:Es; [|done].
    destruct (inflate_symbols_inv _ _ _ _ _ _ _ _ Es Hw3) as (Hw' & Hb').
    destruct (to_int bfinal =? 0); [|done]. apply IH; [done|lia..].
Qed.

(** The fuel [png_inflate_zlib] gives the two loops is enough: more fuel
    changes nothing. *)
Lemma inflate_fuel_enough (data : list Z) (f s : nat) e :
  let bs := {| bs_data := data; bytepos := 0; bitbuf := 0; bitcount := 0 |} in
  (inflate_fuel (len_of data) <= f)%nat -> (inflate_fuel (len_of data) <= s)%nat ->
  inflate_blocks f s bs e []
  = inflate_blocks (inflate_fuel (len_of data)) (inflate_fuel (len_of data)) bs e [].
Proof.
  intros bs Hf Hs. pose proof (len_of_nonneg data) as Hn.
  assert (Hb : bits_left bs = 8 * len_of data).
  { unfold bits_left, bs. cbn [bs_data bytepos bitcount]. lia. }
  unfold inflate_fuel in *.
  apply inflate_blocks_fuel; [unfold bs_wf, bs; cbn [bs_data bytepos bitcount]; lia|lia..].
Qed.

(** The fuel [png_bitstream_fill] gives its loop is enough. *)
Lemma fill_fuel_enough bs n (f : nat) :
  0 <= bitcount bs -> (Z.to_nat n <= f)%nat ->
  fill_loop f bs n = fill_loop (Z.to_nat n) bs n.
Proof. intros Hc Hf. apply fill_loop_fuel; lia. Qed.

(** The fuel [png_build_dynamic_huffman] gives the code-length loop is
    enough. *)
Lemma read_lengths_fuel_enough bs code_huff total (f : nat) :
  (Z.to_nat total <= f)%nat ->
  read_lengths f bs code_huff total [] 0
  = read_lengths (Z.to_nat total) bs code_huff total [] 0.
Proof. intros Hf. apply read_lengths_fuel; unfold len_of; cbn [length]; lia. Qed.

Lemma png_read_be32_mem_nonneg buf off :
  Forall is_byte buf -> 0 <= png_read_be32_mem buf off.
Proof.
  intros Hb. unfold png_read_be32_mem.
  pose proof (byte_at_is_byte buf off Hb). pose proof (byte_at_is_byte buf (off + 1) Hb).
  pose proof (byte_at_is_byte buf (off + 2) Hb).
  pose proof (byte_at_is_byte buf (off + 3) Hb).
  rewrite be32_combine by done. unfold is_byte in *. lia.
Qed.

(** Two amounts of fuel above the number of bytes after [pos] give the same
    run of the chunk loop. *)
Lemma read_chunks_fuel buf : Forall is_byte buf -> forall f1 f2 pos st,
  len_of buf - pos < Z.of_nat f1 -> len_of buf - pos < Z.of_nat f2 ->
  read_chunks f1 buf pos st = read_chunks f2 buf pos st.
Proof.
  intros Hb.
  assert (Hstop : forall f pos st, len_of buf < pos + 8 ->
            read_chunks f buf pos st = Done st).
  { intros f pos st Hl. destruct f; [done|]. cbn [read_chunks].
    by rewrite (proj2 (Z.leb_gt _ _) Hl). }
  induction f1 as [|f1 IH]; intros f2 pos st H1 H2.
  { by rewrite !Hstop by lia. }
  destruct f2 as [|f2]; [by rewrite !Hstop by lia|].
  cbn [read_chunks]. cbv zeta.
  pose proof (png_read_be32_mem_nonneg buf pos Hb) as Hlen.
  destruct (negb _); [done|]. destruct (len_of buf <? _); [done|].
  repeat case_match; try done; apply IH; lia.
Qed.

(** The fuel [png_load_mem] gives the chunk loop is enough. *)
Lemma read_chunks_fuel_enough buf (f : nat) st :
  Forall is_byte buf -> (length buf <= f)%nat ->
  read_chunks f buf 8 st = read_chunks (length buf) buf 8 st.
Proof. intros Hb Hf. apply read_chunks_fuel; [done|unfold len_of; lia..]. Qed.

(** Two amounts of fuel of at least the number of bytes left give the same
    run of the stored-block loop. *)
Lemma store_blocks_fuel : forall f1 f2 src,
  len_of src <= Z.of_nat f1 -> len_of src <= Z.of_nat f2 ->
  store_blocks f1 src = store_blocks f2 src.
Proof.
  assert (Hstop : forall f src, len_of src <= 0 -> store_blocks f src = []).
  { intros f src Hl. destruct f; [done|]. cbn [store_blocks].
    by rewrite (proj2 (Z.ltb_ge _ _) Hl). }
  induction f1 as [|f1 IH]; intros f2 src H1 H2.
  { by rewrite !Hstop by lia. }
  destruct f2 as [|f2]; [by rewrite !Hstop by lia|].
  cbn [store_blocks]. cbv zeta.
  destruct (0 <? len_of src) eqn:E; [|done]. apply Z.ltb_lt in E.
  do 2 f_equal.
  assert (Hd : forall k, 0 < k -> len_of (drop (Z.to_nat k) src) <= len_of src - 1).
  { intros k Hk. unfold len_of in *. rewrite length_drop. lia. }
  unfold max_block in *.
  apply IH; (case_match; [pose proof (Hd 65535 ltac:(lia)) | pose proof (Hd (len_of src) E)]; lia).
Qed.

(** ** Rows with their filter bytes *)

Lemma len_of_zeros k : 0 <= k -> len_of (zeros k) = k.
Proof. intros Hk. unfold zeros, len_of. rewrite repeat_length. lia. Qed.

Lemma zeros_add a b : 0 <= a -> 0 <= b -> zeros (a + b) = zeros a ++ zeros b.
Proof.
  intros Ha Hb. unfold zeros. rewrite Z2Nat.inj_add by lia. apply repeat_app.
Qed.

Lemma zeros_succ k : 0 <= k -> zeros (1 + k) = 0 :: zeros k.
Proof. intros Hk. rewrite zeros_add by lia. reflexivity. Qed.

Lemma len_of_drop (buf : list Z) k :
  0 <= k <= len_of buf -> len_of (drop (Z.to_nat k) buf) = len_of buf - k.
Proof. intros Hk. unfold len_of in *. rewrite length_drop. lia. Qed.

Lemma rows_with_filters_len fs n : forall pixels,
  0 <= n -> len_of pixels = len_of fs * n ->
  len_of (rows_with_filters fs n pixels) = len_of fs * (1 + n).
Proof.
  induction fs as [|f rest IH]; intros pixels Hn Hlen; [reflexivity|].
  cbn [rows_with_filters].
  assert (Hl : len_of (f :: rest) = 1 + len_of rest) by (unfold len_of; cbn [length]; lia).
  rewrite Hl in *. pose proof (len_of_nonneg rest).
  change (f :: slice pixels 0 n ++ rows_with_filters rest n (drop (Z.to_nat n) pixels))
    with ([f] ++ slice pixels 0 n ++ rows_with_filters rest n (drop (Z.to_nat n) pixels)).
  rewrite !len_of_app, len_of_slice, IH by (rewrite ?len_of_drop; nia).
  change (len_of [f]) with 1. lia.
Qed.

Lemma store_head pre x rest v :
  store (pre ++ x :: rest) (len_of pre) v = Done (pre ++ v :: rest).
Proof.
  unfold store. pose proof (len_of_nonneg pre). rewrite len_of_app.
  assert (len_of (x :: rest) = 1 + len_of rest) as -> by (unfold len_of; cbn [length]; lia).
  pose proof (len_of_nonneg rest).
  replace (0 <=? len_of pre) with true by (symmetry; apply Z.leb_le; lia).
  replace (len_of pre <? len_of pre + (1 + len_of rest)) with true
    by (symmetry; apply Z.ltb_lt; lia).
  cbn [andb]. f_equal. unfold set_at, len_of. rewrite Nat2Z.id.
  replace (length pre) with (length pre + 0)%nat at 1 by lia.
  by rewrite insert_app_r.
Qed.

Lemma memcpy_middle pre old post src soff n :
  len_of old = n -> 0 <= soff -> 0 <= n -> soff + n <= len_of src ->
  memcpy (pre ++ old ++ post) (len_of pre) src soff n
  = Done (pre ++ slice src soff n ++ post).
Proof.
  intros Hold Hs Hn Hin. unfold memcpy.
  pose proof (len_of_nonneg pre). pose proof (len_of_nonneg post).
  rewrite !len_of_app, Hold.
  replace (0 <=? len_of pre) with true by (symmetry; apply Z.leb_le; lia).
  replace (0 <=? soff) with true by (symmetry; apply Z.leb_le; lia).
  replace (0 <=? n) with true by (symmetry; apply Z.leb_le; lia).
  replace (len_of pre + n <=? len_of pre + (n + len_of post)) with true
    by (symmetry; apply Z.leb_le; lia).
  replace (soff + n <=? len_of src) with true by (symmetry; apply Z.leb_le; lia).
  cbn [andb]. f_equal. f_equal.
  - unfold len_of. rewrite Nat2Z.id. apply take_app_length.
  - f_equal. rewrite app_assoc. apply drop_app_length'.
    rewrite length_app. unfold len_of in *. lia.
Qed.

Lemma drop_drop_Z (buf : list Z) a b :
  0 <= a -> 0 <= b ->
  drop (Z.to_nat b) (drop (Z.to_nat a) buf) = drop (Z.to_nat (a + b)) buf.
Proof. intros Ha Hb. rewrite drop_drop. f_equal. lia. Qed.

Lemma slice_drop (buf : list Z) a n :
  slice (drop (Z.to_nat a) buf) 0 n = slice buf a n.
Proof. reflexivity. Qed.

(** *** The row loop of the encoder *)

Lemma save_rows_spec img n (m : nat) : forall y0 pre,
  1 <= width img -> 1 <= channels img ->
  n = width img * channels img -> n < INT_MAX ->
  height img * n <= INT_MAX ->
  len_of (data img) = height img * n ->
  0 <= y0 -> y0 + Z.of_nat m = height img ->
  len_of pre = y0 * (1 + n) ->
  save_rows img (1 + n) (range_from y0 (height img))
    (pre ++ zeros (Z.of_nat m * (1 + n)))
  = Done (pre ++ rows_with_filters (repeat 0 m) n (drop (Z.to_nat (y0 * n)) (data img))).
Proof.
  induction m as [|m IH]; intros y0 pre Hw Hc Hn Hnmax Hhn Hdata Hy0 Hym Hpre.
  - rewrite range_from_nil by lia. cbn. reflexivity.
  - assert (Hn1 : 1 <= n) by nia.
    rewrite range_from_cons by lia. cbn [save_rows].
    assert (Hmn : 0 <= Z.of_nat m * n) by nia.
    assert (Hh : height img * n = y0 * n + n + Z.of_nat m * n) by (rewrite <- Hym; lia).
    assert (Hyn : y0 <= y0 * n) by nia.
    assert (Hyw0 : 0 <= y0 * width img) by nia.
    assert (Hyw : y0 * width img <= y0 * n).
    { rewrite Hn, Z.mul_assoc.
      rewrite <- (Z.mul_1_r (y0 * width img)) at 1.
      apply Z.mul_le_mono_nonneg_l; lia. }
    unfold INT_MAX in *.
    rewrite (to_size_t_small (y0 * (1 + n))) by lia.
    rewrite (to_size_t_small (y0 * (1 + n) + 1)) by lia.
    rewrite (to_int_small (y0 * width img)) by (unfold INT_MAX; lia).
    replace (y0 * width img * channels img) with (y0 * n) by (subst n; lia).
    rewrite (to_int_small (y0 * n)) by (unfold INT_MAX; lia).
    rewrite <- Hn. rewrite (to_int_small n) by (unfold INT_MAX; lia).
    rewrite (to_size_t_small n) by lia.
    replace (Z.of_nat (S m) * (1 + n)) with (1 + (n + Z.of_nat m * (1 + n))) by lia.
    rewrite zeros_succ, zeros_add by lia.
    rewrite <- Hpre, store_head. cbn [exec_bind].
    change (pre ++ 0 :: zeros n ++ zeros (Z.of_nat m * (1 + n)))
      with (pre ++ [0] ++ zeros n ++ zeros (Z.of_nat m * (1 + n))).
    rewrite (app_assoc pre [0]).
    replace (len_of pre + 1) with (len_of (pre ++ [0]))
      by (rewrite len_of_app; reflexivity).
    rewrite memcpy_middle by (rewrite ?len_of_zeros; lia).
    cbn [exec_bind]. rewrite (app_assoc (pre ++ [0])).
    rewrite (IH (y0 + 1)); try done; try lia.
    + cbn [repeat rows_with_filters]. rewrite slice_drop.
      rewrite drop_drop_Z by lia.
      replace ((y0 + 1) * n) with (y0 * n + n) by lia.
      rewrite <- !app_assoc. reflexivity.
    + rewrite !len_of_app, len_of_slice by lia. change (len_of [0]) with 1. lia.
Qed.

Lemma drop_0_Z (buf : list Z) : drop (Z.to_nat 0) buf = buf.
Proof. reflexivity. Qed.

Lemma png_write_chunk_some f type payload :
  len_of payload + 4 <= PTRDIFF_MAX ->
  png_write_chunk f type (Some payload) (len_of payload)
  = Done (f ++ chunk_bytes (written_chunk type payload)).
Proof.
  intros Hlen. unfold png_write_chunk, malloc_ok.
  replace (4 + len_of payload <=? PTRDIFF_MAX) with true
    by (symmetry; apply Z.leb_le; lia).
  cbn [negb default]. rewrite Z.ltb_irrefl, andb_false_r.
  rewrite slice_all. unfold chunk_bytes, written_chunk. cbn [ck_type ck_payload ck_crc].
  destruct (0 <? len_of payload) eqn:E; cbn [andb].
  - replace (Z.to_nat (len_of payload) - length payload)%nat with 0%nat
      by (unfold len_of; lia).
    cbn [repeat]. by rewrite app_nil_r.
  - apply Z.ltb_ge in E.
    assert (payload = []) as ->.
    { destruct payload; [done|]. unfold len_of in E. cbn in E. lia. }
    reflexivity.
Qed.

Lemma png_write_chunk_none f type :
  png_write_chunk f type None 0 = Done (f ++ chunk_bytes (written_chunk type [])).
Proof. reflexivity. Qed.

Lemma image_raw_len img :
  encodable img ->
  len_of (image_raw img) = height img * (1 + width img * channels img).
Proof.
  intros (Hw & Hh & Hc & Hn & Hhn & Hdata). unfold image_raw.
  rewrite rows_with_filters_len.
  - unfold len_of. rewrite repeat_length. lia.
  - nia.
  - unfold len_of in *. rewrite repeat_length. lia.
Qed.

Lemma png_deflate_store_done raw :
  0 <= len_of raw < 4294967296 ->
  png_deflate_store raw (len_of raw) = Done (Some (zlib_store raw)).
Proof.
  intros Hlen. unfold png_deflate_store, max_block.
  rewrite (to_size_t_small (len_of raw + 65535 - 1)) by lia.
  assert (Hq : 0 <= (len_of raw + 65535 - 1) / 65535 <= 65538)
    by (Z.div_mod_to_equations; lia).
  rewrite to_size_t_small by lia.
  unfold malloc_ok, PTRDIFF_MAX.
  replace (_ <=? 9223372036854775807) with true by (symmetry; apply Z.leb_le; lia).
  cbn [negb]. rewrite Z.ltb_irrefl. rewrite slice_all.
  replace (Z.to_nat (len_of raw)) with (length raw) by (unfold len_of; lia).
  fold (zlib_store raw).
  replace (len_of (zlib_store raw) <=? _) with true; [done|].
  symmetry. apply Z.leb_le. unfold zlib_store. rewrite !len_of_app.
  rewrite store_blocks_len by done. change (len_of [120; 1]) with 2.
  change (len_of (be32_bytes _)) with 4.
  replace (len_of raw + 65535 - 1) with (len_of raw + 65534) by lia. lia.
Qed.

Lemma png_save_internal_done img f :
  encodable img ->
  height img * (1 + width img * channels img) < 4294967296 - 400000 ->
  png_save_internal img f None None
  = Done (0, f ++ signature ++ flat_map chunk_bytes (saved_chunks img [])).
Proof.
  intros Henc Hbig. pose proof Henc as (Hw & Hh & Hc & Hn & Hhn & Hdata).
  unfold png_save_internal.
  assert (Hih : len_of (ihdr_bytes img) = 13) by reflexivity.
  rewrite <- Hih at 1. rewrite png_write_chunk_some by (rewrite Hih; unfold PTRDIFF_MAX; lia).
  cbn [exec_bind].
  set (n := width img * channels img) in *.
  unfold INT_MAX in *.
  assert (Hn0 : 0 <= n) by (subst n; nia).
  rewrite (to_int_small n) by (unfold INT_MAX; lia).
  rewrite (to_int_small (1 + n)) by (unfold INT_MAX; lia).
  rewrite (to_size_t_small (1 + n)), (to_size_t_small (height img)) by lia.
  rewrite (to_size_t_small (height img * (1 + n))) by nia.
  unfold malloc_ok at 1. unfold PTRDIFF_MAX.
  replace (height img * (1 + n) <=? 9223372036854775807) with true
    by (symmetry; apply Z.leb_le; nia).
  fold (zeros (height img * (1 + n))).
  pose proof (save_rows_spec img n (Z.to_nat (height img)) 0 []
                Hw Hc eq_refl ltac:(unfold INT_MAX; lia)
                ltac:(unfold INT_MAX; lia) ltac:(lia) ltac:(lia) ltac:(lia) eq_refl) as Hrows.
  cbn [app] in Hrows. rewrite Z2Nat.id in Hrows by lia.
  change (0 * n) with 0 in Hrows. rewrite drop_0_Z in Hrows.
  rewrite Hrows. cbn [exec_bind]. fold (image_raw img).
  pose proof (image_raw_len img Henc) as Hrl. fold n in Hrl. rewrite <- Hrl.
  rewrite png_deflate_store_done by (rewrite Hrl; nia).
  cbn [exec_bind].
  assert (Hzl : len_of (zlib_store (image_raw img)) < 4294967296).
  { unfold zlib_store. rewrite !len_of_app, store_blocks_len by done.
    change (len_of [120; 1]) with 2. change (len_of (be32_bytes _)) with 4.
    rewrite Hrl. Z.div_mod_to_equations. nia. }
  rewrite png_write_chunk_some by (unfold PTRDIFF_MAX; lia).
  cbn [exec_bind]. rewrite png_write_chunk_none. cbn [exec_bind].
  unfold saved_chunks. cbn [app flat_map]. rewrite app_nil_r.
  rewrite <- !app_assoc. reflexivity.
Qed.

Lemma png_save_internal_new_file img :
  encodable img ->
  height img * (1 + width img * channels img) < 4294967296 - 400000 ->
  png_save_internal img [] None None
  = Done (0, signature ++ flat_map chunk_bytes (saved_chunks img [])).
Proof. intros Henc Hbig. by rewrite png_save_internal_done. Qed.

(** ** The row loop of the decoder *)

Lemma png_unfilter_row_leaves row prev f w c :
  leaves_row f -> png_unfilter_row row prev f w c = row.
Proof.
  intros [-> | Hf]; [reflexivity|]. unfold png_unfilter_row.
  replace (f =? 0) with false by (symmetry; apply Z.eqb_neq; lia).
  replace (f =? 1) with false by (symmetry; apply Z.eqb_neq; lia).
  replace (f =? 2) with false by (symmetry; apply Z.eqb_neq; lia).
  replace (f =? 3) with false by (symmetry; apply Z.eqb_neq; lia).
  replace (f =? 4) with false by (symmetry; apply Z.eqb_neq; lia).
  reflexivity.
Qed.

Lemma rows_with_filters_row_at fs n : forall pixels (y : nat) f,
  0 <= n -> len_of pixels = len_of fs * n ->
  fs !! y = Some f ->
  row_at (rows_with_filters fs n pixels) n (Z.of_nat y) f
    (slice pixels (Z.of_nat y * n) n).
Proof.
  induction fs as [|f0 rest IH]; intros pixels y f Hn Hlen Hy; [done|].
  assert (Hl : len_of (f0 :: rest) = 1 + len_of rest) by (unfold len_of; cbn [length]; lia).
  rewrite Hl in Hlen. pose proof (len_of_nonneg rest) as Hr0.
  assert (Hrn : 0 <= len_of rest * n) by nia.
  cbn [rows_with_filters]. destruct y as [|y].
  - cbn in Hy. simplify_eq. exists [], (rows_with_filters rest n (drop (Z.to_nat n) pixels)).
    split; [reflexivity|]. split; [reflexivity|].
    change (Z.of_nat 0 * n) with 0. apply len_of_slice; lia.
  - cbn in Hy.
    destruct (IH (drop (Z.to_nat n) pixels) y f Hn) as (pre & post & Hraw & Hpre & Hrow);
      [rewrite len_of_drop; lia | done |].
    exists (f0 :: slice pixels 0 n ++ pre), post.
    assert (Hsl : slice (drop (Z.to_nat n) pixels) (Z.of_nat y * n) n
                  = slice pixels (Z.of_nat (S y) * n) n).
    { unfold slice. rewrite drop_drop. do 2 f_equal. nia. }
    rewrite Hsl in *. split; [|split; [|done]].
    + rewrite Hraw. cbn [app]. by rewrite <- app_assoc.
    + change (f0 :: slice pixels 0 n ++ pre) with ([f0] ++ slice pixels 0 n ++ pre).
      rewrite !len_of_app, len_of_slice, Hpre by lia. change (len_of [f0]) with 1. lia.
Qed.

Lemma load_middle pre f post : load (pre ++ [f] ++ post) (len_of pre) = Done f.
Proof.
  unfold load. pose proof (len_of_nonneg pre). pose proof (len_of_nonneg post).
  rewrite !len_of_app. change (len_of [f]) with 1.
  replace (0 <=? len_of pre) with true by (symmetry; apply Z.leb_le; lia).
  replace (len_of pre <? len_of pre + (1 + len_of post)) with true
    by (symmetry; apply Z.ltb_lt; lia).
  cbn [andb]. f_equal. rewrite byte_at_app_r by lia. by rewrite Z.sub_diag.
Qed.

Lemma read_range_middle pre b post :
  read_range (pre ++ b ++ post) (len_of pre) (len_of b) = Done b.
Proof.
  unfold read_range. pose proof (len_of_nonneg pre). pose proof (len_of_nonneg post).
  pose proof (len_of_nonneg b). rewrite !len_of_app.
  replace (0 <=? len_of pre) with true by (symmetry; apply Z.leb_le; lia).
  replace (0 <=? len_of b) with true by (symmetry; apply Z.leb_le; lia).
  replace (len_of pre + len_of b <=? len_of pre + (len_of b + len_of post)) with true
    by (symmetry; apply Z.leb_le; lia).
  cbn [andb]. f_equal. apply slice_middle.
Qed.

Lemma read_range_middle' pre b post off n :
  off = len_of pre -> n = len_of b ->
  read_range (pre ++ b ++ post) off n = Done b.
Proof. intros -> ->. apply read_range_middle. Qed.

Lemma slice_all' (buf : list Z) n : n = len_of buf -> slice buf 0 n = buf.
Proof. intros ->. apply slice_all. Qed.

Lemma read_range_in buf off n :
  0 <= off -> 0 <= n -> off + n <= len_of buf ->
  exists r, read_range buf off n = Done r.
Proof.
  intros Ho Hn Hin. unfold read_range.
  replace (0 <=? off) with true by (symmetry; apply Z.leb_le; lia).
  replace (0 <=? n) with true by (symmetry; apply Z.leb_le; lia).
  replace (off + n <=? len_of buf) with true by (symmetry; apply Z.leb_le; lia).
  by eexists.
Qed.

Lemma load_rows_spec w c n h raw pixels (m : nat) : forall y0 prev_row,
  1 <= w -> 1 <= c -> n = w * c ->
  h * (1 + n) <= INT_MAX ->
  len_of pixels = h * n ->
  len_of raw = h * (1 + n) ->
  (forall y, 0 <= y < h ->
     exists f, leaves_row f /\ row_at raw n y f (slice pixels (y * n) n)) ->
  (forall p, prev_row = Some p -> 0 <= p /\ p + n <= len_of raw) ->
  0 <= y0 -> y0 + Z.of_nat m = h ->
  load_rows (range_from y0 h) w c (1 + n) raw
    (slice pixels 0 (y0 * n) ++ zeros (Z.of_nat m * n)) prev_row
  = Done pixels.
Proof.
  induction m as [|m IH];
    intros y0 prev_row Hw Hc Hn Hmax Hpix Hraw Hrows Hprev Hy0 Hym.
  - rewrite range_from_nil by lia. cbn [load_rows]. f_equal.
    change (zeros (Z.of_nat 0 * n)) with (@nil Z). rewrite app_nil_r.
    replace (y0 * n) with (len_of pixels) by (rewrite Hpix; f_equal; lia).
    apply slice_all.
  - assert (Hn1 : 1 <= n) by nia.
    rewrite range_from_cons by lia. cbn [load_rows].
    assert (Hmn : 0 <= Z.of_nat m * n) by nia.
    assert (Hh : h * n = y0 * n + n + Z.of_nat m * n) by (rewrite <- Hym; lia).
    assert (Hh1 : h * (1 + n) = h + h * n) by lia.
    assert (Hyn : y0 <= y0 * n) by nia.
    assert (Hyw0 : 0 <= y0 * w) by nia.
    assert (Hyw : y0 * w <= y0 * n).
    { rewrite Hn, Z.mul_assoc. rewrite <- (Z.mul_1_r (y0 * w)) at 1.
      apply Z.mul_le_mono_nonneg_l; lia. }
    unfold INT_MAX in *.
    rewrite (to_int_small (y0 * (1 + n))) by (unfold INT_MAX; lia).
    rewrite (to_int_small (y0 * w)) by (unfold INT_MAX; lia).
    replace (y0 * w * c) with (y0 * n) by (subst n; lia).
    rewrite (to_int_small (y0 * n)) by (unfold INT_MAX; lia).
    rewrite <- Hn. rewrite (to_int_small n) by (unfold INT_MAX; lia).
    rewrite (to_size_t_small n) by lia.
    destruct (Hrows y0 ltac:(lia)) as (f & Hf & pre & post & Hsplit & Hpre & Hrow).
    set (row := slice pixels (y0 * n) n) in *.
    rewrite Hsplit at 1. rewrite <- Hpre, load_middle. cbn [exec_bind].
    assert (Hsplit' : raw = (pre ++ [f]) ++ row ++ post) by (by rewrite <- app_assoc).
    assert (Hoff : len_of pre + 1 = len_of (pre ++ [f]))
      by (rewrite len_of_app; reflexivity).
    rewrite Hsplit' at 1.
    rewrite (read_range_middle' (pre ++ [f]) row post) by (done || lia).
    cbn [exec_bind].
    assert (Hpr : exists prev,
              match prev_row with
              | Some p => let! r := read_range raw p n in Done (Some r)
              | None => Done None
              end = Done prev).
    { destruct prev_row as [p|]; [|by eexists].
      destruct (Hprev p eq_refl) as (Hp0 & Hp1).
      destruct (read_range_in raw p n Hp0 ltac:(lia) Hp1) as (r & ->).
      by eexists. }
    destruct Hpr as (prev & ->). cbn [exec_bind].
    rewrite png_unfilter_row_leaves by done.
    rewrite Hsplit' at 1. rewrite Hoff.
    rewrite memcpy_middle by (rewrite ?Hrow; lia).
    rewrite (slice_all' row n) by done. rewrite <- Hsplit'.
    cbn [exec_bind].
    replace (Z.of_nat (S m) * n) with (n + Z.of_nat m * n) by lia.
    rewrite zeros_add by lia.
    assert (Hpl : len_of (slice pixels 0 (y0 * n)) = y0 * n)
      by (apply len_of_slice; lia).
    rewrite <- Hpl at 2.
    rewrite memcpy_middle by (rewrite ?len_of_zeros, ?Hrow; lia).
    cbn [exec_bind]. rewrite (slice_all' row n) by done.
    rewrite app_assoc.
    assert (Hnext : slice pixels 0 (y0 * n) ++ row = slice pixels 0 ((y0 + 1) * n)).
    { replace ((y0 + 1) * n) with (y0 * n + n) by lia.
      rewrite slice_0_add by lia. reflexivity. }
    rewrite Hnext. apply IH; try done; try lia.
    intros p Hp. simplify_eq. rewrite Hraw. lia.
Qed.

(** ** Decoding a store-mode image *)

Lemma channels_of_cases ct c :
  channels_of ct = Some c ->
  (ct = 0 /\ c = 1) \/ (ct = 2 /\ c = 3) \/ (ct = 4 /\ c = 2) \/ (ct = 6 /\ c = 4).
Proof.
  unfold channels_of. intros H.
  repeat case_match; simplify_eq; rewrite ?Z.eqb_eq in *; lia.
Qed.

Lemma pixel_bytes_exact w h c :
  0 <= w * h <= INT_MAX -> 0 <= w * h * c <= INT_MAX -> pixel_bytes w h c = w * h * c.
Proof.
  intros H1 H2. unfold pixel_bytes, INT_MAX in *.
  rewrite (to_int_small (w * h)) by (unfold INT_MAX; lia).
  rewrite to_int_small by (unfold INT_MAX; lia).
  apply to_size_t_small. lia.
Qed.

Lemma load_image_stored w h ct c fs pixels :
  1 <= w -> 1 <= h -> channels_of ct = Some c ->
  h * (1 + w * c) <= INT_MAX ->
  len_of pixels = w * h * c ->
  len_of fs = h ->
  Forall leaves_row fs ->
  load_image {| cs_width := w; cs_height := h; cs_color_type := ct;
                cs_idat := Some (zlib_store (rows_with_filters fs (w * c) pixels)) |}
  = Done (Some {| width := w; height := h; channels := c; data := pixels |}).
Proof.
  intros Hw Hh Hct Hmax Hpix Hfs Hleave.
  assert (Hc : 1 <= c <= 4) by (apply channels_of_cases in Hct; lia).
  set (n := w * c) in *.
  assert (Hn1 : 1 <= n) by (subst n; nia).
  assert (Hhn : h <= h * n) by nia.
  assert (Hwh : 1 <= w * h) by nia.
  assert (Hwhc : w * h * c = h * n) by (subst n; lia).
  assert (Hwh' : w * h <= h * n).
  { rewrite <- Hwhc. rewrite <- (Z.mul_1_r (w * h)) at 1.
    apply Z.mul_le_mono_nonneg_l; lia. }
  set (raw := rows_with_filters fs n pixels).
  assert (Hraw : len_of raw = h * (1 + n)).
  { subst raw. rewrite rows_with_filters_len; lia. }
  unfold load_image. cbn [cs_idat cs_width cs_height cs_color_type].
  replace (w =? 0) with false by (symmetry; apply Z.eqb_neq; lia).
  replace (h =? 0) with false by (symmetry; apply Z.eqb_neq; lia).
  cbn [orb]. rewrite Hct. fold n.
  unfold INT_MAX in *.
  rewrite (to_int_small n) by (unfold INT_MAX; lia).
  rewrite (to_int_small (1 + n)) by (unfold INT_MAX; lia).
  rewrite (to_int_small (h * (1 + n))) by (unfold INT_MAX; lia).
  rewrite (to_size_t_small (h * (1 + n))) by lia.
  rewrite <- Hraw.
  rewrite inflate_zlib_store by (unfold PTRDIFF_MAX; lia).
  unfold png_create. rewrite pixel_bytes_exact by (unfold INT_MAX; lia).
  unfold malloc_ok, PTRDIFF_MAX.
  replace (w * h * c <=? 9223372036854775807) with true
    by (symmetry; apply Z.leb_le; lia).
  cbn [data]. fold (zeros (w * h * c)).
  pose proof (load_rows_spec w c n h raw pixels (Z.to_nat h) 0 None
                Hw ltac:(lia) eq_refl ltac:(unfold INT_MAX; lia)
                ltac:(lia) Hraw) as Hrows.
  rewrite Z2Nat.id in Hrows by lia.
  change (0 * n) with 0 in Hrows. change (slice pixels 0 0) with (@nil Z) in Hrows.
  cbn [app] in Hrows. rewrite Hwhc, Hrows; [done | | done | lia | lia].
  intros y Hy.
  assert (Hlk : exists f, fs !! Z.to_nat y = Some f).
  { apply lookup_lt_is_Some. unfold len_of in Hfs. lia. }
  destruct Hlk as (f & Hlk). exists f. split.
  - rewrite Forall_forall in Hleave. apply Hleave. by eapply list_elem_of_lookup_2.
  - pose proof (rows_with_filters_row_at fs n pixels (Z.to_nat y) f ltac:(lia)
                  ltac:(lia) Hlk) as Hr.
    by rewrite Z2Nat.id in Hr by lia.
Qed.

(** *** The chunk loop on a file *)

Lemma flat_map_chunks_length cks :
  Forall chunk_wf cks -> (length cks <= length (flat_map chunk_bytes cks))%nat.
Proof.
  induction 1 as [|k rest Hk Hrest IH]; [done|].
  cbn [flat_map length]. rewrite length_app.
  pose proof (chunk_bytes_len k Hk) as Hl. unfold len_of in Hl. lia.
Qed.

Lemma png_load_mem_chunks cks tail :
  Forall chunk_wf cks -> overruns tail ->
  png_load_mem (signature ++ flat_map chunk_bytes cks ++ tail)
  = let! st := collect cks chunk_state_init in load_image st.
Proof.
  intros Hwf Hov. unfold png_load_mem.
  set (buf := signature ++ flat_map chunk_bytes cks ++ tail).
  assert (Hlen : 8 <= len_of buf).
  { subst buf. rewrite len_of_app. change (len_of signature) with 8.
    pose proof (len_of_nonneg (flat_map chunk_bytes cks ++ tail)). lia. }
  replace (len_of buf <? 8) with false by (symmetry; apply Z.ltb_ge; lia).
  assert (Hsig : slice buf 0 8 = signature) by reflexivity.
  rewrite Hsig. rewrite bool_decide_eq_true_2 by done. cbn [negb].
  change 8 with (len_of signature) at 1. subst buf.
  rewrite read_chunks_collect; [done | done | done |].
  rewrite !length_app. pose proof (flat_map_chunks_length cks Hwf). lia.
Qed.

(** ** Files made of IHDR, IDAT and IEND *)

Lemma written_chunk_wf type payload :
  length type = 4%nat -> len_of payload < 4294967296 ->
  chunk_wf (written_chunk type payload).
Proof. intros Ht Hp. split; [done|]. split; [reflexivity|done]. Qed.

Lemma ihdr_bytes_fields img :
  0 <= width img <= INT_MAX -> 0 <= height img <= INT_MAX ->
  to_int (png_read_be32_mem (ihdr_bytes img) 0) = width img
  /\ to_int (png_read_be32_mem (ihdr_bytes img) 4) = height img
  /\ byte_at (ihdr_bytes img) 9 = color_type_of (channels img)
  /\ len_of (ihdr_bytes img) = 13.
Proof.
  intros Hw Hh. unfold ihdr_bytes, INT_MAX in *.
  pose proof (png_read_be32_mem_app [] (be32_bytes (width img))
                (be32_bytes (height img) ++ [8; color_type_of (channels img); 0; 0; 0])
                0 ltac:(lia) ltac:(unfold len_of; cbn; lia)) as H0.
  pose proof (png_read_be32_mem_app (be32_bytes (width img)) (be32_bytes (height img))
                [8; color_type_of (channels img); 0; 0; 0]
                0 ltac:(lia) ltac:(unfold len_of; cbn; lia)) as H4.
  cbn [app] in H0. change (len_of [] + 0) with 0 in H0.
  change (len_of (be32_bytes (width img)) + 0) with 4 in H4.
  rewrite H0, H4, !png_read_be32_mem_bytes by lia.
  rewrite !to_int_small by (unfold INT_MAX; lia).
  done.
Qed.

Lemma collect_image_chunks hdr idat crc1 crc2 rest :
  13 <= len_of hdr -> len_of idat <= PTRDIFF_MAX ->
  collect ({| ck_type := type_IHDR; ck_payload := hdr; ck_crc := crc1 |}
           :: {| ck_type := type_IDAT; ck_payload := idat; ck_crc := crc2 |}
           :: rest) chunk_state_init
  = collect rest
      {| cs_width := to_int (png_read_be32_mem hdr 0);
         cs_height := to_int (png_read_be32_mem hdr 4);
         cs_color_type := byte_at hdr 9;
         cs_idat := Some idat |}.
Proof.
  intros Hh Hi. cbn [collect ck_type ck_payload].
  rewrite (bool_decide_eq_true_2 (type_IHDR = type_IHDR)) by done.
  replace (len_of hdr <? 13) with false by (symmetry; apply Z.ltb_ge; lia).
  rewrite (bool_decide_eq_false_2 (type_IDAT = type_IHDR)) by done.
  rewrite (bool_decide_eq_true_2 (type_IDAT = type_IDAT)) by done.
  cbn [cs_idat default app chunk_state_init cs_width cs_height cs_color_type].
  change (len_of []) with 0. unfold malloc_ok.
  replace (0 + len_of idat <=? PTRDIFF_MAX) with true by (symmetry; apply Z.leb_le; lia).
  reflexivity.
Qed.

Lemma collect_iend crc st rest :
  collect ({| ck_type := type_IEND; ck_payload := []; ck_crc := crc |} :: rest) st
  = Done st.
Proof. reflexivity. Qed.

Lemma channels_of_color_type c :
  c = 1 \/ c = 2 \/ c = 3 \/ c = 4 -> channels_of (color_type_of c) = Some c.
Proof. intros [-> | [-> | [-> | ->]]]; reflexivity. Qed.

Lemma zlib_store_len raw :
  len_of (zlib_store raw) = 6 + len_of raw + 5 * ((len_of raw + 65534) / 65535).
Proof.
  unfold zlib_store. rewrite !len_of_app, store_blocks_len by done.
  change (len_of [120; 1]) with 2. change (len_of (be32_bytes _)) with 4. lia.
Qed.

Lemma zeros_leave (k : nat) : Forall leaves_row (repeat 0 k).
Proof. apply Forall_forall. intros f Hf. apply list_elem_of_In, repeat_spec in Hf. by left. Qed.

Lemma saved_chunks_stored img :
  saved_chunks img [] = stored_image_chunks (ihdr_bytes img) (image_raw img).
Proof. reflexivity. Qed.

(** Decoding a store-mode file whose rows all have a filter byte that leaves
    the row as it is. *)
Lemma load_stored_image hdr w h c fs pixels :
  13 <= len_of hdr < 4294967296 ->
  to_int (png_read_be32_mem hdr 0) = w ->
  to_int (png_read_be32_mem hdr 4) = h ->
  channels_of (byte_at hdr 9) = Some c ->
  1 <= w -> 1 <= h ->
  len_of pixels = w * h * c ->
  h * (1 + w * c) <= INT_MAX ->
  len_of fs = h ->
  Forall leaves_row fs ->
  png_load_mem (signature
                  ++ flat_map chunk_bytes
                       (stored_image_chunks hdr (rows_with_filters fs (w * c) pixels)))
  = Done (Some {| width := w; height := h; channels := c; data := pixels |}).
Proof.
  intros Hhdr Hfw Hfh Hct Hw Hh Hdata Hmax Hfs Hleave.
  assert (Hc : 1 <= c <= 4) by (apply channels_of_cases in Hct; lia).
  assert (Hn1 : 1 <= w * c) by nia.
  assert (Hhn : h <= h * (w * c)) by nia.
  unfold INT_MAX in *.
  assert (Hraw : len_of (rows_with_filters fs (w * c) pixels) = h * (1 + w * c)).
  { rewrite rows_with_filters_len; lia. }
  pose proof (zlib_store_len (rows_with_filters fs (w * c) pixels)) as Hzl.
  rewrite Hraw in Hzl.
  assert (Hzb : len_of (zlib_store (rows_with_filters fs (w * c) pixels)) < 4294967296)
    by (rewrite Hzl; Z.div_mod_to_equations; lia).
  rewrite <- (app_nil_r (flat_map _ _)).
  rewrite png_load_mem_chunks.
  - unfold stored_image_chunks, written_chunk.
    rewrite collect_image_chunks by (unfold PTRDIFF_MAX; lia).
    rewrite collect_iend. cbn [exec_bind]. rewrite Hfw, Hfh.
    by apply load_image_stored.
  - unfold stored_image_chunks. repeat constructor; cbn; try done; lia.
  - by left.
Qed.

(** Decoding what the encoder wrote for an image within [int] range. *)
Lemma load_saved_chunks img :
  1 <= width img -> 1 <= height img ->
  channels img = 1 \/ channels img = 2 \/ channels img = 3 \/ channels img = 4 ->
  len_of (data img) = width img * height img * channels img ->
  height img * (1 + width img * channels img) <= INT_MAX ->
  png_load_mem (signature ++ flat_map chunk_bytes (saved_chunks img []))
  = Done (Some img).
Proof.
  intros Hw Hh Hc Hdata Hmax.
  assert (Hn1 : 1 <= width img * channels img) by nia.
  assert (Hhn : height img <= height img * (width img * channels img)) by nia.
  assert (Hwn : width img <= width img * channels img) by nia.
  destruct (ihdr_bytes_fields img) as (Hfw & Hfh & Hfc & Hfl);
    [unfold INT_MAX in *; lia | unfold INT_MAX in *; lia |].
  rewrite saved_chunks_stored. unfold image_raw.
  rewrite (load_stored_image _ (width img) (height img) (channels img));
    try done; try lia.
  - by destruct img.
  - rewrite Hfc. by apply channels_of_color_type.
  - unfold len_of. rewrite repeat_length. lia.
  - apply zeros_leave.
Qed.

(** ** Round trip *)

Lemma encodable_of_bound img :
  1 <= width img -> 1 <= height img -> 1 <= channels img ->
  len_of (data img) = width img * height img * channels img ->
  height img * (1 + width img * channels img) <= INT_MAX ->
  encodable img.
Proof.
  intros Hw Hh Hc Hdata Hmax. unfold encodable, INT_MAX in *.
  assert (1 <= width img * channels img) by nia.
  assert (height img <= height img * (width img * channels img)) by nia.
  repeat split; lia.
Qed.

Lemma saved_file_len img :
  encodable img ->
  len_of (signature ++ flat_map chunk_bytes (saved_chunks img []))
  = 57 + len_of (zlib_store (image_raw img)).
Proof.
  intros Henc. rewrite saved_chunks_stored. unfold stored_image_chunks.
  cbn [flat_map]. rewrite !len_of_app. unfold chunk_bytes, written_chunk.
  cbn [ck_type ck_payload ck_crc]. rewrite !len_of_app.
  change (len_of signature) with 8. change (len_of (be32_bytes _)) with 4.
  change (len_of type_IHDR) with 4. change (len_of type_IDAT) with 4.
  change (len_of type_IEND) with 4. change (len_of (ihdr_bytes img)) with 13.
  change (len_of []) with 0. lia.
Qed.

(** C1, amended.  An image of at least one row and column, of one to four
    channels, whose buffer has [width * height * channels] bytes and whose
    raw size [height * (1 + width * channels)] fits in [int], is decoded
    from its encoding as it was: same width, height, channels and bytes.
    This holds for the bytes [png_save_internal] writes read by
    [png_load_mem], and for [png_save] to a file followed by [png_load]. *)
Theorem png_roundtrip (img : png_image) :
  1 <= width img -> 1 <= height img ->
  channels img = 1 \/ channels img = 2 \/ channels img = 3 \/ channels img = 4 ->
  len_of (data img) = width img * height img * channels img ->
  height img * (1 + width img * channels img) <= INT_MAX ->
  (exists bytes,
     png_save_internal img [] None None = Done (0, bytes)
     /\ png_load_mem bytes = Done (Some img))
  /\ (forall path fs, ~ elem_of path (fs_denied fs) ->
      exists fs',
        png_save (Some img) (Some path) fs = Done (0, fs')
        /\ png_load path fs' = Done (Some img)).
Proof.
  intros Hw Hh Hc Hdata Hmax.
  assert (Henc : encodable img) by (apply encodable_of_bound; lia).
  assert (Hsave : png_save_internal img [] None None
                  = Done (0, signature ++ flat_map chunk_bytes (saved_chunks img []))).
  { apply png_save_internal_new_file; [done | unfold INT_MAX in *; lia]. }
  pose proof (load_saved_chunks img Hw Hh Hc Hdata Hmax) as Hload.
  split.
  - eexists. split; [exact Hsave | exact Hload].
  - intros path fs Hpath. unfold png_save, save_to.
    rewrite bool_decide_eq_false_2 by done. rewrite Hsave. cbn [exec_bind fst snd].
    eexists. split; [reflexivity|].
    unfold png_load. cbn [fs_files]. rewrite lookup_insert_eq.
    rewrite saved_file_len by done. rewrite zlib_store_len, image_raw_len by done.
    unfold malloc_ok, PTRDIFF_MAX, INT_MAX in *.
    match goal with |- context [?a <=? ?b] =>
      replace (a <=? b) with true
        by (symmetry; apply Z.leb_le; Z.div_mod_to_equations; lia) end.
    exact Hload.
Qed.

Lemma png_inflate_zlib_no_memory buf e :
  malloc_ok e = false -> png_inflate_zlib buf e = None.
Proof.
  intros He. unfold png_inflate_zlib. rewrite He. cbn [negb].
  repeat case_match; reflexivity.
Qed.

(** When the raw size does not fit in [int] the decoder asks for a buffer of
    the wrapped size, which no allocation provides. *)
Lemma load_saved_chunks_overflow img :
  encodable img ->
  channels img = 1 \/ channels img = 2 \/ channels img = 3 \/ channels img = 4 ->
  INT_MAX < height img * (1 + width img * channels img) < 4294967296 - 400000 ->
  png_load_mem (signature ++ flat_map chunk_bytes (saved_chunks img []))
  = Done None.
Proof.
  intros Henc Hc Hbig. pose proof Henc as (Hw & Hh & _ & Hn & Hhn & Hdata).
  set (n := width img * channels img) in *.
  assert (Hn1 : 1 <= n) by (subst n; nia).
  assert (Hhle : height img <= height img * n) by nia.
  assert (Hwn : width img <= n) by (subst n; nia).
  unfold INT_MAX in *.
  pose proof (image_raw_len img Henc) as Hraw. fold n in Hraw.
  pose proof (zlib_store_len (image_raw img)) as Hzl. rewrite Hraw in Hzl.
  assert (Hzb : len_of (zlib_store (image_raw img)) < 4294967296)
    by (rewrite Hzl; Z.div_mod_to_equations; lia).
  destruct (ihdr_bytes_fields img) as (Hfw & Hfh & Hfc & Hfl);
    [unfold INT_MAX; lia | unfold INT_MAX; lia |].
  rewrite <- (app_nil_r (flat_map _ _)).
  rewrite png_load_mem_chunks.
  - rewrite saved_chunks_stored. unfold stored_image_chunks, written_chunk.
    rewrite collect_image_chunks by (unfold PTRDIFF_MAX; lia).
    rewrite collect_iend. cbn [exec_bind]. rewrite Hfw, Hfh, Hfc.
    unfold load_image. cbn [cs_idat cs_width cs_height cs_color_type].
    replace (width img =? 0) with false by (symmetry; apply Z.eqb_neq; lia).
    replace (height img =? 0) with false by (symmetry; apply Z.eqb_neq; lia).
    cbn [orb]. rewrite channels_of_color_type by done. fold n.
    rewrite png_inflate_zlib_no_memory; [done|].
    rewrite (to_int_small n) by (unfold INT_MAX; lia).
    rewrite (to_int_small (1 + n)) by (unfold INT_MAX; lia).
    unfold malloc_ok, PTRDIFF_MAX. apply Z.leb_gt.
    unfold to_size_t, to_int. Z.div_mod_to_equations. lia.
  - rewrite saved_chunks_stored. unfold stored_image_chunks.
    repeat constructor; cbn; try done; lia.
  - by left.
Qed.

Lemma tall_image_encodable : encodable tall_image.
Proof.
  unfold encodable, tall_image, INT_MAX. cbn [width height channels data].
  rewrite len_of_zeros by lia. lia.
Qed.

Lemma tall_image_size :
  INT_MAX < height tall_image * (1 + width tall_image * channels tall_image)
  < 4294967296 - 400000.
Proof. unfold tall_image, INT_MAX. cbn [width height channels]. lia. Qed.

(** C1, counterexample.  The image [tall_image] meets the conditions of the
    claim and is encoded without trouble, yet decoding the encoding returns
    no image: its raw size [2^30 * 2] does not fit in [int]. *)
Lemma roundtrip_fails_on_tall_image :
  1 <= width tall_image /\ 1 <= height tall_image /\ channels tall_image = 1
  /\ len_of (data tall_image)
     = width tall_image * height tall_image * channels tall_image
  /\ exists bytes,
       png_save_internal tall_image [] None None = Done (0, bytes)
       /\ png_load_mem bytes = Done None.
Proof.
  split; [unfold tall_image; cbn [width]; lia|].
  split; [unfold tall_image; cbn [height]; lia|].
  split; [reflexivity|].
  split; [exact (proj2 (proj2 (proj2 (proj2 (proj2 tall_image_encodable)))))|].
  exists (signature ++ flat_map chunk_bytes (saved_chunks tall_image [])).
  split.
  - exact (png_save_internal_new_file tall_image tall_image_encodable
             (proj2 tall_image_size)).
  - exact (load_saved_chunks_overflow tall_image tall_image_encodable
             (or_introl eq_refl) tall_image_size).
Qed.

(** ** What the chunk loop does not look at *)

Lemma collect_same_content cks cks' :
  Forall2 same_content cks cks' ->
  forall st, collect cks st = collect cks' st.
Proof.
  induction 1 as [|k k' rest rest' (Ht & Hp) Hrest IH]; intros st; [done|].
  cbn [collect]. rewrite <- Ht, <- Hp. rewrite !IH. reflexivity.
Qed.

(** C2, amended.  [png_load_mem] never compares a chunk's CRC-32, and a
    chunk whose declared length runs past the end of the input only ends the
    chunk loop: two inputs made of the signature, whole chunks and an end
    that overruns (fewer than eight bytes, or a chunk whose declared length
    runs past the end), whose chunks agree in type and payload, decode
    alike, whatever their CRC fields and whatever the overrunning bytes at
    their end. *)
Theorem load_mem_ignores_crc_and_overrun (cks cks' : list chunk) (tail tail' : list Z) :
  Forall chunk_wf cks -> Forall chunk_wf cks' ->
  Forall2 same_content cks cks' ->
  overruns tail -> overruns tail' ->
  png_load_mem (signature ++ flat_map chunk_bytes cks ++ tail)
  = png_load_mem (signature ++ flat_map chunk_bytes cks' ++ tail').
Proof.
  intros Hwf Hwf' Hsame Hov Hov'.
  rewrite !png_load_mem_chunks by done.
  by rewrite (collect_same_content cks cks' Hsame).
Qed.

(** C2, counterexample.  [bad_crc_file] has a chunk whose stored CRC-32 is
    not the CRC-32 of its type and payload and a chunk whose declared length
    runs past the end of the input, and [png_load_mem] returns the image. *)
Lemma bad_crc_and_overrun_accepted :
  png_read_be32_mem (ck_crc bad_ihdr) 0
    <> png_crc (ck_type bad_ihdr ++ ck_payload bad_ihdr)
  /\ 8 <= len_of cut_iend < 12 + png_read_be32_mem cut_iend 0
  /\ png_load_mem bad_crc_file = Done (Some grey_pixel).
Proof.
  split; [|split].
  - vm_compute. discriminate.
  - vm_compute. split; [discriminate | reflexivity].
  - vm_compute. reflexivity.
Qed.

(** ** Filter bytes above 4 *)

(** C3, amended.  A row whose filter byte is greater than 4 is left as it
    is, like a row of filter type 0, and decoding does not fail because of
    it: for a width and a height of at least 1, one to four channels and
    [height * (1 + width * channels) <= INT_MAX], a store-mode file whose
    rows all carry filter byte 0 or a byte greater than 4 decodes to the
    pixels as they lie in the rows. *)
Theorem unknown_filter_rows_decode (w h c : Z) (fs pixels : list Z) :
  1 <= w -> 1 <= h ->
  c = 1 \/ c = 2 \/ c = 3 \/ c = 4 ->
  len_of pixels = w * h * c ->
  h * (1 + w * c) <= INT_MAX ->
  len_of fs = h ->
  Forall (fun f => f = 0 \/ 4 < f) fs ->
  let img := {| width := w; height := h; channels := c; data := pixels |} in
  (forall f row prev, In f fs -> png_unfilter_row row prev f w c = row)
  /\ png_load_mem
       (signature
          ++ flat_map chunk_bytes
               (stored_image_chunks (ihdr_bytes img)
                  (rows_with_filters fs (w * c) pixels)))
     = Done (Some img).
Proof.
  intros Hw Hh Hc Hdata Hmax Hfs Hleave img. split.
  - intros f row prev Hin. apply png_unfilter_row_leaves.
    rewrite Forall_forall in Hleave. apply Hleave. by apply list_elem_of_In.
  - assert (Hn1 : 1 <= w * c) by nia.
    assert (Hhn : h <= h * (w * c)) by nia.
    assert (Hwn : w <= w * c) by nia.
    destruct (ihdr_bytes_fields img) as (Hfw & Hfh & Hfc & Hfl);
      [unfold INT_MAX in *; cbn; lia | unfold INT_MAX in *; cbn; lia |].
    apply load_stored_image; try done; try lia.
    rewrite Hfc. by apply channels_of_color_type.
Qed.

(** C3, counterexample.  The only row of [filter5_file] has filter byte 5,
    and [png_load_mem] returns the image. *)
Lemma filter_byte_5_accepted :
  png_inflate_zlib (zlib_store [5; 10; 20; 30]) 4 = Some [5; 10; 20; 30]
  /\ 4 < byte_at [5; 10; 20; 30] 0
  /\ png_load_mem filter5_file = Done (Some rgb_pixel).
Proof.
  split; [|split].
  - vm_compute. reflexivity.
  - vm_compute. reflexivity.
  - vm_compute. reflexivity.
Qed.

(** ** The IHDR fields that are not read *)









(** ** Buffer sizes *)

Lemma png_inflate_zlib_len buf e out :
  png_inflate_zlib buf e = Some out -> len_of out = e /\ e <= PTRDIFF_MAX.
Proof.
  unfold png_inflate_zlib. intros H.
  repeat (case_match; try discriminate).
  all: simplify_eq.
  all: match goal with
       | H1 : negb (len_of _ =? _) = false, H2 : negb (malloc_ok _) = false |- _ =>
         apply negb_false_iff in H1, H2; apply Z.eqb_eq in H1;
         unfold malloc_ok in H2; apply Z.leb_le in H2
       end.
  all: done.
Qed.

Lemma memcpy_len dst doff src soff n d :
  memcpy dst doff src soff n = Done d -> len_of d = len_of dst.
Proof.
  unfold memcpy. case_match eqn:E; [|discriminate]. intros [= <-].
  rewrite !andb_true_iff, !Z.leb_le in E. destruct E as ((((H1 & H2) & H3) & H4) & H5).
  rewrite !len_of_app, len_of_slice by lia.
  unfold len_of in *. rewrite length_take, length_drop. lia.
Qed.

Lemma load_rows_len ys : forall w c row_bytes raw img_data prev d,
  load_rows ys w c row_bytes raw img_data prev = Done d ->
  len_of d = len_of img_data.
Proof.
  induction ys as [|y ys IH]; intros w c row_bytes raw img_data prev d H.
  - cbn in H. by simplify_eq.
  - cbn [load_rows] in H.
    destruct (load raw _) as [filter|]; [|discriminate]. cbn [exec_bind] in H.
    destruct (read_range raw _ _) as [row|]; [|discriminate]. cbn [exec_bind] in H.
    destruct (match prev with Some _ => _ | None => _ end) as [pr|];
      [|discriminate]. cbn [exec_bind] in H.
    destruct (memcpy raw _ _ _ _) as [raw'|]; [|discriminate]. cbn [exec_bind] in H.
    destruct (memcpy img_data _ _ _ _) as [img'|] eqn:E; [|discriminate].
    cbn [exec_bind] in H. apply IH in H. apply memcpy_len in E. lia.
Qed.

Lemma png_create_spec w h c img :
  png_create w h c = Some img ->
  width img = w /\ height img = h /\ channels img = c
  /\ len_of (data img) = pixel_bytes w h c
  /\ pixel_bytes w h c <= PTRDIFF_MAX.
Proof.
  unfold png_create, malloc_ok. case_match eqn:E; [|discriminate]. intros [= <-].
  apply Z.leb_le in E. cbn [width height channels data]. repeat split; try done.
  unfold len_of. rewrite repeat_length. unfold pixel_bytes, to_size_t in *.
  pose proof (Z.mod_pos_bound (to_int (to_int (w * h) * c)) 18446744073709551616
                ltac:(lia)). lia.
Qed.

(** What a successful [load_image] went through. *)
Lemma load_image_some st img :
  load_image st = Done (Some img) ->
  exists idat raw,
    cs_idat st = Some idat
    /\ width img = cs_width st /\ height img = cs_height st
    /\ channels_of (cs_color_type st) = Some (channels img)
    /\ png_inflate_zlib idat
         (to_size_t (to_int (height img
                             * to_int (1 + to_int (width img * channels img)))))
       = Some raw
    /\ len_of (data img) = pixel_bytes (width img) (height img) (channels img)
    /\ pixel_bytes (width img) (height img) (channels img) <= PTRDIFF_MAX.
Proof.
  unfold load_image. intros H.
  destruct (cs_idat st) as [idat|]; [|discriminate].
  destruct (_ || _); [discriminate|].
  destruct (channels_of (cs_color_type st)) as [c|] eqn:Ec; [|discriminate].
  destruct (png_inflate_zlib idat _) as [raw|] eqn:Ei; [|discriminate].
  destruct (png_create _ _ c) as [im|] eqn:Ecr; [|discriminate].
  destruct (load_rows _ _ _ _ _ _ _) as [d|] eqn:El; [|discriminate].
  cbn [exec_bind] in H. simplify_eq. cbn [width height channels data].
  apply load_rows_len in El. apply png_create_spec in Ecr.
  destruct Ecr as (_ & _ & _ & Hd & Hm).
  exists idat, raw. repeat split; try done. lia.
Qed.

Lemma png_load_mem_some buf img :
  png_load_mem buf = Done (Some img) ->
  exists st, load_image st = Done (Some img).
Proof.
  unfold png_load_mem. intros H.
  destruct (len_of buf <? 8); [discriminate|].
  destruct (negb _); [discriminate|].
  destruct (read_chunks _ _ _ _) as [st|]; [|discriminate].
  by exists st.
Qed.

(** A returned image comes from the state the chunk loop leaves. *)
Lemma png_load_mem_state buf img :
  png_load_mem buf = Done (Some img) ->
  exists st,
    read_chunks (length buf) buf 8 chunk_state_init = Done st
    /\ load_image st = Done (Some img).
Proof.
  unfold png_load_mem. intros H.
  destruct (len_of buf <? 8); [discriminate|].
  destruct (negb _); [discriminate|].
  destruct (read_chunks _ _ _ _) as [st|]; [|discriminate].
  by exists st.
Qed.

(** C5, amended.  [png_load_mem] has no overflow check.  It takes
    [height * (1 + width * channels)] and [width * height * channels], of
    the width, height and channel count its chunk loop read from the input,
    in wrapping [int] arithmetic, converts them to [size_t] and allocates
    the inflate buffer and the image buffer from these values; it returns an
    image only when both allocations succeed and the IDAT bytes its chunk
    loop collected from the input inflate to exactly the first value, and
    the image buffer then has the second value as its size. *)
Theorem load_mem_sizes_wrap (buf : list Z) (img : png_image) :
  png_load_mem buf = Done (Some img) ->
  let raw_len :=
    to_size_t (to_int (height img * to_int (1 + to_int (width img * channels img)))) in
  raw_len <= PTRDIFF_MAX
  /\ pixel_bytes (width img) (height img) (channels img) <= PTRDIFF_MAX
  /\ (exists st idat raw,
        read_chunks (length buf) buf 8 chunk_state_init = Done st
        /\ cs_width st = width img /\ cs_height st = height img
        /\ channels_of (cs_color_type st) = Some (channels img)
        /\ cs_idat st = Some idat
        /\ png_inflate_zlib idat raw_len = Some raw
        /\ len_of raw = raw_len)
  /\ len_of (data img) = pixel_bytes (width img) (height img) (channels img).
Proof.
  intros H raw_len. apply png_load_mem_state in H. destruct H as (st & Hst & H).
  apply load_image_some in H.
  destruct H as (idat & raw & Hidat & Hw & Hh & Hc & Hinf & Hd & Hm).
  pose proof (png_inflate_zlib_len _ _ _ Hinf) as (Hl & Hle).
  fold raw_len in Hinf, Hl, Hle.
  split; [done|]. split; [done|]. split; [|done].
  exists st, idat, raw. by rewrite Hw, Hh.
Qed.

(** C5, counterexample.  For [wide_file] both size computations overflow
    [int], and [png_load_mem] returns an image all the same, with a buffer of
    four bytes. *)
Lemma overflowing_sizes_accepted :
  png_load_mem wide_file = Done (Some wide_image)
  /\ INT_MAX < width wide_image * height wide_image * channels wide_image
  /\ INT_MAX < height wide_image * (1 + width wide_image * channels wide_image).
Proof.
  split; [vm_compute; reflexivity|]. split; reflexivity.
Qed.

(** C9, amended.  An image made by [png_create], [png_clone] or a
    successful [png_load_mem] has a pixel buffer of exactly [pixel_bytes]
    bytes, the value of [width * height * channels] in wrapping [int]
    arithmetic converted to [size_t]; this is [width * height * channels]
    whenever that product and [width * height] lie between 0 and [INT_MAX].
    The channel count is the one given at construction, [png_clone] keeps
    it, and [png_load_mem] yields 1, 2, 3 or 4. *)
Theorem image_buffer_size :
  (forall w h c img,
     png_create w h c = Some img ->
     width img = w /\ height img = h /\ channels img = c
     /\ len_of (data img) = pixel_bytes w h c)
  /\ (forall src img,
        png_clone (Some src) = Done (Some img) ->
        width img = width src /\ height img = height src
        /\ channels img = channels src
        /\ len_of (data img)
           = pixel_bytes (width src) (height src) (channels src))
  /\ (forall buf img,
        png_load_mem buf = Done (Some img) ->
        len_of (data img) = pixel_bytes (width img) (height img) (channels img)
        /\ (channels img = 1 \/ channels img = 2 \/ channels img = 3
            \/ channels img = 4))
  /\ (forall w h c,
        0 <= w * h <= INT_MAX -> 0 <= w * h * c <= INT_MAX ->
        pixel_bytes w h c = w * h * c).
Proof.
  split; [|split; [|split]].
  - intros w h c img H. apply png_create_spec in H. tauto.
  - intros src img H. unfold png_clone in H.
    destruct (png_create _ _ _) as [clone|] eqn:Ec; [|discriminate].
    apply png_create_spec in Ec. destruct Ec as (Hw & Hh & Hc & Hd & _).
    destruct (memcpy _ _ _ _ _) as [d|] eqn:Em; [|discriminate].
    cbn [exec_bind] in H. simplify_eq. cbn [width height channels data].
    apply memcpy_len in Em. repeat split; try done. lia.
  - intros buf img H. apply png_load_mem_some in H. destruct H as (st & H).
    apply load_image_some in H.
    destruct H as (idat & raw & _ & _ & _ & Hct & _ & Hd & _).
    split; [done|]. apply channels_of_cases in Hct. lia.
  - apply pixel_bytes_exact.
Qed.

(** C9, counterexample.  [png_create] with width [2^30 + 1], height 1 and
    four channels returns an image whose buffer has four bytes, not
    [width * height * channels]. *)
Lemma created_buffer_too_small :
  exists img,
    png_create 1073741825 1 4 = Some img
    /\ len_of (data img) = 4
    /\ len_of (data img) <> width img * height img * channels img.
Proof.
  eexists. split; [vm_compute; reflexivity|]. split; [reflexivity|]. discriminate.
Qed.

(** ** NULL arguments *)

(** C10.  [png_free(NULL)] leaves the heap as it is, [png_clone(NULL)]
    returns NULL, and [png_save] and [png_save_with_text] return -1 and
    leave every file as it is when the image or the path is NULL. *)
Theorem null_arguments :
  (forall heap, png_free None heap = Done heap)
  /\ png_clone None = Done None
  /\ (forall path fs, png_save None path fs = Done (-1, fs))
  /\ (forall img fs, png_save img None fs = Done (-1, fs))
  /\ (forall path keyword text fs,
        png_save_with_text None path keyword text fs = Done (-1, fs))
  /\ (forall img keyword text fs,
        png_save_with_text img None keyword text fs = Done (-1, fs)).
Proof.
  repeat split; try done.
  - intros [img|] fs; reflexivity.
  - intros [img|] keyword text fs; reflexivity.
Qed.

(** ** The theorems at concrete inputs *)

Lemma png_roundtrip_witness :
  (exists bytes,
     png_save_internal rgba_3x2 [] None None = Done (0, bytes)
     /\ png_load_mem bytes = Done (Some rgba_3x2))
  /\ (forall path fs, ~ elem_of path (fs_denied fs) ->
      exists fs',
        png_save (Some rgba_3x2) (Some path) fs = Done (0, fs')
        /\ png_load path fs' = Done (Some rgba_3x2)).
Proof.
  apply (png_roundtrip rgba_3x2).
  - simpl. lia.
  - simpl. lia.
  - right. right. right. reflexivity.
  - reflexivity.
  - unfold INT_MAX. simpl. lia.
Defined.

Lemma load_mem_ignores_crc_and_overrun_witness :
  png_load_mem
    (signature
       ++ flat_map chunk_bytes
            [bad_ihdr; written_chunk type_IDAT (zlib_store (image_raw grey_pixel))]
       ++ cut_iend)
  = png_load_mem
      (signature
         ++ flat_map chunk_bytes
              [written_chunk type_IHDR (ihdr_bytes grey_pixel);
               written_chunk type_IDAT (zlib_store (image_raw grey_pixel))]
         ++ []).
Proof.
  apply load_mem_ignores_crc_and_overrun.
  - repeat constructor; vm_compute; reflexivity.
  - repeat constructor; vm_compute; reflexivity.
  - repeat constructor.
  - right. vm_compute. reflexivity.
  - left. vm_compute. reflexivity.
Defined.

Lemma unknown_filter_rows_decode_witness :
  (forall f row prev, In f [5] -> png_unfilter_row row prev f 1 3 = row)
  /\ png_load_mem
       (signature
          ++ flat_map chunk_bytes
               (stored_image_chunks (ihdr_bytes rgb_pixel)
                  (rows_with_filters [5] (1 * 3) [10; 20; 30])))
     = Done (Some rgb_pixel).
Proof.
  apply (unknown_filter_rows_decode 1 1 3 [5] [10; 20; 30]).
  - lia.
  - lia.
  - right. right. left. reflexivity.
  - reflexivity.
  - unfold INT_MAX. lia.
  - reflexivity.
  - constructor; [right; lia | constructor].
Defined.


Lemma load_mem_sizes_wrap_witness :
  5 <= PTRDIFF_MAX
  /\ pixel_bytes 1073741825 1 4 <= PTRDIFF_MAX
  /\ (exists st idat raw,
        read_chunks (length wide_file) wide_file 8 chunk_state_init = Done st
        /\ cs_width st = 1073741825 /\ cs_height st = 1
        /\ channels_of (cs_color_type st) = Some 4
        /\ cs_idat st = Some idat
        /\ png_inflate_zlib idat 5 = Some raw
        /\ len_of raw = 5)
  /\ len_of [1; 2; 3; 4] = pixel_bytes 1073741825 1 4.
Proof.
  assert (H : png_load_mem wide_file = Done (Some wide_image))
    by (vm_compute; reflexivity).
  destruct (load_mem_sizes_wrap wide_file wide_image H) as (H1 & H2 & H3 & H4).
  split; [unfold PTRDIFF_MAX; lia|]. split; [exact H2|]. split; [exact H3|exact H4].
Defined.

Lemma inflate_backref_step_witness :
  exists out',
    inflate_symbols 2 (backref_bits 1 0 5) fixed_litlen fixed_dist 7 [65; 66]
    = inflate_symbols 1 (backref_bits 2 0 1) fixed_litlen fixed_dist 7 out'
    /\ len_of out' = len_of [65; 66] + Z.max 0 5
    /\ slice out' 0 (len_of [65; 66]) = [65; 66]
    /\ forall i, 0 <= i < 5 ->
         byte_at out' (len_of [65; 66] + i) = byte_at out' (len_of [65; 66] + i - 2).
Proof.
  assert (Hsym : png_huffman_decode (backref_bits 1 0 5) fixed_litlen
                 = Some (259, backref_bits 2 16 6)) by (vm_compute; reflexivity).
  assert (Hdec : decode_backref (backref_bits 2 16 6) fixed_dist 259
                 = Some (5, 2, backref_bits 2 0 1)) by (vm_compute; reflexivity).
  destruct (inflate_backref_step 1 _ _ _ fixed_litlen fixed_dist 7 [65; 66] _ _ _
              Hsym ltac:(lia) Hdec) as (_ & Hgo & _).
  apply Hgo.
  - vm_compute. split; discriminate.
  - vm_compute. discriminate.
Defined.

Lemma paeth_row_reconstruction_witness :
  byte_at (png_unfilter_row [5; 5; 5] (Some [10; 20; 30]) 4 3 1) 1
  = (5 + PaethPredictor 15 20 10) mod 256.
Proof.
  apply (paeth_row_reconstruction [5; 5; 5] (Some [10; 20; 30]) 3 1 1).
  - lia.
  - unfold INT_MAX. lia.
  - reflexivity.
  - intros p [= <-]. split; [reflexivity|]. repeat constructor; unfold is_byte; lia.
  - lia.
Defined.

Lemma png_huffman_build_spec_witness :
  (png_huffman_build [2; 1; 3; 3] = None <->
     Exists (fun l => 15 < l) [2; 1; 3; 3]
     \/ exists len : nat, (1 <= len <= 15)%nat /\ kraft_left [2; 1; 3; 3] len < 0)
  /\ (Forall (fun l => l <= 15) [2; 1; 3; 3] -> 0 < kraft_left [2; 1; 3; 3] 15 ->
      is_Some (png_huffman_build [2; 1; 3; 3]))
  /\ (Forall (fun l => l = 0) [2; 1; 3; 3] -> is_Some (png_huffman_build [2; 1; 3; 3]))
  /\ (forall h, png_huffman_build [2; 1; 3; 3] = Some h ->
        (forall len, 0 <= len <= 15 ->
           byte_at (h_count h) len = code_count [2; 1; 3; 3] len)
        /\ slice (h_symbol h) 0 (len_of (canonical_symbols [2; 1; 3; 3]))
           = canonical_symbols [2; 1; 3; 3]).
Proof.
  apply (png_huffman_build_spec [2; 1; 3; 3]).
  - repeat constructor; unfold is_byte; lia.
  - vm_compute. discriminate.
Defined.

Lemma image_buffer_size_witness : pixel_bytes 2 2 3 = 2 * 2 * 3.
Proof.
  apply (proj2 (proj2 (proj2 image_buffer_size)) 2 2 3).
  - unfold INT_MAX. lia.
  - unfold INT_MAX. lia.
Defined.

(** * Further properties of the codec *)

(** ** Adler-32 in closed form *)

Lemma adler_fold_closed buf : forall a b,
  fold_left adler_step buf (a mod 65521, b mod 65521)
  = ((a + byte_sum buf) mod 65521,
     (b + len_of buf * a + weighted_sum buf) mod 65521).
Proof.
  induction buf as [|d buf IH]; intros a b.
  - cbn [fold_left byte_sum fold_right weighted_sum]. change (len_of []) with 0.
    f_equal; f_equal; lia.
  - assert (Ea : (a mod 65521 + d) mod 65521 = (a + d) mod 65521)
      by apply Zplus_mod_idemp_l.
    assert (Eb : (b mod 65521 + (a + d) mod 65521) mod 65521
                 = (b + (a + d)) mod 65521) by (symmetry; apply Zplus_mod).
    cbn [fold_left]. unfold adler_step at 2. cbn [fst snd]. rewrite Ea, Eb.
    rewrite IH. change (byte_sum (d :: buf)) with (d + byte_sum buf).
    cbn [weighted_sum].
    replace (len_of (d :: buf)) with (len_of buf + 1) by (unfold len_of; cbn; lia).
    f_equal; f_equal; lia.
Qed.

(** X1.  [png_adler32] returns [b * 65536 + a], where [a] is one plus the sum
    of the bytes and [b] the number of bytes plus their weighted sum, both
    modulo 65521. *)
Theorem png_adler32_closed_form (buf : list Z) :
  png_adler32 buf
  = ((len_of buf + weighted_sum buf) mod 65521) * 65536
    + (1 + byte_sum buf) mod 65521.
Proof.
  unfold png_adler32.
  change (1, 0) with (1 mod 65521, 0 mod 65521). rewrite adler_fold_closed.
  cbn [fst snd].
  pose proof (Z.mod_pos_bound (1 + byte_sum buf) 65521 ltac:(lia)).
  pose proof (Z.mod_pos_bound (0 + len_of buf * 1 + weighted_sum buf) 65521 ltac:(lia)).
  rewrite Z.shiftl_mul_pow2 by lia. rewrite to_u32_small by lia.
  rewrite lor_mul_add by lia.
  replace (0 + len_of buf * 1 + weighted_sum buf) with (len_of buf + weighted_sum buf)
    by lia.
  reflexivity.
Qed.

(** ** Big-endian fields *)

Lemma be32_bytes_value v :
  png_read_be32_mem (be32_bytes v) 0 = v mod 4294967296.
Proof.
  unfold png_read_be32_mem, be32_bytes.
  cbv [byte_at nth Z.to_nat Z.add Pos.to_nat Pos.iter_op Nat.add Pos.add Pos.succ].
  rewrite be32_combine; rewrite ?land_255, ?shiftr_div by lia;
    try (apply Z.mod_pos_bound; lia).
  change (2 ^ 24) with 16777216. change (2 ^ 16) with 65536. change (2 ^ 8) with 256.
  Z.div_mod_to_equations. lia.
Qed.

(** X2.  The four bytes [png_write_chunk] writes for a length or a CRC are
    read back by [png_read_be32_mem], wherever they lie in a buffer, as the
    value modulo [2^32]. *)
Theorem be32_write_read (pre post : list Z) (v : Z) :
  png_read_be32_mem (pre ++ be32_bytes v ++ post) (len_of pre)
  = v mod 4294967296.
Proof.
  rewrite <- (Z.add_0_r (len_of pre)).
  rewrite png_read_be32_mem_app; [apply be32_bytes_value | lia |].
  unfold len_of. rewrite be32_bytes_length. lia.
Qed.

(** ** The CRC table and the bitwise CRC *)

Lemma crc_bits_S k c : crc_bits (S k) c = crc_bits k (crc_bit c).
Proof. reflexivity. Qed.

Lemma crc_bit_lxor x y : crc_bit (Z.lxor x y) = Z.lxor (crc_bit x) (crc_bit y).
Proof.
  unfold crc_bit. rewrite Z.lxor_spec, Z.shiftr_lxor.
  set (a := Z.shiftr x 1). set (b := Z.shiftr y 1).
  destruct (Z.testbit x 0), (Z.testbit y 0); cbn [xorb];
    apply Z.bits_inj'; intros n Hn; rewrite ?Z.lxor_spec;
    repeat destruct (Z.testbit _ n); reflexivity.
Qed.

Lemma crc_bits_lxor k : forall x y,
  crc_bits k (Z.lxor x y) = Z.lxor (crc_bits k x) (crc_bits k y).
Proof.
  induction k as [|k IH]; intros x y; [done|].
  rewrite !crc_bits_S, crc_bit_lxor. apply IH.
Qed.

Lemma crc_bit_double h : crc_bit (2 * h) = h.
Proof.
  unfold crc_bit. rewrite Z.testbit_even_0.
  rewrite Z.shiftr_div_pow2 by lia. change (2 ^ 1) with 2.
  rewrite Z.mul_comm. apply Z.div_mul. lia.
Qed.

Lemma crc_bits_shift (k : nat) : forall h, crc_bits k (2 ^ Z.of_nat k * h) = h.
Proof.
  induction k as [|k IH]; intros h.
  - cbn [crc_bits]. change (2 ^ Z.of_nat 0) with 1. lia.
  - rewrite crc_bits_S.
    replace (2 ^ Z.of_nat (S k) * h) with (2 * (2 ^ Z.of_nat k * h)).
    + rewrite crc_bit_double. apply IH.
    + rewrite Nat2Z.inj_succ, Z.pow_succ_r by lia. lia.
Qed.

Lemma png_crc_table_entry k :
  0 <= k < 256 -> byte_at png_crc_table k = crc_bits 8 k.
Proof.
  intros Hk.
  change png_crc_table with png_make_crc_table.
  unfold byte_at, png_make_crc_table.
  rewrite (nth_indep _ 0 (crc_bits 8 (Z.of_nat 0)))
    by (rewrite length_map, length_seq; lia).
  rewrite (map_nth (fun n => crc_bits 8 (Z.of_nat n))).
  rewrite seq_nth by lia. f_equal. lia.
Qed.

(** The register with byte [b] mixed in splits into its low byte and the
    upper 24 bits of [c]. *)
Lemma lxor_low_byte c b :
  is_byte b ->
  Z.lxor c b = Z.lxor (Z.land (Z.lxor c b) 0xff) (2 ^ 8 * Z.shiftr c 8).
Proof.
  intros Hb. apply Z.bits_inj'. intros n Hn.
  rewrite !Z.lxor_spec, Z.land_spec, Z.lxor_spec.
  change 255 with (Z.ones 8). rewrite Z.mul_comm.
  destruct (decide (n < 8)) as [Hlt|Hge].
  - rewrite Z.ones_spec_low by lia. rewrite Z.mul_pow2_bits_low by lia.
    by rewrite andb_true_r, xorb_false_r.
  - rewrite Z.ones_spec_high by lia. rewrite Z.mul_pow2_bits by lia.
    rewrite Z.shiftr_spec by lia. rewrite andb_false_r, xorb_false_l.
    replace (n - 8 + 8) with n by lia.
    assert (Z.testbit b n = false) as ->; [|by rewrite xorb_false_r].
    destruct (decide (b = 0)) as [->|Hne]; [apply Z.bits_0|].
    apply Z.bits_above_log2; [unfold is_byte in Hb; lia|].
    apply Z.lt_le_trans with 8; [|lia].
    apply Z.log2_lt_pow2; unfold is_byte in Hb; lia.
Qed.

Lemma table_step_bitwise c b :
  is_byte b ->
  Z.lxor (byte_at png_crc_table (Z.land (Z.lxor c b) 0xff)) (Z.shiftr c 8)
  = crc_byte c b.
Proof.
  intros Hb. unfold crc_byte.
  rewrite (lxor_low_byte c b Hb) at 2.
  rewrite crc_bits_lxor. rewrite (crc_bits_shift 8).
  rewrite png_crc_table_entry; [done|].
  rewrite land_255. apply Z.mod_pos_bound. lia.
Qed.

Lemma lxor_u32 a b :
  0 <= a < 4294967296 -> 0 <= b < 4294967296 -> 0 <= Z.lxor a b < 4294967296.
Proof.
  intros Ha Hb. assert (H0 : 0 <= Z.lxor a b) by (apply Z.lxor_nonneg; lia).
  split; [done|].
  destruct (decide (Z.lxor a b = 0)) as [->|Hne]; [lia|].
  change 4294967296 with (2 ^ 32). apply Z.log2_lt_pow2; [lia|].
  eapply Z.le_lt_trans; [apply Z.log2_lxor; lia|].
  apply Z.max_lub_lt.
  - destruct (decide (a = 0)) as [->|]; [done|]. apply Z.log2_lt_pow2; lia.
  - destruct (decide (b = 0)) as [->|]; [done|]. apply Z.log2_lt_pow2; lia.
Qed.

Lemma crc_bit_u32 c : 0 <= c < 4294967296 -> 0 <= crc_bit c < 4294967296.
Proof.
  intros Hc. unfold crc_bit.
  assert (0 <= Z.shiftr c 1 < 2147483648).
  { rewrite Z.shiftr_div_pow2 by lia. change (2 ^ 1) with 2.
    Z.div_mod_to_equations. lia. }
  case_match; [apply lxor_u32; lia | lia].
Qed.

Lemma crc_bits_u32 k : forall c,
  0 <= c < 4294967296 -> 0 <= crc_bits k c < 4294967296.
Proof.
  induction k as [|k IH]; intros c Hc; [done|].
  rewrite crc_bits_S. apply IH. by apply crc_bit_u32.
Qed.

Lemma crc_byte_u32 c b :
  0 <= c < 4294967296 -> is_byte b -> 0 <= crc_byte c b < 4294967296.
Proof.
  intros Hc Hb. apply crc_bits_u32. apply lxor_u32; [done|].
  unfold is_byte in Hb. lia.
Qed.

Lemma png_update_crc_fold buf : forall c,
  0 <= c < 4294967296 -> Forall is_byte buf ->
  png_update_crc c buf = fold_left crc_byte buf c
  /\ 0 <= png_update_crc c buf < 4294967296.
Proof.
  unfold png_update_crc.
  induction buf as [|b buf IH]; intros c Hc Hb; [done|].
  inversion Hb as [|? ? Hb1 Hb2]; subst.
  cbn [fold_left]. rewrite table_step_bitwise by done.
  apply IH; [by apply crc_byte_u32 | done].
Qed.

(** X3.  The table-driven CRC is the bitwise CRC: [png_update_crc] mixes each
    byte into the low end of the register and divides by the polynomial
    [0xedb88320] eight times, one bit at a time as [png_make_crc_table]
    does; the register and the value of [png_crc] stay below [2^32]. *)
Theorem png_crc_bitwise (c : Z) (buf : list Z) :
  0 <= c < 4294967296 -> Forall is_byte buf ->
  png_update_crc c buf = fold_left crc_byte buf c
  /\ 0 <= png_update_crc c buf < 4294967296
  /\ png_crc buf = Z.lxor (fold_left crc_byte buf 0xffffffff) 0xffffffff
  /\ 0 <= png_crc buf < 4294967296.
Proof.
  intros Hc Hb.
  destruct (png_update_crc_fold buf c Hc Hb) as (E & R).
  destruct (png_update_crc_fold buf 0xffffffff ltac:(lia) Hb) as (E1 & R1).
  split; [done|]. split; [done|]. unfold png_crc. rewrite <- E1.
  split; [done|]. apply lxor_u32; lia.
Qed.

(** ** The bit reader reads the stream *)

Lemma pow2_pos k : 0 <= k -> 0 < 2 ^ k.
Proof. intros. apply Z.pow_pos_nonneg; lia. Qed.

Lemma mod_pow2_split a k j :
  0 <= k -> 0 <= j ->
  a mod 2 ^ (k + j) = a mod 2 ^ k + 2 ^ k * ((a / 2 ^ k) mod 2 ^ j).
Proof.
  intros Hk Hj. rewrite Z.pow_add_r by done.
  pose proof (pow2_pos k Hk). pose proof (pow2_pos j Hj).
  apply Z.rem_mul_r; lia.
Qed.

Lemma mod_pow2_mod a n k : 0 <= n <= k -> (a mod 2 ^ k) mod 2 ^ n = a mod 2 ^ n.
Proof.
  intros Hn. replace k with (n + (k - n)) by lia.
  rewrite mod_pow2_split by lia. pose proof (pow2_pos n ltac:(lia)).
  rewrite (Z.mul_comm (2 ^ n)), Z.mod_add by lia. apply Z.mod_mod. lia.
Qed.

Lemma mod_pow2_div a n k :
  0 <= n <= k -> (a mod 2 ^ k) / 2 ^ n = (a / 2 ^ n) mod 2 ^ (k - n).
Proof.
  intros Hn. replace k with (n + (k - n)) at 1 by lia.
  rewrite mod_pow2_split by lia. pose proof (pow2_pos n ltac:(lia)).
  rewrite Z.add_comm, (Z.mul_comm (2 ^ n)), Z.div_add_l by lia.
  rewrite (Z.div_small (a mod 2 ^ n)) by (apply Z.mod_pos_bound; lia). lia.
Qed.

Lemma div_pow2_add a c k : 0 <= c -> 0 <= k -> a / 2 ^ c / 2 ^ k = a / 2 ^ (c + k).
Proof.
  intros Hc Hk. rewrite Z.pow_add_r by done.
  pose proof (pow2_pos c Hc). pose proof (pow2_pos k Hk).
  apply Z.div_div; lia.
Qed.

Lemma stream_value_nonneg data : Forall is_byte data -> 0 <= stream_value data.
Proof.
  induction 1 as [|d rest Hd _ IH]; cbn [stream_value]; unfold is_byte in *; lia.
Qed.

(** Byte [p] of the buffer is bits [8 p] to [8 p + 7] of the stream. *)
Lemma stream_value_byte data : Forall is_byte data -> forall p : nat,
  (p < length data)%nat ->
  (stream_value data / 2 ^ (8 * Z.of_nat p)) mod 256 = nth p data 0.
Proof.
  induction 1 as [|d rest Hd _ IH]; intros p Hp; [cbn in Hp; lia|].
  cbn [stream_value]. unfold is_byte in Hd. destruct p as [|p].
  - cbn [nth]. change (2 ^ (8 * Z.of_nat 0)) with 1. rewrite Z.div_1_r.
    replace (d + 256 * stream_value rest) with (d + stream_value rest * 256) by lia.
    rewrite Z.mod_add by lia. apply Z.mod_small. lia.
  - cbn [nth]. cbn [length] in Hp.
    replace (8 * Z.of_nat (S p)) with (8 + 8 * Z.of_nat p) by lia.
    rewrite <- div_pow2_add by lia. change (2 ^ 8) with 256.
    replace (d + 256 * stream_value rest) with (stream_value rest * 256 + d) by lia.
    rewrite Z.div_add_l by lia.
    rewrite (Z.div_small d) by lia. rewrite Z.add_0_r. apply IH. lia.
Qed.

Lemma stream_value_byte_at data p :
  Forall is_byte data -> 0 <= p < len_of data ->
  (stream_value data / 2 ^ (8 * p)) mod 2 ^ 8 = byte_at data p.
Proof.
  intros Hb Hp. unfold byte_at, len_of in *.
  rewrite <- (stream_value_byte data Hb (Z.to_nat p)) by lia.
  rewrite Z2Nat.id by lia. reflexivity.
Qed.

Lemma fill_step_sync bs n :
  bs_sync bs -> bitcount bs < n <= 25 -> bytepos bs < len_of (bs_data bs) ->
  let bs1 := {| bs_data := bs_data bs;
                bytepos := bytepos bs + 1;
                bitbuf := Z.lor (bitbuf bs)
                            (to_u32 (Z.shiftl (byte_at (bs_data bs) (bytepos bs))
                                              (bitcount bs)));
                bitcount := bitcount bs + 8 |} in
  bs_sync bs1 /\ bits_consumed bs1 = bits_consumed bs.
Proof.
  intros ((Hp & Hk) & Hb & H32 & Hc & Hbuf) Hn Hlt bs1.
  assert (Ec : bits_consumed bs1 = bits_consumed bs).
  { unfold bits_consumed, bs1. cbn [bytepos bitcount]. lia. }
  split; [|done]. unfold bs_sync. rewrite Ec.
  split; [unfold bs_wf, bs1; cbn [bs_data bytepos bitcount]; lia|].
  split; [done|]. split; [cbn [bitcount bs1]; lia|]. split; [done|].
  unfold next_bits. rewrite Ec. cbn [bitbuf bitcount bs_data bs1].
  set (k := bitcount bs) in *.
  set (c := bits_consumed bs) in *.
  pose proof (byte_at_is_byte (bs_data bs) (bytepos bs) Hb) as Hbyte.
  unfold is_byte in Hbyte.
  pose proof (pow2_pos k Hk) as Hpk.
  assert (H24 : 2 ^ k <= 2 ^ 24) by (apply Z.pow_le_mono_r; lia).
  change (2 ^ 24) with 16777216 in H24.
  rewrite Z.shiftl_mul_pow2 by done.
  rewrite to_u32_small by nia.
  rewrite <- Z.shiftl_mul_pow2 by done.
  rewrite lor_shiftl_add.
  2: done.
  2: { rewrite Hbuf. unfold next_bits. apply Z.mod_pos_bound. lia. }
  rewrite mod_pow2_split by lia.
  rewrite div_pow2_add by lia.
  replace (c + k) with (8 * bytepos bs) by (unfold c, bits_consumed, k; lia).
  rewrite stream_value_byte_at by (done || lia).
  rewrite Hbuf. unfold next_bits. fold c. lia.
Qed.

Lemma fill_loop_sync n : forall fuel bs,
  bs_sync bs -> n <= 25 ->
  bs_sync (fill_loop fuel bs n)
  /\ bs_data (fill_loop fuel bs n) = bs_data bs
  /\ bits_consumed (fill_loop fuel bs n) = bits_consumed bs.
Proof.
  induction fuel as [|fuel IH]; intros bs Hs Hn; [done|].
  cbn [fill_loop]. case_match eqn:E; [|done].
  apply andb_true_iff in E. destruct E as (E1 & E2). apply Z.ltb_lt in E1, E2.
  destruct (fill_step_sync bs n Hs ltac:(lia) E2) as (Hs1 & Hc1).
  destruct (IH _ Hs1 Hn) as (Hs2 & Hd2 & Hc2).
  split; [done|]. split; [by rewrite Hd2|]. by rewrite Hc2, Hc1.
Qed.

(** [n] turns fill the register with [n] bits or use up the input. *)
Lemma fill_loop_reaches n : forall fuel bs,
  n - bitcount bs <= Z.of_nat fuel ->
  n <= bitcount (fill_loop fuel bs n)
  \/ len_of (bs_data (fill_loop fuel bs n)) <= bytepos (fill_loop fuel bs n).
Proof.
  induction fuel as [|fuel IH]; intros bs Hf.
  - left. cbn [fill_loop]. lia.
  - cbn [fill_loop]. case_match eqn:E.
    + apply IH. cbn [bitcount]. lia.
    + apply andb_false_iff in E. destruct E as [E|E];
        [apply Z.ltb_ge in E | apply Z.ltb_ge in E]; [left|right]; lia.
Qed.

Lemma fill_enough bs n :
  bs_wf bs -> n <= bits_left bs -> n <= bitcount (fill_loop (Z.to_nat n) bs n).
Proof.
  intros Hwf Hn.
  destruct (fill_loop_inv n (Z.to_nat n) bs Hwf) as ((Hp & Hk) & Hbl).
  destruct (fill_loop_reaches n (Z.to_nat n) bs) as [H|H]; [destruct Hwf; lia|done|].
  unfold bits_left in Hbl at 1. lia.
Qed.

Lemma fill_short bs n :
  bs_wf bs -> bits_left bs < n -> bitcount (fill_loop (Z.to_nat n) bs n) < n.
Proof.
  intros Hwf Hn.
  destruct (fill_loop_inv n (Z.to_nat n) bs Hwf) as ((Hp & Hk) & Hbl).
  unfold bits_left in Hbl at 1. lia.
Qed.

(** What [png_bitstream_get] hands out and the state it leaves. *)
Lemma get_sync bs n :
  bs_sync bs -> 0 <= n <= 25 -> n <= bits_left bs ->
  exists bs',
    png_bitstream_get bs n = Some (next_bits bs n, bs')
    /\ bs_sync bs'
    /\ bs_data bs' = bs_data bs
    /\ bits_consumed bs' = bits_consumed bs + n.
Proof.
  intros Hs Hn Hleft. unfold png_bitstream_get, png_bitstream_fill.
  destruct (n =? 0) eqn:E0.
  { apply Z.eqb_eq in E0. subst n. exists bs.
    unfold next_bits. change (2 ^ 0) with 1. rewrite Z.mod_1_r.
    split; [done|]. split; [done|]. split; [done|lia]. }
  apply Z.eqb_neq in E0.
  pose proof Hs as (Hwf & _).
  pose proof (fill_enough bs n Hwf Hleft) as Hfull.
  destruct (fill_loop_sync n (Z.to_nat n) bs Hs ltac:(lia)) as (Hs1 & Hd1 & Hc1).
  set (bs1 := fill_loop (Z.to_nat n) bs n) in *.
  rewrite (proj2 (Z.leb_le _ _) Hfull).
  destruct Hs1 as ((Hp1 & Hk1) & Hb1 & H32 & Hcn & Hbuf).
  eexists. split; [|split; [|split]].
  - f_equal. f_equal. rewrite land_mask by lia. rewrite Hbuf. unfold next_bits.
    rewrite Hd1, Hc1. apply mod_pow2_mod. lia.
  - unfold bs_sync, bs_wf, bits_consumed, next_bits.
    cbn [bs_data bytepos bitbuf bitcount].
    split; [lia|]. split; [done|]. split; [lia|].
    unfold bits_consumed in Hcn. split; [lia|].
    rewrite Hbuf. unfold next_bits, bits_consumed.
    rewrite Z.shiftr_div_pow2 by lia. rewrite mod_pow2_div by lia.
    rewrite div_pow2_add by lia. cbn [bs_data bytepos bitbuf bitcount].
    f_equal. f_equal. f_equal. lia.
  - exact Hd1.
  - unfold bits_consumed in *. cbn [bytepos bitcount]. lia.
Qed.

(** X4.  [png_bitstream_get] reads the stream least significant bit first:
    when the register is in step with the stream and [n] bits, at most 25,
    are left, it returns the next [n] bits as a number, the first bit in the
    lowest place, and moves on by [n] bits. *)
Theorem png_bitstream_get_reads_stream (bs : png_bitstream) (n : Z) :
  bs_sync bs -> 0 <= n <= 25 -> n <= bits_left bs ->
  exists bs',
    png_bitstream_get bs n
    = Some ((stream_value (bs_data bs) / 2 ^ bits_consumed bs) mod 2 ^ n, bs')
    /\ bs_sync bs'
    /\ bs_data bs' = bs_data bs
    /\ bits_consumed bs' = bits_consumed bs + n.
Proof. apply get_sync. Qed.

(** X5.  [png_bitstream_get] of [n] bits, for [n] from 1 to 31, fails
    exactly when fewer than [n] bits are left, and a successful read uses up
    exactly [n] bits. *)
Theorem png_bitstream_get_accounting (bs : png_bitstream) (n : Z) :
  bs_wf bs -> 0 < n <= 31 ->
  match png_bitstream_get bs n with
  | None => bits_left bs < n
  | Some (v, bs') =>
    n <= bits_left bs /\ bits_left bs' = bits_left bs - n /\ bs_wf bs' /\ 0 <= v
  end.
Proof.
  intros Hwf Hn.
  destruct (png_bitstream_get bs n) as [[v bs']|] eqn:E.
  - destruct (png_bitstream_get_inv _ _ _ _ E ltac:(lia) Hwf) as (Hw & Hb & Hv).
    split; [|done]. destruct Hw as (Hp & Hk). unfold bits_left in Hb at 1. lia.
  - unfold png_bitstream_get, png_bitstream_fill in E.
    rewrite (proj2 (Z.eqb_neq n 0)) in E by lia.
    destruct (n <=? bitcount (fill_loop (Z.to_nat n) bs n)) eqn:El; [discriminate|].
    apply Z.leb_gt in El.
    destruct (decide (bits_left bs < n)) as [|Hge]; [done|].
    pose proof (fill_enough bs n Hwf ltac:(lia)). lia.
Qed.

Lemma get_none bs n :
  bs_wf bs -> 0 < n -> bits_left bs < n -> png_bitstream_get bs n = None.
Proof.
  intros Hwf Hn Hlt. unfold png_bitstream_get, png_bitstream_fill.
  rewrite (proj2 (Z.eqb_neq n 0)) by lia.
  pose proof (fill_short bs n Hwf Hlt) as Hs.
  by rewrite (proj2 (Z.leb_gt _ _) Hs).
Qed.

Lemma land_7 k : Z.land k 7 = k mod 8.
Proof. change 7 with (Z.ones 3). by rewrite Z.land_ones. Qed.

Lemma bits_left_consumed bs :
  bits_left bs + bits_consumed bs = 8 * len_of (bs_data bs).
Proof. unfold bits_left, bits_consumed. lia. Qed.

(** X6.  [png_bitstream_align] never fails on a reader that is in step with
    its stream: it drops fewer than eight bits and leaves the reader at a
    byte boundary of the stream. *)
Theorem png_bitstream_align_boundary (bs : png_bitstream) :
  bs_sync bs ->
  exists bs',
    png_bitstream_align bs = Some bs'
    /\ bs_sync bs'
    /\ bs_data bs' = bs_data bs
    /\ bits_consumed bs' mod 8 = 0
    /\ bits_consumed bs <= bits_consumed bs' < bits_consumed bs + 8.
Proof.
  intros Hs. unfold png_bitstream_align. rewrite land_7.
  pose proof Hs as ((Hp & Hk) & _).
  pose proof (Z.mod_pos_bound (bitcount bs) 8 ltac:(lia)) as Hm.
  destruct (bitcount bs mod 8 =? 0) eqn:E.
  - apply Z.eqb_eq in E. exists bs. split; [done|]. split; [done|]. split; [done|].
    split; [|lia]. unfold bits_consumed. Z.div_mod_to_equations. lia.
  - destruct (get_sync bs (bitcount bs mod 8) Hs ltac:(lia)) as (bs' & -> & Hs' & Hd & Hc).
    { unfold bits_left. Z.div_mod_to_equations. lia. }
    exists bs'. split; [done|]. split; [done|]. split; [done|].
    rewrite Hc. split; [|lia]. unfold bits_consumed. Z.div_mod_to_equations. lia.
Qed.

Lemma slice_succ (buf : list Z) q (m : nat) :
  0 <= q < len_of buf ->
  slice buf q (Z.of_nat (S m)) = byte_at buf q :: slice buf (q + 1) (Z.of_nat m).
Proof.
  intros Hq. unfold slice, byte_at, len_of in *. rewrite !Nat2Z.id.
  replace (Z.to_nat (q + 1)) with (S (Z.to_nat q)) by lia.
  assert (Hl : (Z.to_nat q < length buf)%nat) by lia.
  revert Hl. generalize (Z.to_nat q). clear Hq q.
  induction buf as [|x buf IH]; intros k Hk; [cbn in Hk; lia|].
  destruct k as [|k]; [by destruct buf|].
  cbn [drop nth]. apply IH. cbn in Hk. lia.
Qed.

Lemma read_bytes_loop_sync (m : nat) : forall bs acc,
  bs_sync bs -> bits_consumed bs mod 8 = 0 -> 8 * Z.of_nat m <= bits_left bs ->
  exists bs',
    read_bytes_loop m bs acc
    = Some (acc ++ slice (bs_data bs) (bits_consumed bs / 8) (Z.of_nat m), bs')
    /\ bs_sync bs'
    /\ bs_data bs' = bs_data bs
    /\ bits_consumed bs' = bits_consumed bs + 8 * Z.of_nat m.
Proof.
  induction m as [|m IH]; intros bs acc Hs Ha Hleft.
  - exists bs. cbn [read_bytes_loop]. unfold slice. cbn [Z.to_nat Z.of_nat take].
    rewrite app_nil_r. split; [done|]. split; [done|]. split; [done|lia].
  - rewrite read_bytes_loop_S.
    destruct (get_sync bs 8 Hs ltac:(lia) ltac:(lia)) as (bs1 & -> & Hs1 & Hd1 & Hc1).
    pose proof Hs as ((Hp & Hk) & Hb & _ & Hc0 & _).
    pose proof (bits_left_consumed bs) as Hsum.
    pose proof (bits_left_consumed bs1) as Hsum1. rewrite Hd1 in Hsum1.
    destruct (IH bs1 (acc ++ [to_u8 (next_bits bs 8)]) Hs1) as (bs' & E & Hs' & Hd' & Hc').
    { rewrite Hc1. Z.div_mod_to_equations. lia. }
    { lia. }
    exists bs'. rewrite E. split; [|split; [done|split; [congruence|lia]]].
    f_equal. f_equal. rewrite <- app_assoc. f_equal.
    rewrite Hd1, Hc1.
    replace ((bits_consumed bs + 8) / 8) with (bits_consumed bs / 8 + 1)
      by (Z.div_mod_to_equations; lia).
    rewrite slice_succ by (Z.div_mod_to_equations; lia).
    cbn [app]. f_equal. unfold next_bits.
    replace (bits_consumed bs) with (8 * (bits_consumed bs / 8)) at 1
      by (Z.div_mod_to_equations; lia).
    rewrite stream_value_byte_at by (done || (Z.div_mod_to_equations; lia)).
    apply to_u8_small. apply (byte_at_is_byte _ _ Hb).
Qed.

Lemma read_bytes_loop_short (m : nat) : forall bs acc,
  bs_wf bs -> bits_left bs < 8 * Z.of_nat m -> read_bytes_loop m bs acc = None.
Proof.
  induction m as [|m IH]; intros bs acc Hwf Hlt.
  - destruct Hwf. unfold bits_left in Hlt. lia.
  - rewrite read_bytes_loop_S.
    destruct (png_bitstream_get bs 8) as [[v b]|] eqn:E; [|done].
    destruct (png_bitstream_get_inv _ _ _ _ E ltac:(lia) Hwf) as (Hw & Hb & _).
    apply IH; [done|lia].
Qed.

(** X7.  At a byte boundary, [png_bitstream_read_bytes] of [len] bytes fails
    exactly when fewer than [len] bytes of the stream are left, and
    otherwise returns the next [len] bytes of the buffer, whether they are
    still in the buffer or already in the bit register. *)
Theorem png_bitstream_read_bytes_stream (bs : png_bitstream) (len : Z) :
  bs_sync bs -> bits_consumed bs mod 8 = 0 -> 0 <= len ->
  match png_bitstream_read_bytes bs len with
  | None => bits_left bs < 8 * len
  | Some (bytes, bs') =>
    8 * len <= bits_left bs
    /\ bytes = slice (bs_data bs) (bits_consumed bs / 8) len
    /\ bs_sync bs'
    /\ bs_data bs' = bs_data bs
    /\ bits_consumed bs' = bits_consumed bs + 8 * len
  end.
Proof.
  intros Hs Ha Hlen. unfold png_bitstream_read_bytes.
  pose proof Hs as ((Hp & Hk) & Hb & H32 & Hc & Hbuf).
  destruct (bitcount bs =? 0) eqn:E0.
  - apply Z.eqb_eq in E0.
    assert (Ec : bits_consumed bs / 8 = bytepos bs).
    { unfold bits_consumed. rewrite E0. Z.div_mod_to_equations. lia. }
    destruct (len_of (bs_data bs) <? bytepos bs + len) eqn:El.
    + apply Z.ltb_lt in El. unfold bits_left. lia.
    + apply Z.ltb_ge in El. rewrite Ec.
      split; [unfold bits_left; lia|]. split; [done|].
      unfold bs_sync, bs_wf, bits_consumed, next_bits in *.
      cbn [bs_data bytepos bitbuf bitcount]. rewrite E0 in *.
      split; [|split; [done|lia]].
      split; [lia|]. split; [done|]. split; [lia|]. split; [lia|].
      rewrite Hbuf. change (2 ^ 0) with 1. by rewrite !Z.mod_1_r.
  - destruct (decide (8 * len <= bits_left bs)) as [Hle|Hgt].
    + destruct (read_bytes_loop_sync (Z.to_nat len) bs [] Hs Ha)
        as (bs' & -> & Hs' & Hd & Hc'); [lia|].
      rewrite Z2Nat.id in * by lia. done.
    + rewrite read_bytes_loop_short; [lia | done | lia].
Qed.

(** ** Decoding with a canonical Huffman table *)

Lemma flat_groups_len lengths (k : nat) :
  len_of (flat_map (fun len => symbols_of_length lengths len 0)
            (range_from 1 (Z.of_nat k + 1)))
  = codes_upto lengths k.
Proof.
  induction k as [|k IH].
  - by rewrite range_from_nil by lia.
  - replace (Z.of_nat (S k) + 1) with (1 + Z.of_nat (S k)) by lia.
    rewrite range_from_snoc, flat_map_app, len_of_app. cbn [flat_map].
    rewrite app_nil_r, symbols_of_length_len.
    replace (1 + Z.of_nat k) with (Z.of_nat k + 1) by lia.
    rewrite IH. cbn [codes_upto]. do 2 f_equal. lia.
Qed.

Lemma flat_groups_split lengths (k : nat) : forall m : nat,
  (k < m)%nat ->
  exists rest,
    flat_map (fun len => symbols_of_length lengths len 0)
      (range_from 1 (Z.of_nat m + 1))
    = flat_map (fun len => symbols_of_length lengths len 0)
        (range_from 1 (Z.of_nat k + 1))
      ++ symbols_of_length lengths (Z.of_nat (S k)) 0 ++ rest.
Proof.
  induction m as [|m IH]; intros Hk; [lia|].
  replace (Z.of_nat (S m) + 1) with (1 + Z.of_nat (S m)) by lia.
  rewrite range_from_snoc, flat_map_app. cbn [flat_map]. rewrite app_nil_r.
  replace (1 + Z.of_nat m) with (Z.of_nat m + 1) by lia.
  destruct (decide (k = m)) as [->|Hne].
  - exists []. rewrite app_nil_r. do 2 f_equal. lia.
  - destruct IH as (rest & ->); [lia|].
    exists (rest ++ symbols_of_length lengths (Z.of_nat m + 1) 0).
    by rewrite <- !app_assoc.
Qed.

(** Entry [r] of the group of length [k + 1] in the canonical order. *)
Lemma canonical_entry lengths (k : nat) r :
  (k < 15)%nat -> 0 <= r < code_count lengths (Z.of_nat (S k)) ->
  byte_at (canonical_symbols lengths) (codes_upto lengths k + r)
  = byte_at (symbols_of_length lengths (Z.of_nat (S k)) 0) r
  /\ codes_upto lengths k + r < len_of (canonical_symbols lengths).
Proof.
  intros Hk Hr. unfold canonical_symbols. change 16 with (Z.of_nat 15 + 1).
  destruct (flat_groups_split lengths k 15 Hk) as (rest & ->).
  pose proof (flat_groups_len lengths k) as Hlen.
  pose proof (symbols_of_length_len lengths (Z.of_nat (S k)) 0) as Hg.
  pose proof (len_of_nonneg rest).
  split.
  - rewrite <- Hlen. rewrite byte_at_app_r by lia.
    replace (_ + r - _) with r by lia. rewrite byte_at_app_l by lia. done.
  - rewrite !len_of_app. lia.
Qed.

Lemma byte_at_cons x (buf : list Z) r :
  0 < r -> byte_at (x :: buf) r = byte_at buf (r - 1).
Proof.
  intros Hr. unfold byte_at.
  replace (Z.to_nat r) with (S (Z.to_nat (r - 1))) by lia. reflexivity.
Qed.

(** The members of a group are symbols of that code length. *)
Lemma symbols_of_length_elem lengths len : forall i r,
  0 <= i -> 0 <= r < code_count lengths len ->
  i <= byte_at (symbols_of_length lengths len i) r < i + len_of lengths
  /\ byte_at lengths (byte_at (symbols_of_length lengths len i) r - i) = len.
Proof.
  induction lengths as [|l rest IH]; intros i r Hi Hr.
  { rewrite code_count_nil in Hr. lia. }
  rewrite code_count_cons in Hr. cbn [symbols_of_length].
  replace (len_of (l :: rest)) with (1 + len_of rest) by (unfold len_of; cbn; lia).
  pose proof (len_of_nonneg rest).
  assert (Hrest : forall s, i + 1 <= s < i + 1 + len_of rest ->
            byte_at rest (s - (i + 1)) = len ->
            i <= s < i + (1 + len_of rest) /\ byte_at (l :: rest) (s - i) = len).
  { intros s Hs E. split; [lia|]. rewrite byte_at_cons by lia.
    rewrite <- E. f_equal. lia. }
  case_decide as Hl.
  - destruct (decide (r = 0)) as [->|Hne].
    + change (byte_at (i :: _) 0) with i. split; [lia|].
      by rewrite Z.sub_diag.
    + rewrite byte_at_cons by lia.
      destruct (IH (i + 1) (r - 1)) as (Hs & E); [lia|lia|]. by apply Hrest.
  - destruct (IH (i + 1) r) as (Hs & E); [lia|lia|]. by apply Hrest.
Qed.

Lemma byte_at_slice_0 (buf : list Z) n i :
  0 <= i < n -> byte_at (slice buf 0 n) i = byte_at buf i.
Proof.
  intros Hi. unfold byte_at, slice. cbn [Z.to_nat drop].
  rewrite nth_firstn. case_match eqn:E; [done|].
  apply Nat.ltb_ge in E. lia.
Qed.

Section Decode.
Variables (lengths : list Z) (h : png_huffman).
Hypothesis Hcount :
  forall len, 0 <= len <= 15 -> byte_at (h_count h) len = code_count lengths len.
Hypothesis Hsym :
  slice (h_symbol h) 0 (len_of (canonical_symbols lengths))
  = canonical_symbols lengths.
Hypothesis Hn : len_of lengths <= 288.

Lemma table_entry (len r : Z) :
  1 <= len <= 15 -> 0 <= r < code_count lengths len ->
  byte_at (h_symbol h) (codes_upto lengths (Z.to_nat len - 1) + r)
  = byte_at (symbols_of_length lengths len 0) r.
Proof using Hsym.
  intros Hlen Hr.
  destruct (canonical_entry lengths (Z.to_nat len - 1) r) as (E & Hlt); [lia| |].
  { replace (Z.of_nat (S (Z.to_nat len - 1))) with len by lia. done. }
  replace (Z.of_nat (S (Z.to_nat len - 1))) with len in E by lia.
  rewrite <- E, <- Hsym. symmetry. apply byte_at_slice_0.
  pose proof (codes_upto_nonneg lengths (Z.to_nat len - 1)). lia.
Qed.

(** One turn of the loop of [png_huffman_decode] in plain arithmetic. *)
Lemma huffman_decode_loop_step fuel len bs code first index q :
  1 <= len <= 15 -> 0 <= first <= code -> code < 2 ^ len -> code = q * 2 ^ 1 ->
  index = codes_upto lengths (Z.to_nat len - 1) ->
  huffman_decode_loop (S fuel) len bs h code first index
  = match png_bitstream_get bs 1 with
    | None => None
    | Some (bit, bs') =>
      if code + bit <? first + code_count lengths len
      then Some (byte_at (symbols_of_length lengths len 0) (code + bit - first), bs')
      else huffman_decode_loop fuel (len + 1) bs' h
             (2 * (code + bit)) (2 * (first + code_count lengths len))
             (codes_upto lengths (Z.to_nat (len + 1) - 1))
    end.
Proof using Hcount Hsym Hn.
  intros Hlen Hfirst Hcode Heven Hindex. cbn [huffman_decode_loop].
  destruct (png_bitstream_get bs 1) as [[bit bs']|] eqn:E; [|done].
  pose proof (png_bitstream_get_bound _ _ _ _ E ltac:(lia)) as Hbit.
  change (2 ^ 1) with 2 in Hbit.
  rewrite Hcount by lia.
  pose proof (code_count_nonneg lengths len) as Hc0.
  pose proof (code_count_le lengths len) as Hc1.
  pose proof (codes_upto_nonneg lengths (Z.to_nat len - 1)) as Hi0.
  pose proof (codes_upto_le lengths (Z.to_nat len - 1)) as Hi1.
  assert (H15 : 2 ^ len <= 2 ^ 15) by (apply Z.pow_le_mono_r; lia).
  change (2 ^ 15) with 32768 in H15.
  assert (El : Z.lor code bit = code + bit).
  { rewrite Heven. apply lor_mul_add; [lia|]. change (2 ^ 1) with 2. lia. }
  rewrite El. rewrite (to_u32_small (first + _)) by lia.
  destruct (code + bit <? first + code_count lengths len) eqn:Elt.
  - apply Z.ltb_lt in Elt. rewrite (to_u32_small (code + bit - first)) by lia.
    rewrite to_u32_small by lia. rewrite Hindex.
    rewrite table_entry by lia. done.
  - rewrite !Z.shiftl_mul_pow2 by lia. change (2 ^ 1) with 2.
    apply Z.ltb_ge in Elt.
    rewrite !to_u32_small by lia.
    f_equal; [lia | lia |].
    rewrite Hindex.
    replace (Z.to_nat (len + 1) - 1)%nat with (S (Z.to_nat len - 1)) by lia.
    cbn [codes_upto]. do 2 f_equal. lia.
Qed.

Lemma huffman_decode_loop_sound : forall fuel len bs code first index sym bs',
  1 <= len -> len + Z.of_nat fuel = 16 -> bs_wf bs ->
  0 <= first <= code -> code < 2 ^ len -> (exists q, code = q * 2 ^ 1) ->
  index = codes_upto lengths (Z.to_nat len - 1) ->
  huffman_decode_loop fuel len bs h code first index = Some (sym, bs') ->
  exists l, len <= l <= 15
    /\ bits_left bs' = bits_left bs - (l - len + 1) /\ bs_wf bs'
    /\ 0 <= sym < len_of lengths /\ byte_at lengths sym = l.
Proof using Hcount Hsym Hn.
  induction fuel as [|fuel IH];
    intros len bs code first index sym bs' Hlen Hfuel Hwf Hfirst Hcode (q & Hq)
      Hindex H; [discriminate|].
  rewrite (huffman_decode_loop_step fuel len bs code first index q) in H
    by (done || lia).
  destruct (png_bitstream_get bs 1) as [[bit b1]|] eqn:E; [|discriminate].
  destruct (png_bitstream_get_inv _ _ _ _ E ltac:(lia) Hwf) as (Hw1 & Hb1 & _).
  pose proof (png_bitstream_get_bound _ _ _ _ E ltac:(lia)) as Hbit.
  change (2 ^ 1) with 2 in *.
  destruct (code + bit <? first + code_count lengths len) eqn:Elt.
  - apply Z.ltb_lt in Elt. simplify_eq. exists len.
    destruct (symbols_of_length_elem lengths len 0 (q * 2 + bit - first))
      as (Hs & El); [lia | lia |].
    rewrite Z.sub_0_r in El. split; [lia|]. split; [lia|]. split; [done|].
    split; [lia|done].
  - apply Z.ltb_ge in Elt.
    pose proof (code_count_nonneg lengths len) as Hc0.
    destruct (IH (len + 1) b1 (2 * (code + bit))
                (2 * (first + code_count lengths len))
                (codes_upto lengths (Z.to_nat (len + 1) - 1)) sym bs')
      as (l & Hl & Hb & Hw & Hs & El);
      [lia | lia | done | lia | | exists (code + bit); lia | done | done |].
    { replace (len + 1) with (Z.succ len) by lia. rewrite Z.pow_succ_r by lia.
      assert (Hp : 2 ^ len = 2 * 2 ^ (len - 1))
        by (rewrite <- Z.pow_succ_r by lia; f_equal; lia).
      lia. }
    exists l. split; [lia|]. split; [lia|]. done.
Qed.
End Decode.

Lemma huffman_decode_symbol
    (lengths : list Z) (h : png_huffman) (bs bs' : png_bitstream) (sym : Z) :
  Forall is_byte lengths -> len_of lengths <= 288 ->
  png_huffman_build lengths = Some h ->
  bs_wf bs ->
  png_huffman_decode bs h = Some (sym, bs') ->
  0 <= sym < len_of lengths
  /\ 1 <= byte_at lengths sym <= 15
  /\ bits_left bs' = bits_left bs - byte_at lengths sym
  /\ bs_wf bs'.
Proof.
  intros Hb Hn Hbuild Hwf Hdec.
  pose proof (png_huffman_build_cases lengths Hb Hn) as Hc. rewrite Hbuild in Hc.
  destruct Hc as (_ & _ & Hcount & Hsym).
  unfold png_huffman_decode in Hdec.
  destruct (huffman_decode_loop_sound lengths h Hcount Hsym Hn
              (Z.to_nat PNG_MAXBITS) 1 bs 0 0 0 sym bs')
    as (l & Hl & Hbl & Hw & Hs & El);
    [lia | reflexivity | done | lia | reflexivity | by exists 0 | reflexivity
    | done |].
  rewrite El. split; [done|]. split; [lia|]. split; [lia|done].
Qed.

(** X8.  A symbol [png_huffman_decode] returns from a table built by
    [png_huffman_build] is a symbol of the code: it lies below the number of
    lengths, its code length is between 1 and 15, and exactly that many bits
    were read. *)
Theorem png_huffman_decode_sound
    (lengths : list Z) (h : png_huffman) (bs bs' : png_bitstream) (sym : Z) :
  Forall is_byte lengths -> len_of lengths <= 288 ->
  png_huffman_build lengths = Some h ->
  bs_wf bs ->
  png_huffman_decode bs h = Some (sym, bs') ->
  0 <= sym < len_of lengths
  /\ 1 <= byte_at lengths sym <= 15
  /\ bits_left bs' = bits_left bs - byte_at lengths sym
  /\ bs_wf bs'.
Proof. apply huffman_decode_symbol. Qed.

Lemma first_code_S lengths (k : nat) :
  first_code lengths (S (S k))
  = 2 * (first_code lengths (S k) + code_count lengths (Z.of_nat (S k))).
Proof. reflexivity. Qed.

Lemma first_code_nonneg lengths (len : nat) : 0 <= first_code lengths len.
Proof.
  induction len as [|[|k] IH]; [done | done |].
  rewrite first_code_S. pose proof (code_count_nonneg lengths (Z.of_nat (S k))). lia.
Qed.

(** The codes of length up to [len] and the Kraft count. *)
Lemma first_code_kraft lengths (k : nat) :
  first_code lengths (S k) + code_count lengths (Z.of_nat (S k))
  = 2 ^ Z.of_nat (S k) - kraft_left lengths (S k).
Proof.
  induction k as [|k IH].
  - cbn [first_code kraft_left]. change (2 ^ Z.of_nat 1) with 2. lia.
  - rewrite first_code_S, IH. cbn [kraft_left].
    rewrite (Nat2Z.inj_succ (S k)), Z.pow_succ_r by lia. lia.
Qed.

(** The first code of a longer length lies above every code of a shorter
    length, extended with zeros. *)
Lemma first_code_above lengths (j : nat) : forall d : nat,
  2 ^ Z.of_nat (S d) * (first_code lengths (S j) + code_count lengths (Z.of_nat (S j)))
  <= first_code lengths (S j + S d).
Proof.
  induction d as [|d IH].
  - replace (S j + 1)%nat with (S (S j)) by lia. rewrite first_code_S.
    change (2 ^ Z.of_nat 1) with 2. lia.
  - replace (S j + S (S d))%nat with (S (S (j + S d))) by lia.
    rewrite first_code_S.
    replace (S (j + S d)) with (S j + S d)%nat by lia.
    pose proof (code_count_nonneg lengths (Z.of_nat (S j + S d))).
    rewrite (Nat2Z.inj_succ (S d)), Z.pow_succ_r by lia. lia.
Qed.

Lemma lengths_split (lengths : list Z) s :
  0 <= s < len_of lengths ->
  lengths = take (Z.to_nat s) lengths ++ byte_at lengths s :: drop (S (Z.to_nat s)) lengths.
Proof.
  intros Hs. unfold byte_at, len_of in *.
  rewrite <- (take_drop (Z.to_nat s) lengths) at 1. f_equal.
  destruct (drop (Z.to_nat s) lengths) as [|x rest] eqn:E.
  - apply (f_equal length) in E. rewrite length_drop in E. cbn in E. lia.
  - f_equal.
    + rewrite <- (take_drop (Z.to_nat s) lengths) at 1.
      rewrite app_nth2; rewrite length_take; [|lia].
      replace (Z.to_nat s - Z.to_nat s `min` length lengths)%nat with 0%nat by lia.
      by rewrite E.
    + rewrite <- (Nat.add_1_l (Z.to_nat s)), Nat.add_comm, <- drop_drop, E. done.
Qed.

(** The place of a symbol in the group of its code length. *)
Lemma symbol_rank lengths s :
  0 <= s < len_of lengths ->
  let len := byte_at lengths s in
  let rank := code_count (take (Z.to_nat s) lengths) len in
  0 <= rank < code_count lengths len
  /\ byte_at (symbols_of_length lengths len 0) rank = s.
Proof.
  intros Hs len rank.
  pose proof (lengths_split lengths s Hs) as Hsplit. fold len in Hsplit.
  set (pre := take (Z.to_nat s) lengths) in *.
  set (post := drop (S (Z.to_nat s)) lengths) in *.
  assert (Hpre : len_of pre = s).
  { unfold pre, len_of in *. rewrite length_take. lia. }
  pose proof (code_count_nonneg pre len). pose proof (code_count_nonneg post len).
  split.
  - rewrite Hsplit at 1. rewrite code_count_app, code_count_cons, decide_True by done.
    fold rank. lia.
  - rewrite Hsplit at 1. rewrite symbols_of_length_app. cbn [symbols_of_length].
    rewrite decide_True by done.
    rewrite byte_at_app_r by (rewrite symbols_of_length_len; fold rank; lia).
    rewrite symbols_of_length_len. fold rank. rewrite Z.sub_diag.
    change (byte_at (?x :: _) 0) with x. lia.
Qed.

Section DecodeCode.
Variables (lengths : list Z) (h : png_huffman) (s : Z) (bs' : png_bitstream).
Hypothesis Hcount :
  forall len, 0 <= len <= 15 -> byte_at (h_count h) len = code_count lengths len.
Hypothesis Hsym :
  slice (h_symbol h) 0 (len_of (canonical_symbols lengths))
  = canonical_symbols lengths.
Hypothesis Hn : len_of lengths <= 288.
Hypothesis Hkraft :
  forall len : nat, (1 <= len <= 15)%nat -> 0 <= kraft_left lengths len.
Hypothesis Hs : 0 <= s < len_of lengths.
Hypothesis HL : 1 <= byte_at lengths s <= 15.

Let L := byte_at lengths s.
Let C := canonical_code lengths s.

Lemma canonical_code_range :
  first_code lengths (Z.to_nat L) <= C
  /\ C < first_code lengths (Z.to_nat L) + code_count lengths L
  /\ C < 2 ^ L
  /\ byte_at (symbols_of_length lengths L 0) (C - first_code lengths (Z.to_nat L)) = s.
Proof using Hkraft Hs HL.
  destruct (symbol_rank lengths s Hs) as (Hr & Hat). fold L in Hr, Hat.
  unfold C, canonical_code. fold L.
  pose proof (first_code_kraft lengths (Z.to_nat L - 1)) as Hk.
  replace (S (Z.to_nat L - 1)) with (Z.to_nat L) in Hk by (unfold L; lia).
  rewrite Z2Nat.id in Hk by (unfold L; lia).
  pose proof (Hkraft (Z.to_nat L) ltac:(unfold L; lia)).
  split; [lia|]. split; [lia|]. split; [lia|].
  rewrite <- Hat at 2. f_equal. lia.
Qed.

Lemma huffman_decode_loop_code : forall (k fuel : nat) bs code,
  1 <= L - Z.of_nat k -> L - Z.of_nat k + Z.of_nat fuel = 16 ->
  code = 2 * (C / 2 ^ (Z.of_nat k + 1)) ->
  first_code lengths (Z.to_nat (L - Z.of_nat k)) <= code ->
  reads_bits bs (code_bits (S k) C) = Some bs' ->
  huffman_decode_loop fuel (L - Z.of_nat k) bs h code
    (first_code lengths (Z.to_nat (L - Z.of_nat k)))
    (codes_upto lengths (Z.to_nat (L - Z.of_nat k) - 1))
  = Some (s, bs').
Proof using Hcount Hsym Hn Hkraft Hs HL.
  destruct canonical_code_range as (HClo & HChi & HC2 & HCat).
  assert (HC0 : 0 <= C).
  { pose proof (first_code_nonneg lengths (Z.to_nat L)). lia. }
  induction k as [|k IH]; intros fuel bs code Hj Hfuel Hcode Hfirst Hread;
    [set (j := L - Z.of_nat 0) in * | set (j := L - Z.of_nat (S k)) in *].
  all: destruct fuel as [|fuel]; [unfold L in *; lia|].
  all: cbn [code_bits reads_bits] in Hread.
  all: destruct (png_bitstream_get bs 1) as [[v bs1]|] eqn:Eget; [|discriminate].
  all: destruct (v =? _) eqn:Ev; [|discriminate]; apply Z.eqb_eq in Ev.
  all: pose proof (first_code_nonneg lengths (Z.to_nat j)) as Hf0.
  all: match type of Ev with ?vv = (C / 2 ^ Z.of_nat ?kk) mod 2 =>
         assert (Esum : code + vv = C / 2 ^ Z.of_nat kk);
         [ rewrite Hcode, Ev, <- div_pow2_add by lia; change (2 ^ 1) with 2;
           pose proof (Z.div_mod (C / 2 ^ Z.of_nat kk) 2 ltac:(lia)); lia |];
         assert (Hlt : code < 2 ^ j);
         [ rewrite Hcode;
           assert (C / 2 ^ (Z.of_nat kk + 1) < 2 ^ (j - 1));
           [ apply Z.div_lt_upper_bound; [apply pow2_pos; lia|];
             rewrite <- Z.pow_add_r by lia;
             replace (Z.of_nat kk + 1 + (j - 1)) with L by (unfold j; lia);
             exact HC2 |];
           replace (2 ^ j) with (2 * 2 ^ (j - 1))
             by (rewrite <- Z.pow_succ_r by lia; f_equal; lia);
           lia |]
       end.
  all: match type of Ev with _ = (C / 2 ^ Z.of_nat ?kk) mod 2 =>
         rewrite (huffman_decode_loop_step lengths h Hcount Hsym Hn fuel j bs code
                    (first_code lengths (Z.to_nat j))
                    (codes_upto lengths (Z.to_nat j - 1))
                    (C / 2 ^ (Z.of_nat kk + 1)));
         [ | lia | lia | exact Hlt | change (2 ^ 1) with 2; lia | reflexivity ]
       end.
  all: rewrite Eget, Esum.
  - change (2 ^ Z.of_nat 0) with 1. rewrite Z.div_1_r.
    replace j with L in * by (unfold j; lia).
    rewrite (proj2 (Z.ltb_lt _ _) HChi). rewrite HCat.
    cbn [reads_bits] in Hread. by simplify_eq.
  - assert (Hge : first_code lengths (Z.to_nat j) + code_count lengths j
                  <= C / 2 ^ Z.of_nat (S k)).
    { apply Z.div_le_lower_bound; [apply pow2_pos; lia|].
      pose proof (first_code_above lengths (Z.to_nat j - 1) k) as Ha.
      replace (S (Z.to_nat j - 1)) with (Z.to_nat j) in Ha by lia.
      replace (Z.to_nat j + S k)%nat with (Z.to_nat L) in Ha by (unfold j; lia).
      rewrite Z2Nat.id in Ha by lia. lia. }
    rewrite (proj2 (Z.ltb_ge _ _) Hge).
    assert (Ef : first_code lengths (Z.to_nat (j + 1))
                 = 2 * (first_code lengths (Z.to_nat j) + code_count lengths j)).
    { replace (Z.to_nat (j + 1)) with (S (S (Z.to_nat j - 1))) by lia.
      rewrite first_code_S.
      replace (S (Z.to_nat j - 1)) with (Z.to_nat j) by lia.
      by rewrite Z2Nat.id by lia. }
    rewrite <- Ef.
    replace (j + 1) with (L - Z.of_nat k) by (unfold j; lia).
    apply IH; [unfold j in *; lia | unfold j in *; lia | | | done].
    + f_equal. f_equal. f_equal. lia.
    + replace (L - Z.of_nat k) with (j + 1) by (unfold j; lia). rewrite Ef. lia.
Qed.
End DecodeCode.

Lemma huffman_decode_canonical
    (lengths : list Z) (h : png_huffman) (bs bs' : png_bitstream) (s : Z) :
  Forall is_byte lengths -> len_of lengths <= 288 ->
  png_huffman_build lengths = Some h ->
  0 <= s < len_of lengths -> 1 <= byte_at lengths s ->
  reads_bits bs (code_bits (Z.to_nat (byte_at lengths s)) (canonical_code lengths s))
  = Some bs' ->
  png_huffman_decode bs h = Some (s, bs').
Proof.
  intros Hb Hn Hbuild Hs Hlen Hread.
  pose proof (png_huffman_build_cases lengths Hb Hn) as Hc. rewrite Hbuild in Hc.
  destruct Hc as (Hall & Hkraft & Hcount & Hsym).
  assert (HL : 1 <= byte_at lengths s <= 15).
  { split; [done|]. unfold byte_at.
    destruct (nth_in_or_default (Z.to_nat s) lengths 0) as [Hin | ->]; [|lia].
    rewrite Forall_forall in Hall. apply (Hall _ (proj2 (list_elem_of_In _ _) Hin)). }
  set (L := byte_at lengths s) in *.
  pose proof (huffman_decode_loop_code lengths h s bs' Hcount Hsym Hn Hkraft Hs HL
                (Z.to_nat L - 1) 15 bs 0) as Hloop.
  fold L in Hloop.
  replace (S (Z.to_nat L - 1)) with (Z.to_nat L) in Hloop by lia.
  replace (L - Z.of_nat (Z.to_nat L - 1)) with 1 in Hloop by lia.
  unfold png_huffman_decode. apply Hloop; [lia | reflexivity | | done | done].
  destruct (canonical_code_range lengths s Hkraft Hs HL) as (Hlo & _ & Hhi & _).
  fold L in Hlo, Hhi.
  pose proof (first_code_nonneg lengths (Z.to_nat L)).
  replace (Z.of_nat (Z.to_nat L - 1) + 1) with L by lia.
  rewrite Z.div_small by lia. done.
Qed.

(** X9.  [png_huffman_decode] inverts the canonical code: when the next bits
    of the stream are the canonical code of a symbol [s] of nonzero code
    length, most significant bit first, it returns [s] and leaves the reader
    just behind the code. *)
Theorem png_huffman_decode_complete
    (lengths : list Z) (h : png_huffman) (bs bs' : png_bitstream) (s : Z) :
  Forall is_byte lengths -> len_of lengths <= 288 ->
  png_huffman_build lengths = Some h ->
  0 <= s < len_of lengths -> 1 <= byte_at lengths s ->
  reads_bits bs (code_bits (Z.to_nat (byte_at lengths s)) (canonical_code lengths s))
  = Some bs' ->
  png_huffman_decode bs h = Some (s, bs').
Proof. apply huffman_decode_canonical. Qed.

(** ** The filters Sub, Up and Average *)

(** An in-place loop over [lo <= i < lo + k] that adds to byte [i] a value
    read from the bytes before it: the bytes outside the range keep their
    value, and byte [i] gets the value computed from the finished row. *)
Lemma inplace_scan (g : list Z -> Z -> Z) (lo : Z) (row : list Z) (k : nat) :
  0 <= lo -> lo + Z.of_nat k <= len_of row ->
  (forall S m x j, lo <= j <= m -> g (set_at S m x) j = g S j) ->
  let S := fold_left (fun row i => set_at row i (to_u8 (byte_at row i + g row i)))
             (range_from lo (lo + Z.of_nat k)) row in
  len_of S = len_of row
  /\ (forall j, 0 <= j < lo \/ lo + Z.of_nat k <= j -> byte_at S j = byte_at row j)
  /\ (forall j, lo <= j < lo + Z.of_nat k ->
        byte_at S j = to_u8 (byte_at row j + g S j)).
Proof.
  intros Hlo Hk Hg. induction k as [|k IH]; intros S.
  - subst S. rewrite range_from_nil by lia. cbn [fold_left].
    split; [done|]. split; [done|]. intros; lia.
  - destruct IH as (Hlen & Hrest & Hdone); [lia|].
    subst S. rewrite range_from_snoc, fold_left_app. cbn [fold_left].
    set (S := fold_left _ (range_from lo (lo + Z.of_nat k)) row) in *.
    set (m := lo + Z.of_nat k) in *.
    set (v := to_u8 (byte_at S m + g S m)).
    split; [|split].
    + by rewrite len_of_set_at.
    + intros j Hj. rewrite byte_at_set_at_ne by lia. apply Hrest. lia.
    + intros j Hj. rewrite Hg by lia.
      destruct (decide (j = m)) as [->|Hne].
      * rewrite byte_at_set_at_eq by lia. subst v. rewrite Hrest by lia. done.
      * rewrite byte_at_set_at_ne by lia. apply Hdone. lia.
Qed.

(** X10.  Filter type 1 (Sub) leaves the first pixel of the row as it is and
    adds to every later byte, modulo 256, the reconstructed byte one pixel
    to its left. *)
Theorem sub_row_reconstruction
    (row : list Z) (prev_row : option (list Z)) (w c i : Z) :
  1 <= c ->
  0 <= w * c <= INT_MAX ->
  len_of row = w * c ->
  0 <= i < w * c ->
  let out := png_unfilter_row row prev_row 1 w c in
  len_of out = len_of row
  /\ byte_at out i
     = if decide (c <= i) then (byte_at row i + byte_at out (i - c)) mod 256
       else byte_at row i.
Proof.
  intros Hc Hn Hlen Hi out.
  destruct (decide (c <= w * c)) as [Hcn|Hcn].
  - pose proof (inplace_scan (fun row i => byte_at row (i - c)) c row
                  (Z.to_nat (w * c - c)) ltac:(lia) ltac:(lia)) as Hscan.
    cbv beta zeta in Hscan.
    replace (c + Z.of_nat (Z.to_nat (w * c - c))) with (w * c) in Hscan by lia.
    assert (Hout : out = fold_left
                     (fun row i => set_at row i (to_u8 (byte_at row i + byte_at row (i - c))))
                     (range_from c (w * c)) row).
    { subst out. unfold png_unfilter_row. cbn [Z.eqb Pos.eqb].
      by rewrite to_int_small by lia. }
    rewrite <- Hout in Hscan.
    destruct Hscan as (Hl & Hrest & Hdone).
    { intros S m x j Hj. apply byte_at_set_at_ne; lia. }
    split; [done|]. case_decide.
    + by rewrite Hdone by lia.
    + apply Hrest. lia.
  - assert (Hout : out = row).
    { subst out. unfold png_unfilter_row. cbn [Z.eqb Pos.eqb].
      rewrite to_int_small by lia. by rewrite range_from_nil by lia. }
    rewrite Hout. split; [done|]. rewrite decide_False by lia. done.
Qed.

(** X11.  Filter type 2 (Up) adds to every byte, modulo 256, the byte above
    it; on the first row, where there is no row above, it changes
    nothing. *)
Theorem up_row_reconstruction (row : list Z) (w c : Z) :
  0 <= w * c <= INT_MAX ->
  len_of row = w * c ->
  png_unfilter_row row None 2 w c = row
  /\ forall p i, len_of p = w * c -> 0 <= i < w * c ->
       let out := png_unfilter_row row (Some p) 2 w c in
       len_of out = len_of row
       /\ byte_at out i = (byte_at row i + byte_at p i) mod 256.
Proof.
  intros Hn Hlen. split; [reflexivity|]. intros p i _ Hi out.
  pose proof (inplace_scan (fun _ i => byte_at p i) 0 row
                (Z.to_nat (w * c)) ltac:(lia) ltac:(lia)) as Hscan.
  cbv beta zeta in Hscan.
  replace (0 + Z.of_nat (Z.to_nat (w * c))) with (w * c) in Hscan by lia.
  assert (Hout : out = fold_left
                   (fun row i => set_at row i (to_u8 (byte_at row i + byte_at p i)))
                   (range_from 0 (w * c)) row).
  { subst out. unfold png_unfilter_row. cbn [Z.eqb Pos.eqb].
    by rewrite to_int_small by lia. }
  rewrite <- Hout in Hscan.
  destruct Hscan as (Hl & _ & Hdone); [done|].
  split; [done|]. by rewrite Hdone by lia.
Qed.

(** X12.  Filter type 3 (Average) adds to every byte, modulo 256, half the
    sum, rounded down, of the reconstructed byte one pixel to its left and
    the byte above it, each taken as 0 when it does not exist. *)
Theorem average_row_reconstruction
    (row : list Z) (prev_row : option (list Z)) (w c i : Z) :
  1 <= c ->
  0 <= w * c <= INT_MAX ->
  len_of row = w * c ->
  (forall p, prev_row = Some p -> len_of p = w * c /\ Forall is_byte p) ->
  0 <= i < w * c ->
  let out := png_unfilter_row row prev_row 3 w c in
  let a := if decide (c <= i) then byte_at out (i - c) else 0 in
  let b := match prev_row with Some p => byte_at p i | None => 0 end in
  len_of out = len_of row
  /\ byte_at out i = (byte_at row i + (a + b) / 2) mod 256.
Proof.
  intros Hc Hn Hlen Hprev Hi out a b.
  pose proof (inplace_scan
                (fun row i => Z.quot ((if c <=? i then byte_at row (i - c) else 0)
                                      + prev_at prev_row i) 2)
                0 row (Z.to_nat (w * c)) ltac:(lia) ltac:(lia)) as Hscan.
  cbv beta zeta in Hscan.
  replace (0 + Z.of_nat (Z.to_nat (w * c))) with (w * c) in Hscan by lia.
  assert (Hout : out = fold_left
                   (fun row i => set_at row i
                      (to_u8 (byte_at row i
                              + Z.quot ((if c <=? i then byte_at row (i - c) else 0)
                                        + prev_at prev_row i) 2)))
                   (range_from 0 (w * c)) row).
  { subst out. unfold png_unfilter_row. cbn [Z.eqb Pos.eqb].
    by rewrite to_int_small by lia. }
  rewrite <- Hout in Hscan.
  destruct Hscan as (Hl & _ & Hdone).
  { intros S m x j Hj. case_match eqn:E; [|done].
    apply Z.leb_le in E. rewrite byte_at_set_at_ne by lia. done. }
  split; [done|]. rewrite Hdone by lia. unfold to_u8. f_equal. f_equal.
  assert (Hb : prev_at prev_row i = b) by (by destruct prev_row).
  assert (Ha : (if c <=? i then byte_at out (i - c) else 0) = a).
  { subst a. case_decide; case_match;
      rewrite ?Z.leb_le, ?Z.leb_gt in *; first [done | lia]. }
  rewrite Ha, Hb. apply Z.quot_div_nonneg; [|lia].
  assert (0 <= a).
  { subst a. case_decide; [|lia]. rewrite Hdone by lia.
    pose proof (to_u8_byte (byte_at row (i - c)
      + Z.quot ((if c <=? i - c then byte_at out (i - c - c) else 0)
                + prev_at prev_row (i - c)) 2)) as Hbyte.
    unfold is_byte in Hbyte. lia. }
  assert (0 <= b).
  { rewrite <- Hb. pose proof (prev_at_is_byte prev_row i (fun p Hp => proj2 (Hprev p Hp))) as Hbyte.
    unfold is_byte in Hbyte. lia. }
  lia.
Qed.

(** ** Store-mode deflate and inflate *)

Lemma slice_slice_0 (buf : list Z) n : slice (slice buf 0 n) 0 n = slice buf 0 n.
Proof.
  unfold slice. change (Z.to_nat 0) with 0%nat. rewrite !drop_0.
  by rewrite take_take, Nat.min_id.
Qed.

Lemma png_deflate_store_slice buf len :
  0 <= len <= len_of buf ->
  png_deflate_store buf len = png_deflate_store (slice buf 0 len) len.
Proof.
  intros Hlen. unfold png_deflate_store. rewrite slice_slice_0.
  rewrite (len_of_slice buf 0 len) by lia.
  rewrite (proj2 (Z.ltb_ge (len_of buf) len)) by lia.
  by rewrite Z.ltb_irrefl.
Qed.

Lemma png_deflate_store_empty :
  png_deflate_store [] 0 = Done (Some [0x78; 0x01; 0; 0; 0; 1]).
Proof. vm_compute. reflexivity. Qed.

Lemma png_inflate_zlib_no_block e :
  png_inflate_zlib [0x78; 0x01; 0; 0; 0; 1] e = None.
Proof.
  unfold png_inflate_zlib.
  change (len_of [120; 1; 0; 0; 0; 1]) with 6. cbv zeta.
  change (6 <? 6) with false. cbv iota.
  change (negb (Z.land (byte_at [120; 1; 0; 0; 0; 1] 0) 15 =? 8)) with false.
  cbv iota.
  change (negb ((Z.shiftl (byte_at [120; 1; 0; 0; 0; 1] 0) 8
                 + byte_at [120; 1; 0; 0; 0; 1] 1) mod 31 =? 0)) with false.
  cbv iota.
  change (negb (Z.land (byte_at [120; 1; 0; 0; 0; 1] 1) 32 =? 0)) with false.
  cbv iota.
  change (false && (6 <? 10)) with false. cbv iota.
  change (6 <? 2 + 4) with false. cbv iota.
  destruct (negb (malloc_ok e)); [done|].
  change (inflate_blocks (inflate_fuel (6 - 2 - 4)) (inflate_fuel (6 - 2 - 4))
            {| bs_data := slice [120; 1; 0; 0; 0; 1] 2 (6 - 2 - 4);
               bytepos := 0; bitbuf := 0; bitcount := 0 |} e [])
    with (@None (list Z)).
  done.
Qed.

(** X13.  What [png_deflate_store] makes of the first [len > 0] bytes of a
    buffer, [png_inflate_zlib] turns back into these bytes; the stream has
    two header bytes, five more for every block of up to 65535 bytes, the
    bytes themselves and four checksum bytes.  For [len = 0] the stream has
    no block at all, and [png_inflate_zlib] rejects it. *)
Theorem deflate_store_inflate (buf : list Z) (len : Z) :
  (0 < len <= len_of buf -> len < 4294967296 ->
   exists z,
     png_deflate_store buf len = Done (Some z)
     /\ len_of z = 2 + 5 * ((len + 65534) / 65535) + len + 4
     /\ png_inflate_zlib z len = Some (slice buf 0 len))
  /\ png_deflate_store buf 0 = Done (Some [0x78; 0x01; 0; 0; 0; 1])
  /\ forall e, png_inflate_zlib [0x78; 0x01; 0; 0; 0; 1] e = None.
Proof.
  split; [|split].
  - intros Hlen Hbig. set (raw := slice buf 0 len).
    assert (Hraw : len_of raw = len) by (apply len_of_slice; lia).
    exists (zlib_store raw). rewrite png_deflate_store_slice by lia. fold raw.
    assert (Hpos : 0 < len_of raw < 4294967296) by lia. clear Hlen Hbig.
    clearbody raw. subst len.
    rewrite png_deflate_store_done by lia.
    split; [done|]. split.
    + rewrite zlib_store_len. lia.
    + apply inflate_zlib_store. unfold PTRDIFF_MAX. lia.
  - rewrite png_deflate_store_slice by (pose proof (len_of_nonneg buf); lia).
    unfold slice. change (Z.to_nat 0) with 0%nat. rewrite take_0.
    exact png_deflate_store_empty.
  - exact png_inflate_zlib_no_block.
Qed.

(** ** One expected length per stream *)

Lemma lz77_copy_len (n : nat) : forall out d,
  len_of (lz77_copy n out d) = len_of out + Z.of_nat n.
Proof.
  induction n as [|n IH]; intros out d; cbn [lz77_copy]; [lia|].
  rewrite IH, len_of_app. change (len_of [_]) with 1. lia.
Qed.

Lemma read_bytes_loop_len (n : nat) : forall bs acc r bs',
  read_bytes_loop n bs acc = Some (r, bs') -> len_of r = len_of acc + Z.of_nat n.
Proof.
  induction n as [|n IH]; intros bs acc r bs' H.
  - cbn in H. simplify_eq. lia.
  - rewrite read_bytes_loop_S in H.
    destruct (png_bitstream_get bs 8) as [[v b]|]; [|discriminate].
    apply IH in H. rewrite len_of_app in H. change (len_of [_]) with 1 in H. lia.
Qed.

Lemma png_bitstream_read_bytes_len bs len r bs' :
  png_bitstream_read_bytes bs len = Some (r, bs') -> bs_wf bs -> 0 <= len ->
  len_of r = len.
Proof.
  unfold png_bitstream_read_bytes. intros H ((Hp & _) & _) Hlen.
  destruct (bitcount bs =? 0).
  - destruct (len_of (bs_data bs) <? bytepos bs + len) eqn:E; [discriminate|].
    apply Z.ltb_ge in E. simplify_eq. apply len_of_slice; lia.
  - apply read_bytes_loop_len in H. change (len_of []) with 0 in H. lia.
Qed.

(** A run of the symbol loop only appends to the output, and succeeds in
    the same way under any limit its result respects. *)
Lemma inflate_symbols_mono l d e : forall fuel bs out o bs',
  inflate_symbols fuel bs l d e out = Some (o, bs') ->
  len_of out <= len_of o
  /\ forall e', len_of o <= e' -> inflate_symbols fuel bs l d e' out = Some (o, bs').
Proof.
  induction fuel as [|fuel IH]; intros bs out o bs' H; [discriminate|].
  cbn [inflate_symbols] in *.
  destruct (png_huffman_decode bs l) as [[sym b1]|]; [|discriminate].
  destruct (sym <? 256).
  { destruct (e <=? len_of out); [discriminate|].
    apply IH in H. destruct H as (Hle & Hmono).
    rewrite len_of_app in Hle. change (len_of [_]) with 1 in Hle.
    split; [lia|]. intros e' He'.
    rewrite (proj2 (Z.leb_gt e' (len_of out))) by lia. by apply Hmono. }
  destruct (sym =? 256); [simplify_eq; split; [lia|done]|].
  destruct (sym <=? 285); [|discriminate].
  destruct (decode_backref b1 d sym) as [[[length distance] b4]|]; [|discriminate].
  unfold lz77_backref in *.
  destruct ((distance <=? 0) || (len_of out <? to_size_t distance)); [discriminate|].
  destruct (e <? len_of out + length); [discriminate|].
  apply IH in H. destruct H as (Hle & Hmono). rewrite lz77_copy_len in Hle.
  split; [lia|]. intros e' He'.
  rewrite (proj2 (Z.ltb_ge e' (len_of out + length))) by lia. by apply Hmono.
Qed.

Lemma inflate_blocks_mono e : forall fuel sf bs out o,
  bs_wf bs ->
  inflate_blocks fuel sf bs e out = Some o ->
  len_of out <= len_of o
  /\ forall e', len_of o <= e' -> inflate_blocks fuel sf bs e' out = Some o.
Proof.
  induction fuel as [|fuel IH]; intros sf bs out o Hwf H; [discriminate|].
  cbn [inflate_blocks] in *. cbv zeta in *.
  destruct (png_bitstream_get bs 1) as [[bfinal b1]|] eqn:E1; [|discriminate].
  destruct (png_bitstream_get_inv _ _ _ _ E1 ltac:(lia) Hwf) as (Hw1 & _ & _).
  destruct (png_bitstream_get b1 2) as [[btype b2]|] eqn:E2; [|discriminate].
  destruct (png_bitstream_get_inv _ _ _ _ E2 ltac:(lia) Hw1) as (Hw2 & _ & _).
  destruct (btype =? 0).
  { destruct (png_bitstream_align b2) as [b3|] eqn:E3; [|discriminate].
    destruct (png_bitstream_align_inv _ _ E3 Hw2) as (Hw3 & _).
    destruct (png_bitstream_get b3 16) as [[slen b4]|] eqn:E4; [|discriminate].
    destruct (png_bitstream_get_inv _ _ _ _ E4 ltac:(lia) Hw3) as (Hw4 & _ & Hs).
    destruct (png_bitstream_get b4 16) as [[snlen b5]|] eqn:E5; [|discriminate].
    destruct (png_bitstream_get_inv _ _ _ _ E5 ltac:(lia) Hw4) as (Hw5 & _ & _).
    destruct (negb _); [discriminate|].
    destruct (e <? len_of out + slen); [discriminate|].
    destruct (png_bitstream_read_bytes b5 slen) as [[bytes b6]|] eqn:E6; [|discriminate].
    destruct (png_bitstream_read_bytes_inv _ _ _ _ E6 Hs Hw5) as (Hw6 & _).
    pose proof (png_bitstream_read_bytes_len _ _ _ _ E6 Hw5 Hs) as Hlen.
    assert (Hgrow : len_of (out ++ bytes) = len_of out + slen)
      by (rewrite len_of_app; lia).
    destruct (to_int bfinal =? 0).
    - apply IH in H; [|done]. destruct H as (Hle & Hmono).
      split; [lia|]. intros e' He'.
      rewrite (proj2 (Z.ltb_ge e' (len_of out + slen))) by lia. by apply Hmono.
    - injection H as <-. split; [lia|]. intros e' He'.
      by rewrite (proj2 (Z.ltb_ge e' (len_of out + slen))) by lia. }
  destruct ((btype =? 1) || (btype =? 2)); [|discriminate].
  destruct (if btype =? 1 then _ else _) as [[[l d] b3]|] eqn:Et; [|discriminate].
  assert (Hw3 : bs_wf b3).
  { destruct (btype =? 1).
    - destruct png_build_fixed_huffman as [[? ?]|]; by simplify_eq.
    - by destruct (png_build_dynamic_huffman_inv _ _ _ _ Et Hw2). }
  destruct (inflate_symbols sf b3 l d e out) as [[out' b']|] eqn:Es; [|discriminate].
  destruct (inflate_symbols_inv _ _ _ _ _ _ _ _ Es Hw3) as (Hw' & _).
  destruct (inflate_symbols_mono _ _ _ _ _ _ _ _ Es) as (Hle1 & Hmono1).
  destruct (to_int bfinal =? 0).
  - apply IH in H; [|done]. destruct H as (Hle & Hmono).
    split; [lia|]. intros e' He'. rewrite Hmono1 by lia. by apply Hmono.
  - injection H as <-. split; [lia|]. intros e' He'. by rewrite Hmono1 by lia.
Qed.

(** The block loop [png_inflate_zlib] runs on a stream, and its result. *)
Lemma png_inflate_zlib_run buf :
  exists fuel bs,
    bs_wf bs
    /\ forall e o, png_inflate_zlib buf e = Some o ->
         inflate_blocks fuel fuel bs e [] = Some o /\ len_of o = e.
Proof.
  set (pos := if negb (Z.land (byte_at buf 1) 32 =? 0) then 6 else 2).
  exists (inflate_fuel (len_of buf - pos - 4)),
         {| bs_data := slice buf pos (len_of buf - pos - 4);
            bytepos := 0; bitbuf := 0; bitcount := 0 |}.
  split.
  - unfold bs_wf. cbn [bs_data bytepos bitcount].
    pose proof (len_of_nonneg (slice buf pos (len_of buf - pos - 4))). lia.
  - intros e o. unfold png_inflate_zlib. cbv zeta. fold pos. intros H.
    destruct (len_of buf <? 6); [discriminate|].
    destruct (negb (Z.land (byte_at buf 0) 15 =? 8)); [discriminate|].
    destruct (negb (_ mod 31 =? 0)); [discriminate|].
    destruct (_ && _); [discriminate|].
    destruct (len_of buf <? pos + 4); [discriminate|].
    destruct (negb (malloc_ok e)); [discriminate|].
    destruct (inflate_blocks _ _ _ e []) as [out|]; [|discriminate].
    destruct (negb (len_of out =? e)) eqn:El; [discriminate|].
    apply negb_false_iff, Z.eqb_eq in El.
    destruct (negb (png_adler32 out =? _)); [discriminate|].
    by simplify_eq.
Qed.

(** X14.  A zlib stream inflates under at most one expected length, and to
    one output: two successful calls of [png_inflate_zlib] on the same
    stream have the same expected length and the same result. *)
Theorem png_inflate_zlib_one_length (buf : list Z) (e1 e2 : Z) (o1 o2 : list Z) :
  png_inflate_zlib buf e1 = Some o1 ->
  png_inflate_zlib buf e2 = Some o2 ->
  e1 = e2 /\ o1 = o2.
Proof.
  intros H1 H2. destruct (png_inflate_zlib_run buf) as (fuel & bs & Hwf & Hrun).
  assert (Hsame : forall ea eb oa ob,
            png_inflate_zlib buf ea = Some oa -> png_inflate_zlib buf eb = Some ob ->
            ea <= eb -> ea = eb /\ oa = ob).
  { intros ea eb oa ob Ha Hb Hle.
    destruct (Hrun ea oa Ha) as (Ra & La). destruct (Hrun eb ob Hb) as (Rb & Lb).
    apply inflate_blocks_mono in Ra; [|done].
    destruct Ra as (_ & Hmono). rewrite (Hmono eb) in Rb by lia.
    simplify_eq. done. }
  destruct (Z.le_ge_cases e1 e2) as [Hle|Hle].
  - by apply Hsame.
  - destruct (Hsame e2 e1 o2 o1 H2 H1 Hle) as (-> & ->). done.
Qed.

(** ** Chunks the decoder passes over *)

Lemma collect_with_Done cks : forall st, collect_with cks st Done = collect cks st.
Proof.
  induction cks as [|c rest IH]; intros st; [done|].
  cbn [collect_with collect]. by rewrite !IH.
Qed.

Lemma read_chunks_collect_with cks : forall fuel pre more st,
  Forall chunk_wf cks ->
  read_chunks (length cks + fuel) (pre ++ flat_map chunk_bytes cks ++ more)
    (len_of pre) st
  = collect_with cks st
      (fun st' =>
         read_chunks fuel (pre ++ flat_map chunk_bytes cks ++ more)
           (len_of (pre ++ flat_map chunk_bytes cks)) st').
Proof.
  induction cks as [|k rest IH]; intros fuel pre tail st Hwf.
  - cbn [flat_map app collect_with length Nat.add]. by rewrite app_nil_r.
  - apply Forall_cons in Hwf. destruct Hwf as (Hk & Hrest).
    pose proof Hk as (Ht & Hc & Hp).
    pose proof (len_of_nonneg (ck_payload k)) as Hp0.
    cbn [flat_map length Nat.add]. set (more := flat_map chunk_bytes rest ++ tail).
    set (L := len_of (ck_payload k)) in *.
    assert (Hbuf : pre ++ (chunk_bytes k ++ flat_map chunk_bytes rest) ++ tail
                   = pre ++ chunk_bytes k ++ more).
    { subst more. by rewrite <- app_assoc. }
    rewrite Hbuf.
    set (buf := pre ++ chunk_bytes k ++ more).
    assert (Hlen : len_of buf = len_of pre + 12 + L + len_of more).
    { subst buf. rewrite !len_of_app, chunk_bytes_len by done. lia. }
    pose proof (len_of_nonneg more) as Hm0. pose proof (len_of_nonneg pre) as Hpre0.
    assert (Hcl : png_read_be32_mem buf (len_of pre) = L).
    { subst buf. unfold chunk_bytes. rewrite <- !app_assoc.
      pose proof (png_read_be32_mem_app pre (be32_bytes L)
                    (ck_type k ++ ck_payload k ++ ck_crc k ++ more) 0
                    ltac:(lia) ltac:(unfold len_of; cbn; lia)) as H1.
      rewrite Z.add_0_r in H1. fold L. rewrite H1.
      apply png_read_be32_mem_bytes. lia. }
    assert (Hty : slice buf (len_of pre + 4) 4 = ck_type k).
    { subst buf. unfold chunk_bytes. rewrite <- !app_assoc.
      rewrite (app_assoc pre). apply slice_middle'.
      - rewrite len_of_app. unfold len_of. rewrite be32_bytes_length. lia.
      - unfold len_of. lia. }
    assert (Hsplit : buf = (pre ++ be32_bytes L ++ ck_type k) ++ ck_payload k
                           ++ (ck_crc k ++ more)).
    { subst buf. unfold chunk_bytes. fold L. by rewrite <- !app_assoc. }
    assert (Hhead : len_of (pre ++ be32_bytes L ++ ck_type k) = len_of pre + 8).
    { rewrite !len_of_app. unfold len_of. rewrite be32_bytes_length. lia. }
    assert (Hnext : buf = (pre ++ chunk_bytes k) ++ flat_map chunk_bytes rest ++ tail).
    { subst buf more. by rewrite <- app_assoc. }
    assert (Hnpos : len_of pre + 8 + L + 4 = len_of (pre ++ chunk_bytes k)).
    { rewrite len_of_app, chunk_bytes_len by done. fold L. lia. }
    assert (Hend : len_of (pre ++ chunk_bytes k ++ flat_map chunk_bytes rest)
                   = len_of ((pre ++ chunk_bytes k) ++ flat_map chunk_bytes rest)).
    { by rewrite <- app_assoc. }
    cbn [read_chunks]. rewrite Hcl, Hty.
    replace (len_of pre + 8 <=? len_of buf) with true
      by (symmetry; apply Z.leb_le; lia).
    replace (len_of buf <? len_of pre + 8 + L + 4) with false
      by (symmetry; apply Z.ltb_ge; lia).
    cbn [negb collect_with]. fold L. rewrite Hnpos.
    assert (Hrec : forall st',
              read_chunks (length rest + fuel) buf (len_of (pre ++ chunk_bytes k)) st'
              = collect_with rest st'
                  (fun st'' =>
                     read_chunks fuel buf
                       (len_of (pre ++ chunk_bytes k ++ flat_map chunk_bytes rest)) st'')).
    { intros st'. rewrite Hend. rewrite Hnext. by apply IH. }
    destruct (bool_decide (ck_type k = type_IHDR)).
    { destruct (L <? 13) eqn:E13; [done|]. apply Z.ltb_ge in E13.
      rewrite Hrec. f_equal. f_equal.
      - f_equal. rewrite Hsplit, <- Hhead.
        rewrite <- (Z.add_0_r (len_of _)). apply png_read_be32_mem_app; lia.
      - f_equal. rewrite Hsplit, <- Hhead. apply png_read_be32_mem_app; lia.
      - rewrite Hsplit, <- Hhead. apply byte_at_middle. fold L. lia. }
    destruct (bool_decide (ck_type k = type_IDAT)).
    { fold L. destruct (negb (malloc_ok (len_of (default [] (cs_idat st)) + L))); [done|].
      rewrite Hrec. rewrite Hsplit at 1.
      by rewrite (slice_middle' _ (ck_payload k) _ (len_of pre + 8) L)
        by (done || by rewrite Hhead). }
    destruct (bool_decide (ck_type k = type_IEND)); [done|].
    apply Hrec.
Qed.

(** A sequence that holds an IEND chunk ends the loop, whatever follows. *)
Lemma collect_with_iend cks k : forall st,
  Exists (fun c => ck_type c = type_IEND) cks ->
  collect_with cks st k = collect cks st.
Proof.
  induction cks as [|c rest IH]; intros st Hex; [by apply Exists_nil in Hex|].
  cbn [collect_with collect].
  apply Exists_cons in Hex. destruct Hex as [Hc | Hrest].
  - rewrite Hc. reflexivity.
  - by rewrite !IH by done.
Qed.

(** X15.  After a whole IEND chunk [png_load_mem] reads nothing: whatever
    bytes follow it, the result is the same. *)
Theorem bytes_after_iend_ignored (cks : list chunk) (rest : list Z) :
  Forall chunk_wf cks ->
  Exists (fun c => ck_type c = type_IEND) cks ->
  png_load_mem (signature ++ flat_map chunk_bytes cks ++ rest)
  = png_load_mem (signature ++ flat_map chunk_bytes cks).
Proof.
  intros Hwf Hex.
  assert (Hshort : png_load_mem (signature ++ flat_map chunk_bytes cks)
                   = let! st := collect cks chunk_state_init in load_image st).
  { rewrite <- (app_nil_r (flat_map chunk_bytes cks)).
    apply png_load_mem_chunks; [done | by left]. }
  rewrite Hshort. unfold png_load_mem.
  set (buf := signature ++ flat_map chunk_bytes cks ++ rest).
  assert (Hlen : 8 <= len_of buf).
  { subst buf. rewrite len_of_app. change (len_of signature) with 8.
    pose proof (len_of_nonneg (flat_map chunk_bytes cks ++ rest)). lia. }
  replace (len_of buf <? 8) with false by (symmetry; apply Z.ltb_ge; lia).
  assert (Hsig : slice buf 0 8 = signature) by reflexivity.
  rewrite Hsig. rewrite bool_decide_eq_true_2 by done. cbn [negb].
  change 8 with (len_of signature) at 1.
  assert (Hfuel : (length cks <= length buf)%nat).
  { subst buf. rewrite !length_app. pose proof (flat_map_chunks_length cks Hwf). lia. }
  replace (length buf) with (length cks + (length buf - length cks))%nat by lia.
  subst buf. rewrite read_chunks_collect_with by done.
  by rewrite collect_with_iend.
Qed.

Lemma collect_skip cks1 k cks2 : forall st,
  ck_type k <> type_IHDR -> ck_type k <> type_IDAT -> ck_type k <> type_IEND ->
  collect (cks1 ++ k :: cks2) st = collect (cks1 ++ cks2) st.
Proof.
  intros st H1 H2 H3. revert st.
  induction cks1 as [|c rest IH]; intros st.
  - cbn [app collect]. by rewrite !bool_decide_eq_false_2 by done.
  - cbn [app collect]. by rewrite !IH.
Qed.

(** X16.  A chunk whose type is not IHDR, IDAT or IEND changes nothing: the
    input decodes as it does without the chunk. *)
Theorem unknown_chunk_skipped
    (cks1 : list chunk) (k : chunk) (cks2 : list chunk) (tail : list Z) :
  Forall chunk_wf cks1 -> chunk_wf k -> Forall chunk_wf cks2 -> overruns tail ->
  ck_type k <> type_IHDR -> ck_type k <> type_IDAT -> ck_type k <> type_IEND ->
  png_load_mem (signature ++ flat_map chunk_bytes (cks1 ++ k :: cks2) ++ tail)
  = png_load_mem (signature ++ flat_map chunk_bytes (cks1 ++ cks2) ++ tail).
Proof.
  intros Hw1 Hk Hw2 Hov H1 H2 H3.
  rewrite !png_load_mem_chunks; [| by apply Forall_app | done | | done].
  - by rewrite collect_skip.
  - apply Forall_app. split; [done|]. by apply Forall_cons.
Qed.

Lemma collect_idat_split cks1 a b crc crc1 crc2 cks2 : forall st,
  collect (cks1 ++ {| ck_type := type_IDAT; ck_payload := a ++ b; ck_crc := crc |}
                :: cks2) st
  = collect (cks1 ++ {| ck_type := type_IDAT; ck_payload := a; ck_crc := crc1 |}
                  :: {| ck_type := type_IDAT; ck_payload := b; ck_crc := crc2 |}
                  :: cks2) st.
Proof.
  induction cks1 as [|c rest IH]; intros st.
  - cbn [app collect ck_type ck_payload cs_idat default].
    rewrite !(bool_decide_eq_false_2 (type_IDAT = type_IHDR)) by done.
    rewrite !(bool_decide_eq_true_2 (type_IDAT = type_IDAT)) by done.
    cbn [cs_width cs_height cs_color_type].
    set (d := default [] (cs_idat st)). change (id (d ++ a)) with (d ++ a).
    rewrite !len_of_app. unfold malloc_ok.
    pose proof (len_of_nonneg a). pose proof (len_of_nonneg b).
    destruct (len_of d + (len_of a + len_of b) <=? PTRDIFF_MAX) eqn:E.
    + apply Z.leb_le in E.
      rewrite (proj2 (Z.leb_le (len_of d + len_of a) _)) by lia.
      rewrite (proj2 (Z.leb_le (len_of d + len_of a + len_of b) _)) by lia.
      cbn [negb]. by rewrite app_assoc.
    + apply Z.leb_gt in E. cbn [negb].
      destruct (len_of d + len_of a <=? PTRDIFF_MAX); cbn [negb]; [|done].
      by rewrite (proj2 (Z.leb_gt (len_of d + len_of a + len_of b) _)) by lia.
  - cbn [app collect]. by rewrite !IH.
Qed.

(** X17.  [png_load_mem] joins the payloads of all IDAT chunks: cutting the
    payload of an IDAT chunk into two IDAT chunks changes nothing. *)
Theorem idat_chunks_joined
    (cks1 cks2 : list chunk) (a b crc crc1 crc2 : list Z) (tail : list Z) :
  Forall chunk_wf cks1 -> Forall chunk_wf cks2 -> overruns tail ->
  length crc = 4%nat -> length crc1 = 4%nat -> length crc2 = 4%nat ->
  len_of a + len_of b < 4294967296 ->
  png_load_mem
    (signature
     ++ flat_map chunk_bytes
          (cks1 ++ {| ck_type := type_IDAT; ck_payload := a ++ b; ck_crc := crc |}
                :: cks2)
     ++ tail)
  = png_load_mem
      (signature
       ++ flat_map chunk_bytes
            (cks1 ++ {| ck_type := type_IDAT; ck_payload := a; ck_crc := crc1 |}
                  :: {| ck_type := type_IDAT; ck_payload := b; ck_crc := crc2 |}
                  :: cks2)
       ++ tail).
Proof.
  intros Hw1 Hw2 Hov Hc Hc1 Hc2 Hlen.
  pose proof (len_of_nonneg a). pose proof (len_of_nonneg b).
  rewrite !png_load_mem_chunks; [| | done | | done].
  - by rewrite (collect_idat_split cks1 a b crc crc1 crc2).
  - apply Forall_app. split; [done|].
    apply Forall_cons. split; [|apply Forall_cons; split; [|done]].
    + split; [done|]. split; [done|]. cbn [ck_payload]. lia.
    + split; [done|]. split; [done|]. cbn [ck_payload]. lia.
  - apply Forall_app. split; [done|]. apply Forall_cons. split; [|done].
    split; [done|]. split; [done|]. cbn [ck_payload]. rewrite len_of_app. lia.
Qed.

(** ** Images saved with a text chunk *)

Lemma png_write_text_chunk_done f keyword text :
  len_of keyword + 1 + len_of text + 4 <= PTRDIFF_MAX ->
  png_write_text_chunk f keyword text
  = Done (f ++ chunk_bytes (written_chunk type_tEXt (keyword ++ [0] ++ text))).
Proof.
  intros Hlen. unfold png_write_text_chunk, malloc_ok.
  rewrite (proj2 (Z.leb_le (len_of keyword + 1 + len_of text) PTRDIFF_MAX)) by lia.
  assert (El : len_of keyword + 1 + len_of text = len_of (keyword ++ [0] ++ text)).
  { rewrite !len_of_app. change (len_of [0]) with 1. lia. }
  rewrite El. apply png_write_chunk_some. lia.
Qed.

(** The file [png_save_internal] writes, with or without a text chunk. *)
Lemma png_save_internal_chunks img f (kt : option (list Z * list Z)) :
  encodable img ->
  height img * (1 + width img * channels img) < 4294967296 - 400000 ->
  (forall k t, kt = Some (k, t) -> len_of k + 1 + len_of t + 4 <= PTRDIFF_MAX) ->
  png_save_internal img f (fst <$> kt) (snd <$> kt)
  = Done (0, f ++ signature
               ++ flat_map chunk_bytes
                    (saved_chunks img
                       match kt with
                       | Some (k, t) => [written_chunk type_tEXt (k ++ [0] ++ t)]
                       | None => []
                       end)).
Proof.
  intros Henc Hbig Htext. pose proof Henc as (Hw & Hh & Hc & Hn & Hhn & Hdata).
  unfold png_save_internal.
  assert (Hih : len_of (ihdr_bytes img) = 13) by reflexivity.
  rewrite <- Hih at 1. rewrite png_write_chunk_some by (rewrite Hih; unfold PTRDIFF_MAX; lia).
  cbn [exec_bind].
  set (text_chunks := match kt with
                      | Some (k, t) => [written_chunk type_tEXt (k ++ [0] ++ t)]
                      | None => []
                      end).
  set (f2 := (f ++ signature) ++ chunk_bytes (written_chunk type_IHDR (ihdr_bytes img))).
  assert (Hf3 : match fst <$> kt, snd <$> kt with
                | Some k, Some t => png_write_text_chunk f2 k t
                | _, _ => Done f2
                end = Done (f2 ++ flat_map chunk_bytes text_chunks)).
  { subst text_chunks. destruct kt as [[k t]|]; cbn [fmap option_fmap option_map fst snd].
    - rewrite png_write_text_chunk_done by (by apply Htext).
      cbn [flat_map]. by rewrite app_nil_r.
    - cbn [flat_map]. by rewrite app_nil_r. }
  rewrite Hf3. cbn [exec_bind].
  set (n := width img * channels img) in *.
  unfold INT_MAX in *.
  assert (Hn0 : 0 <= n) by (subst n; nia).
  rewrite (to_int_small n) by (unfold INT_MAX; lia).
  rewrite (to_int_small (1 + n)) by (unfold INT_MAX; lia).
  rewrite (to_size_t_small (1 + n)), (to_size_t_small (height img)) by lia.
  rewrite (to_size_t_small (height img * (1 + n))) by nia.
  unfold malloc_ok at 1. unfold PTRDIFF_MAX.
  replace (height img * (1 + n) <=? 9223372036854775807) with true
    by (symmetry; apply Z.leb_le; nia).
  fold (zeros (height img * (1 + n))).
  pose proof (save_rows_spec img n (Z.to_nat (height img)) 0 []
                Hw Hc eq_refl ltac:(unfold INT_MAX; lia)
                ltac:(unfold INT_MAX; lia) ltac:(lia) ltac:(lia) ltac:(lia) eq_refl) as Hrows.
  cbn [app] in Hrows. rewrite Z2Nat.id in Hrows by lia.
  change (0 * n) with 0 in Hrows. rewrite drop_0_Z in Hrows.
  rewrite Hrows. cbn [exec_bind]. fold (image_raw img).
  pose proof (image_raw_len img Henc) as Hrl. fold n in Hrl. rewrite <- Hrl.
  rewrite png_deflate_store_done by (rewrite Hrl; nia).
  cbn [exec_bind].
  assert (Hzl : len_of (zlib_store (image_raw img)) < 4294967296).
  { unfold zlib_store. rewrite !len_of_app, store_blocks_len by done.
    change (len_of [120; 1]) with 2. change (len_of (be32_bytes _)) with 4.
    rewrite Hrl. Z.div_mod_to_equations. nia. }
  rewrite png_write_chunk_some by (unfold PTRDIFF_MAX; lia).
  cbn [exec_bind]. rewrite png_write_chunk_none. cbn [exec_bind].
  unfold saved_chunks, f2. rewrite !flat_map_app. cbn [flat_map]. rewrite !app_nil_r.
  rewrite <- !app_assoc. reflexivity.
Qed.

Lemma type_tEXt_other :
  type_tEXt <> type_IHDR /\ type_tEXt <> type_IDAT /\ type_tEXt <> type_IEND.
Proof. by repeat split. Qed.

Lemma saved_chunks_wf img text :
  encodable img ->
  height img * (1 + width img * channels img) < 4294967296 - 400000 ->
  Forall chunk_wf text ->
  Forall chunk_wf (saved_chunks img text).
Proof.
  intros Henc Hbig Htext. unfold saved_chunks.
  pose proof (image_raw_len img Henc) as Hrl.
  destruct Henc as (Hw & Hh & Hc & Hn & Hhn & Hdata).
  apply Forall_app. split; [|apply Forall_app; split; [done|]].
  - apply Forall_cons. split; [|done]. by apply written_chunk_wf.
  - apply Forall_cons. split; [|apply Forall_cons; split; [|done]].
    + apply written_chunk_wf; [done|].
      rewrite zlib_store_len, Hrl. unfold INT_MAX in *. Z.div_mod_to_equations. nia.
    + by apply written_chunk_wf.
Qed.

Lemma chunks_len cks :
  Forall chunk_wf cks ->
  len_of (flat_map chunk_bytes cks)
  = fold_right (fun k acc => 12 + len_of (ck_payload k) + acc) 0 cks.
Proof.
  induction 1 as [|k rest Hk _ IH]; [done|].
  cbn [flat_map fold_right]. rewrite len_of_app, chunk_bytes_len, IH by done. lia.
Qed.

(** X18.  When keyword, zero byte and text together are shorter than [2^32]
    bytes, so that their length fits the length field of a chunk, an image
    saved with a keyword and a text is saved as by [png_save] with one more
    chunk, of type tEXt and holding the keyword, a zero byte and the text,
    between IHDR and IDAT; the decoder passes over it and returns the image.
    With a NULL keyword or a NULL text, no such chunk is written. *)
Theorem png_save_with_text_roundtrip (img : png_image) (keyword text : list Z) :
  1 <= width img -> 1 <= height img ->
  channels img = 1 \/ channels img = 2 \/ channels img = 3 \/ channels img = 4 ->
  len_of (data img) = width img * height img * channels img ->
  height img * (1 + width img * channels img) <= INT_MAX ->
  len_of keyword + 1 + len_of text < 4294967296 ->
  png_save_internal img [] (Some keyword) (Some text)
  = Done (0, signature
             ++ flat_map chunk_bytes
                  [written_chunk type_IHDR (ihdr_bytes img);
                   written_chunk type_tEXt (keyword ++ [0] ++ text);
                   written_chunk type_IDAT (zlib_store (image_raw img));
                   written_chunk type_IEND []])
  /\ (forall path fs, ~ elem_of path (fs_denied fs) ->
      exists fs',
        png_save_with_text (Some img) (Some path) (Some keyword) (Some text) fs
        = Done (0, fs')
        /\ png_load path fs' = Done (Some img))
  /\ (forall path fs,
        png_save_with_text (Some img) path None (Some text) fs = png_save (Some img) path fs
        /\ png_save_with_text (Some img) path (Some keyword) None fs
           = png_save (Some img) path fs).
Proof.
  intros Hw Hh Hc Hdata Hmax Htext.
  assert (Henc : encodable img) by (apply encodable_of_bound; lia).
  assert (Hbig : height img * (1 + width img * channels img) < 4294967296 - 400000)
    by (unfold INT_MAX in *; lia).
  pose proof (len_of_nonneg keyword) as Hk0. pose proof (len_of_nonneg text) as Ht0.
  set (tx := written_chunk type_tEXt (keyword ++ [0] ++ text)).
  assert (Htx : chunk_wf tx).
  { apply written_chunk_wf; [done|]. rewrite !len_of_app. change (len_of [0]) with 1. lia. }
  assert (Hsave : png_save_internal img [] (Some keyword) (Some text)
                  = Done (0, signature
                             ++ flat_map chunk_bytes (saved_chunks img [tx]))).
  { apply (png_save_internal_chunks img [] (Some (keyword, text)) Henc Hbig).
    intros k t [= <- <-]. unfold PTRDIFF_MAX. lia. }
  rewrite Hsave.
  assert (Hload : png_load_mem (signature ++ flat_map chunk_bytes (saved_chunks img [tx]))
                  = Done (Some img)).
  { rewrite <- (load_saved_chunks img Hw Hh Hc Hdata Hmax).
    rewrite <- (app_nil_r (flat_map chunk_bytes (saved_chunks img [tx]))).
    rewrite <- (app_nil_r (flat_map chunk_bytes (saved_chunks img []))).
    rewrite !png_load_mem_chunks;
      [| by apply saved_chunks_wf | by left
       | apply saved_chunks_wf; [done | done | by apply Forall_cons] | by left].
    destruct type_tEXt_other as (H1 & H2 & H3).
    unfold saved_chunks.
    change ([written_chunk type_IHDR (ihdr_bytes img)] ++ [tx] ++ ?rest)
      with ([written_chunk type_IHDR (ihdr_bytes img)] ++ tx :: rest).
    by rewrite collect_skip by done. }
  split; [reflexivity|]. split.
  - intros path fs Hpath. unfold png_save_with_text, save_to.
    rewrite bool_decide_eq_false_2 by done.
    rewrite Hsave.
    cbn [exec_bind fst snd].
    eexists. split; [reflexivity|].
    unfold png_load. cbn [fs_files]. rewrite lookup_insert_eq.
    assert (Hfl : len_of (signature ++ flat_map chunk_bytes (saved_chunks img [tx]))
                  <= PTRDIFF_MAX).
    { rewrite len_of_app, chunks_len
        by (apply saved_chunks_wf; [done | done | by apply Forall_cons]).
      unfold saved_chunks. cbn [app fold_right written_chunk ck_payload tx].
      change (len_of signature) with 8. change (len_of (ihdr_bytes img)) with 13.
      change (len_of []) with 0.
      rewrite zlib_store_len, image_raw_len by done.
      rewrite !len_of_app.
      replace (len_of (0 :: text)) with (1 + len_of text)
        by (unfold len_of; cbn [length]; lia).
      assert (0 <= height img * (1 + width img * channels img)) by nia.
      set (R := height img * (1 + width img * channels img)) in *.
      unfold PTRDIFF_MAX, INT_MAX in *. Z.div_mod_to_equations. lia. }
    unfold malloc_ok. rewrite (proj2 (Z.leb_le _ _) Hfl). exact Hload.
  - intros path fs. split; [reflexivity|]. reflexivity.
Qed.

(** ** Runs of the decoder that stay inside their buffers *)








(** X20.  When [width * channels] wraps to a negative [int] while the stream
    inflates to the wrapped raw size and the image is allocated, the row
    loop of [png_load_mem] leaves its buffers in the first row: the row
    length, converted to [size_t], is above every buffer size. *)
Theorem negative_row_size_out_of_bounds
    (buf : list Z) (st : chunk_state) (idat raw : list Z) (c : Z) (img : png_image) :
  8 <= len_of buf -> slice buf 0 8 = signature ->
  read_chunks (length buf) buf 8 chunk_state_init = Done st ->
  cs_idat st = Some idat ->
  cs_width st <> 0 -> 1 <= cs_height st ->
  channels_of (cs_color_type st) = Some c ->
  to_int (cs_width st * c) < 0 ->
  png_inflate_zlib idat
    (to_size_t (to_int (cs_height st * to_int (1 + to_int (cs_width st * c)))))
  = Some raw ->
  png_create (cs_width st) (cs_height st) c = Some img ->
  png_load_mem buf = Undefined.
Proof.
  intros Hlen Hsig Hst Hidat Hw Hh Hc Hneg Hinf Hcr.
  unfold png_load_mem.
  rewrite (proj2 (Z.ltb_ge (len_of buf) 8)) by lia.
  rewrite Hsig, bool_decide_eq_true_2 by done. cbn [negb].
  rewrite Hst. cbn [exec_bind]. unfold load_image. rewrite Hidat.
  rewrite (proj2 (Z.eqb_neq (cs_width st) 0)) by done.
  rewrite (proj2 (Z.eqb_neq (cs_height st) 0)) by lia.
  cbn [orb]. rewrite Hc, Hinf, Hcr.
  rewrite range_from_cons by lia. cbn [load_rows].
  rewrite Z.mul_0_l. change (to_int 0) with 0.
  destruct (load raw 0) as [filter|]; [|done]. cbn [exec_bind].
  apply png_inflate_zlib_len in Hinf. destruct Hinf as (Hraw & Hmax).
  pose proof (to_int_range (cs_width st * c)) as Hr.
  unfold read_range.
  assert (Hn : to_size_t (to_int (cs_width st * c))
               = to_int (cs_width st * c) + 18446744073709551616).
  { unfold to_size_t. symmetry. apply Z.mod_unique_pos with (q := -1); lia. }
  rewrite Hn. unfold PTRDIFF_MAX in *.
  rewrite (proj2 (Z.leb_gt (0 + 1 + _) (len_of raw))) by lia.
  by rewrite andb_false_r.
Qed.

(** ** Copies of an image *)

(** Copying a whole buffer into a fresh one of the same size. *)
Lemma memcpy_whole (d : list Z) n :
  len_of d = n -> memcpy (repeat 0 (Z.to_nat n)) 0 d 0 n = Done d.
Proof.
  intros Hlen. pose proof (len_of_nonneg d) as Hn.
  unfold memcpy. rewrite len_of_repeat, Z2Nat.id by lia. rewrite Hlen.
  rewrite Z.add_0_l, !Z.leb_refl, (proj2 (Z.leb_le 0 n)) by lia.
  cbn [andb]. f_equal.
  change (Z.to_nat 0) with 0%nat. rewrite take_0, app_nil_l.
  rewrite <- Hlen, slice_all.
  rewrite drop_ge by (rewrite repeat_length; unfold len_of; lia).
  apply app_nil_r.
Qed.

Lemma png_clone_same img :
  len_of (data img) = pixel_bytes (width img) (height img) (channels img) ->
  pixel_bytes (width img) (height img) (channels img) <= PTRDIFF_MAX ->
  png_clone (Some img) = Done (Some img).
Proof.
  destruct img as [w h c d]. cbn [data width height channels]. intros Hlen Hmax.
  unfold png_clone, png_create, malloc_ok. cbn [data width height channels].
  rewrite (proj2 (Z.leb_le _ _) Hmax). cbn [data width height channels].
  by rewrite memcpy_whole.
Qed.

(** X21.  [png_clone] returns an image equal to its argument, field by field
    and byte by byte, for every image whose buffer has the size [png_create]
    gives it: so for what [png_create] and [png_load_mem] return.  When the
    buffer is shorter, the copy reads past its end. *)
Theorem png_clone_equal :
  (forall img,
     len_of (data img) = pixel_bytes (width img) (height img) (channels img) ->
     pixel_bytes (width img) (height img) (channels img) <= PTRDIFF_MAX ->
     png_clone (Some img) = Done (Some img))
  /\ (forall w h c img,
        png_create w h c = Some img -> png_clone (Some img) = Done (Some img))
  /\ (forall buf img,
        png_load_mem buf = Done (Some img) -> png_clone (Some img) = Done (Some img))
  /\ (forall img,
        len_of (data img) < pixel_bytes (width img) (height img) (channels img) ->
        pixel_bytes (width img) (height img) (channels img) <= PTRDIFF_MAX ->
        png_clone (Some img) = Undefined).
Proof.
  split; [exact png_clone_same|]. split; [|split].
  - intros w h c img H. apply png_create_spec in H.
    destruct H as (Hw & Hh & Hc & Hd & Hm). subst w h c. by apply png_clone_same.
  - intros buf img H. apply png_load_mem_some in H. destruct H as (st & H).
    apply load_image_some in H. destruct H as (idat & raw & _ & _ & _ & _ & _ & Hd & Hm).
    by apply png_clone_same.
  - intros img Hlt Hmax. unfold png_clone, png_create, malloc_ok.
    rewrite (proj2 (Z.leb_le _ _) Hmax). cbn [data width height channels].
    unfold memcpy.
    rewrite (proj2 (Z.leb_gt (0 + pixel_bytes _ _ _) (len_of (data img)))) by lia.
    by rewrite andb_false_r.
Qed.

(** ** The fixed tables *)

Lemma in_range_from a b x : a <= x < b -> In x (range_from a b).
Proof.
  intros Hx. unfold range_from. apply in_map_iff.
  exists (Z.to_nat (x - a)). split; [lia|]. apply in_seq. lia.
Qed.

Lemma fixed_litlen_codes s :
  0 <= s < 288 ->
  byte_at fixed_litlen_lengths s = fixed_len s
  /\ canonical_code fixed_litlen_lengths s = fixed_code s.
Proof.
  intros Hs.
  assert (Hall : forallb (fun s => (byte_at fixed_litlen_lengths s =? fixed_len s)
                                   && (canonical_code fixed_litlen_lengths s
                                       =? fixed_code s))
                   (range_from 0 288) = true) by (vm_compute; reflexivity).
  rewrite forallb_forall in Hall. specialize (Hall s (in_range_from 0 288 s Hs)).
  apply andb_true_iff in Hall. by rewrite !Z.eqb_eq in Hall.
Qed.

Lemma fixed_dist_codes s :
  0 <= s < 32 ->
  byte_at fixed_dist_lengths s = 5 /\ canonical_code fixed_dist_lengths s = s.
Proof.
  intros Hs.
  assert (Hall : forallb (fun s => (byte_at fixed_dist_lengths s =? 5)
                                   && (canonical_code fixed_dist_lengths s =? s))
                   (range_from 0 32) = true) by (vm_compute; reflexivity).
  rewrite forallb_forall in Hall. specialize (Hall s (in_range_from 0 32 s Hs)).
  apply andb_true_iff in Hall. by rewrite !Z.eqb_eq in Hall.
Qed.

Lemma repeat_is_byte x n : is_byte x -> Forall is_byte (repeat x n).
Proof. intros Hx. induction n; cbn [repeat]; by constructor. Qed.

Lemma fixed_litlen_lengths_bytes : Forall is_byte fixed_litlen_lengths.
Proof.
  unfold fixed_litlen_lengths. rewrite !Forall_app.
  repeat split; apply repeat_is_byte; unfold is_byte; lia.
Qed.

(** X22.  [png_build_fixed_huffman] succeeds, and its tables decode the fixed
    code of DEFLATE: literal/length symbols 0 to 143 have the 8-bit codes
    from 48, 144 to 255 the 9-bit codes from 400, 256 to 279 the 7-bit codes
    from 0, 280 to 287 the 8-bit codes from 192, and distance symbol [s] has
    the 5-bit code [s]; each code is read most significant bit first. *)
Theorem fixed_huffman_codes :
  png_build_fixed_huffman = Some (fixed_litlen, fixed_dist)
  /\ (forall s bs bs', 0 <= s < 288 ->
        reads_bits bs (code_bits (Z.to_nat (fixed_len s)) (fixed_code s)) = Some bs' ->
        png_huffman_decode bs fixed_litlen = Some (s, bs'))
  /\ (forall s bs bs', 0 <= s < 32 ->
        reads_bits bs (code_bits 5 s) = Some bs' ->
        png_huffman_decode bs fixed_dist = Some (s, bs')).
Proof.
  split; [vm_compute; reflexivity|]. split.
  - intros s bs bs' Hs Hread. destruct (fixed_litlen_codes s Hs) as (El & Ec).
    apply (huffman_decode_canonical fixed_litlen_lengths).
    + exact fixed_litlen_lengths_bytes.
    + vm_compute. discriminate.
    + vm_compute. reflexivity.
    + change (len_of fixed_litlen_lengths) with 288. done.
    + rewrite El. unfold fixed_len. repeat case_match; lia.
    + by rewrite El, Ec.
  - intros s bs bs' Hs Hread. destruct (fixed_dist_codes s Hs) as (El & Ec).
    apply (huffman_decode_canonical fixed_dist_lengths).
    + apply repeat_is_byte. unfold is_byte. lia.
    + vm_compute. discriminate.
    + vm_compute. reflexivity.
    + change (len_of fixed_dist_lengths) with 32. done.
    + rewrite El. lia.
    + by rewrite El, Ec.
Qed.

(** ** The code lengths of a dynamic block *)





(** ** The round-trip test *)

Lemma save_load_file img path fs :
  1 <= width img -> 1 <= height img ->
  channels img = 1 \/ channels img = 2 \/ channels img = 3 \/ channels img = 4 ->
  len_of (data img) = width img * height img * channels img ->
  height img * (1 + width img * channels img) <= INT_MAX ->
  ~ elem_of path (fs_denied fs) ->
  let fs' := {| fs_files := <[path := signature
                                ++ flat_map chunk_bytes (saved_chunks img [])]>
                              (fs_files fs);
                fs_denied := fs_denied fs |} in
  png_save (Some img) (Some path) fs = Done (0, fs')
  /\ png_load path fs' = Done (Some img).
Proof.
  intros Hw Hh Hc Hdata Hmax Hpath fs'.
  assert (Henc : encodable img) by (apply encodable_of_bound; lia).
  assert (Hsave : png_save_internal img [] None None
                  = Done (0, signature ++ flat_map chunk_bytes (saved_chunks img []))).
  { apply png_save_internal_new_file; [done | unfold INT_MAX in *; lia]. }
  pose proof (load_saved_chunks img Hw Hh Hc Hdata Hmax) as Hload.
  split.
  - unfold png_save, save_to. rewrite bool_decide_eq_false_2 by done.
    by rewrite Hsave.
  - unfold png_load, fs'. cbn [fs_files]. rewrite lookup_insert_eq.
    rewrite saved_file_len by done. rewrite zlib_store_len, image_raw_len by done.
    unfold malloc_ok, PTRDIFF_MAX, INT_MAX in *.
    match goal with |- context [?a <=? ?b] =>
      replace (a <=? b) with true
        by (symmetry; apply Z.leb_le; Z.div_mod_to_equations; lia) end.
    exact Hload.
Qed.

(** X24.  The round-trip test of [test.c] returns 0 for every image
    [jpeg_load] can hand it whose sizes fit in [int], when the temporary
    file can be written, and it removes the file; it returns -1 when
    [jpeg_load] fails and -3 when the file cannot be opened. *)
Theorem test_png_roundtrip_passes (j : png_image) (fs : filesystem) :
  1 <= width j -> 1 <= height j ->
  channels j = 1 \/ channels j = 2 \/ channels j = 3 \/ channels j = 4 ->
  len_of (data j) = width j * height j * channels j ->
  height j * (1 + width j * channels j) <= INT_MAX ->
  (~ elem_of tmp_png (fs_denied fs) ->
   test_png_roundtrip (Some j) fs
   = Done (0, {| fs_files := delete tmp_png (fs_files fs);
                 fs_denied := fs_denied fs |}))
  /\ (elem_of tmp_png (fs_denied fs) -> test_png_roundtrip (Some j) fs = Done (-3, fs))
  /\ test_png_roundtrip None fs = Done (-1, fs).
Proof.
  intros Hw Hh Hc Hdata Hmax.
  assert (Hwh : 1 <= width j * height j
                /\ width j * height j <= width j * height j * channels j
                /\ width j * height j * channels j
                   <= height j * (1 + width j * channels j)) by nia.
  assert (Hpix : pixel_bytes (width j) (height j) (channels j)
                 = width j * height j * channels j).
  { apply pixel_bytes_exact; unfold INT_MAX in *; lia. }
  assert (Hcreate : png_create (width j) (height j) (channels j)
                    = Some {| width := width j; height := height j;
                              channels := channels j;
                              data := repeat 0 (Z.to_nat (pixel_bytes (width j)
                                                            (height j) (channels j))) |}).
  { unfold png_create, malloc_ok. rewrite Hpix.
    rewrite (proj2 (Z.leb_le _ PTRDIFF_MAX)); [done|].
    unfold PTRDIFF_MAX, INT_MAX in *. lia. }
  assert (Hj : {| width := width j; height := height j; channels := channels j;
                  data := data j |} = j) by (by destruct j).
  assert (Hsame : read_range (data j) 0 (pixel_bytes (width j) (height j) (channels j))
                  = Done (data j)).
  { unfold read_range. rewrite Hpix, <- Hdata.
    rewrite Z.leb_refl, (proj2 (Z.leb_le 0 (len_of _))) by apply len_of_nonneg.
    rewrite Z.add_0_l, Z.leb_refl. cbn [andb]. by rewrite slice_all. }
  split; [|split; [|reflexivity]].
  - intros Hpath. unfold test_png_roundtrip. rewrite Hcreate.
    cbn [data width height channels]. cbv zeta.
    rewrite memcpy_whole by (by rewrite Hpix). cbn [exec_bind]. rewrite Hj.
    destruct (save_load_file j tmp_png fs Hw Hh Hc Hdata Hmax Hpath) as (Hs & Hl).
    rewrite Hs. cbn [exec_bind fst snd]. change (0 <? 0) with false. cbv iota.
    rewrite Hl. cbn [exec_bind].
    rewrite !Z.eqb_refl. cbn [andb]. unfold memcmp_eq. rewrite Hsame.
    cbn [exec_bind]. rewrite bool_decide_eq_true_2 by done.
    cbn [fs_files fs_denied]. by rewrite delete_insert_eq.
  - intros Hpath. unfold test_png_roundtrip. rewrite Hcreate.
    cbn [data width height channels]. cbv zeta.
    rewrite memcpy_whole by (by rewrite Hpix). cbn [exec_bind]. rewrite Hj.
    unfold png_save, save_to. rewrite bool_decide_eq_true_2 by done.
    reflexivity.
Qed.

(** ** The further theorems at concrete inputs *)

Lemma bs_sync_aligned buf p :
  Forall is_byte buf -> 0 <= p <= len_of buf -> bs_sync (aligned_at buf p).
Proof.
  intros Hb Hp. unfold bs_sync, bs_wf, bits_consumed, next_bits, aligned_at.
  cbn [bs_data bytepos bitbuf bitcount].
  split; [lia|]. split; [done|]. split; [lia|]. split; [lia|].
  change (2 ^ 0) with 1. by rewrite Z.mod_1_r.
Qed.

Lemma png_bitstream_get_reads_stream_witness :
  exists bs',
    png_bitstream_get (aligned_at [181; 1] 0) 3
    = Some ((stream_value [181; 1] / 2 ^ 0) mod 2 ^ 3, bs')
    /\ bs_sync bs'
    /\ bs_data bs' = [181; 1]
    /\ bits_consumed bs' = 0 + 3.
Proof.
  apply (png_bitstream_get_reads_stream (aligned_at [181; 1] 0) 3).
  - apply bs_sync_aligned.
    + unfold is_byte. repeat (constructor; [lia|]). constructor.
    + vm_compute. split; discriminate.
  - lia.
  - vm_compute. discriminate.
Defined.

Lemma png_bitstream_get_accounting_witness :
  match png_bitstream_get (aligned_at [181; 1] 0) 3 with
  | None => bits_left (aligned_at [181; 1] 0) < 3
  | Some (v, bs') =>
    3 <= bits_left (aligned_at [181; 1] 0)
    /\ bits_left bs' = bits_left (aligned_at [181; 1] 0) - 3
    /\ bs_wf bs' /\ 0 <= v
  end.
Proof.
  apply (png_bitstream_get_accounting (aligned_at [181; 1] 0) 3).
  - vm_compute. split; [split|]; discriminate.
  - lia.
Defined.

Lemma png_bitstream_align_boundary_witness :
  exists bs',
    png_bitstream_align three_bits_in = Some bs'
    /\ bs_sync bs'
    /\ bs_data bs' = bs_data three_bits_in
    /\ bits_consumed bs' mod 8 = 0
    /\ bits_consumed three_bits_in <= bits_consumed bs' < bits_consumed three_bits_in + 8.
Proof.
  apply (png_bitstream_align_boundary three_bits_in).
  unfold bs_sync, bs_wf. split; [|split; [|split; [|split]]].
  - vm_compute. split; [split|]; discriminate.
  - unfold is_byte. cbn. repeat (constructor; [lia|]). constructor.
  - vm_compute. discriminate.
  - vm_compute. discriminate.
  - vm_compute. reflexivity.
Defined.

Lemma png_bitstream_read_bytes_stream_witness :
  match png_bitstream_read_bytes (aligned_at [1; 2; 3] 1) 2 with
  | None => bits_left (aligned_at [1; 2; 3] 1) < 8 * 2
  | Some (bytes, bs') =>
    8 * 2 <= bits_left (aligned_at [1; 2; 3] 1)
    /\ bytes = slice [1; 2; 3] (bits_consumed (aligned_at [1; 2; 3] 1) / 8) 2
    /\ bs_sync bs'
    /\ bs_data bs' = [1; 2; 3]
    /\ bits_consumed bs' = bits_consumed (aligned_at [1; 2; 3] 1) + 8 * 2
  end.
Proof.
  apply (png_bitstream_read_bytes_stream (aligned_at [1; 2; 3] 1) 2).
  - apply bs_sync_aligned.
    + unfold is_byte. repeat (constructor; [lia|]). constructor.
    + vm_compute. split; discriminate.
  - vm_compute. reflexivity.
  - lia.
Defined.

Lemma png_huffman_decode_sound_witness :
  0 <= 2 < len_of [2; 1; 3; 3]
  /\ 1 <= byte_at [2; 1; 3; 3] 2 <= 15
  /\ bits_left {| bs_data := [3]; bytepos := 1; bitbuf := 0; bitcount := 5 |}
     = bits_left (aligned_at [3] 0) - byte_at [2; 1; 3; 3] 2
  /\ bs_wf {| bs_data := [3]; bytepos := 1; bitbuf := 0; bitcount := 5 |}.
Proof.
  apply (png_huffman_decode_sound [2; 1; 3; 3]
           {| h_count := [0; 1; 1; 2; 0; 0; 0; 0; 0; 0; 0; 0; 0; 0; 0; 0];
              h_symbol := [1; 0; 2; 3] ++ repeat 0 284 |}
           (aligned_at [3] 0)).
  - unfold is_byte. repeat (constructor; [lia|]). constructor.
  - vm_compute. discriminate.
  - vm_compute. reflexivity.
  - vm_compute. split; [split|]; discriminate.
  - vm_compute. reflexivity.
Defined.

Lemma sub_row_reconstruction_witness :
  let out := png_unfilter_row [5; 5; 5] (Some [10; 20; 30]) 1 3 1 in
  len_of out = len_of [5; 5; 5]
  /\ byte_at out 2
     = if decide (1 <= 2) then (byte_at [5; 5; 5] 2 + byte_at out (2 - 1)) mod 256
       else byte_at [5; 5; 5] 2.
Proof.
  apply (sub_row_reconstruction [5; 5; 5] (Some [10; 20; 30]) 3 1 2).
  - lia.
  - unfold INT_MAX. lia.
  - reflexivity.
  - lia.
Defined.

Lemma up_row_reconstruction_witness :
  png_unfilter_row [5; 5; 5] None 2 3 1 = [5; 5; 5]
  /\ forall p i, len_of p = 3 * 1 -> 0 <= i < 3 * 1 ->
       let out := png_unfilter_row [5; 5; 5] (Some p) 2 3 1 in
       len_of out = len_of [5; 5; 5]
       /\ byte_at out i = (byte_at [5; 5; 5] i + byte_at p i) mod 256.
Proof.
  apply (up_row_reconstruction [5; 5; 5] 3 1).
  - unfold INT_MAX. lia.
  - reflexivity.
Defined.

Lemma average_row_reconstruction_witness :
  let out := png_unfilter_row [5; 5; 5] (Some [10; 20; 30]) 3 3 1 in
  let a := if decide (1 <= 1) then byte_at out (1 - 1) else 0 in
  let b := byte_at [10; 20; 30] 1 in
  len_of out = len_of [5; 5; 5]
  /\ byte_at out 1 = (byte_at [5; 5; 5] 1 + (a + b) / 2) mod 256.
Proof.
  apply (average_row_reconstruction [5; 5; 5] (Some [10; 20; 30]) 3 1 1).
  - lia.
  - unfold INT_MAX. lia.
  - reflexivity.
  - intros p [= <-]. split; [reflexivity|].
    unfold is_byte. repeat (constructor; [lia|]). constructor.
  - lia.
Defined.

Lemma chunk_wf_text : chunk_wf text_chunk.
Proof. unfold chunk_wf. cbn. split; [done|]. split; [done|]. vm_compute. reflexivity. Qed.

Lemma chunk_wf_end : chunk_wf end_chunk.
Proof. unfold chunk_wf. cbn. split; [done|]. split; [done|]. vm_compute. reflexivity. Qed.

Lemma bytes_after_iend_ignored_witness :
  png_load_mem (signature ++ flat_map chunk_bytes [text_chunk; end_chunk] ++ [1; 2; 3])
  = png_load_mem (signature ++ flat_map chunk_bytes [text_chunk; end_chunk]).
Proof.
  apply (bytes_after_iend_ignored [text_chunk; end_chunk] [1; 2; 3]).
  - constructor; [apply chunk_wf_text|]. constructor; [apply chunk_wf_end|]. constructor.
  - apply Exists_cons_tl, Exists_cons_hd. reflexivity.
Defined.

Lemma unknown_chunk_skipped_witness :
  png_load_mem (signature ++ flat_map chunk_bytes ([] ++ text_chunk :: [end_chunk]) ++ [])
  = png_load_mem (signature ++ flat_map chunk_bytes ([] ++ [end_chunk]) ++ []).
Proof.
  apply (unknown_chunk_skipped [] text_chunk [end_chunk] []).
  - constructor.
  - apply chunk_wf_text.
  - constructor; [apply chunk_wf_end|]. constructor.
  - left. vm_compute. reflexivity.
  - vm_compute. discriminate.
  - vm_compute. discriminate.
  - vm_compute. discriminate.
Defined.

Lemma idat_chunks_joined_witness :
  png_load_mem
    (signature
     ++ flat_map chunk_bytes
          ([] ++ {| ck_type := type_IDAT; ck_payload := [1] ++ [2];
                    ck_crc := [0; 0; 0; 0] |} :: [end_chunk])
     ++ [])
  = png_load_mem
      (signature
       ++ flat_map chunk_bytes
            ([] ++ {| ck_type := type_IDAT; ck_payload := [1]; ck_crc := [0; 0; 0; 0] |}
                :: {| ck_type := type_IDAT; ck_payload := [2]; ck_crc := [0; 0; 0; 0] |}
                :: [end_chunk])
       ++ []).
Proof.
  apply (idat_chunks_joined [] [end_chunk] [1] [2] [0; 0; 0; 0] [0; 0; 0; 0] [0; 0; 0; 0] []).
  - constructor.
  - constructor; [apply chunk_wf_end|]. constructor.
  - left. vm_compute. reflexivity.
  - reflexivity.
  - reflexivity.
  - reflexivity.
  - vm_compute. reflexivity.
Defined.

Lemma png_save_with_text_roundtrip_witness :
  png_save_internal grey_pixel [] (Some [65]) (Some [66])
  = Done (0, signature
             ++ flat_map chunk_bytes
                  [written_chunk type_IHDR (ihdr_bytes grey_pixel);
                   written_chunk type_tEXt ([65] ++ [0] ++ [66]);
                   written_chunk type_IDAT (zlib_store (image_raw grey_pixel));
                   written_chunk type_IEND []])
  /\ (forall path fs, ~ elem_of path (fs_denied fs) ->
      exists fs',
        png_save_with_text (Some grey_pixel) (Some path) (Some [65]) (Some [66]) fs
        = Done (0, fs')
        /\ png_load path fs' = Done (Some grey_pixel))
  /\ (forall path fs,
        png_save_with_text (Some grey_pixel) path None (Some [66]) fs
        = png_save (Some grey_pixel) path fs
        /\ png_save_with_text (Some grey_pixel) path (Some [65]) None fs
           = png_save (Some grey_pixel) path fs).
Proof.
  apply (png_save_with_text_roundtrip grey_pixel [65] [66]).
  - simpl. lia.
  - simpl. lia.
  - left. reflexivity.
  - reflexivity.
  - unfold INT_MAX. simpl. lia.
  - vm_compute. reflexivity.
Defined.



Lemma wrapped_row_file_chunks :
  read_chunks (length wrapped_row_file) wrapped_row_file 8 chunk_state_init
  = Done {| cs_width := 536870912; cs_height := 2; cs_color_type := 6;
            cs_idat := Some [120; 1; 1; 2; 0; 253; 255; 0; 0; 0; 2; 0; 1] |}.
Proof. vm_compute. reflexivity. Qed.

Lemma negative_row_size_out_of_bounds_witness :
  png_load_mem wrapped_row_file = Undefined.
Proof.
  apply (negative_row_size_out_of_bounds wrapped_row_file
           {| cs_width := 536870912; cs_height := 2; cs_color_type := 6;
              cs_idat := Some [120; 1; 1; 2; 0; 253; 255; 0; 0; 0; 2; 0; 1] |}
           [120; 1; 1; 2; 0; 253; 255; 0; 0; 0; 2; 0; 1] [0; 0] 4
           {| width := 536870912; height := 2; channels := 4; data := [] |}).
  - vm_compute. discriminate.
  - vm_compute. reflexivity.
  - apply wrapped_row_file_chunks.
  - reflexivity.
  - discriminate.
  - cbn. lia.
  - reflexivity.
  - vm_compute. reflexivity.
  - vm_compute. reflexivity.
  - vm_compute. reflexivity.
Defined.


Lemma test_png_roundtrip_passes_witness :
  (~ elem_of tmp_png (fs_denied no_files) ->
   test_png_roundtrip (Some grey_pixel) no_files
   = Done (0, {| fs_files := delete tmp_png (fs_files no_files);
                 fs_denied := fs_denied no_files |}))
  /\ (elem_of tmp_png (fs_denied no_files) ->
      test_png_roundtrip (Some grey_pixel) no_files = Done (-3, no_files))
  /\ test_png_roundtrip None no_files = Done (-1, no_files).
Proof.
  apply (test_png_roundtrip_passes grey_pixel no_files).
  - simpl. lia.
  - simpl. lia.
  - left. reflexivity.
  - reflexivity.
  - unfold INT_MAX. simpl. lia.
Defined.

Lemma png_crc_bitwise_witness :
  png_update_crc 0 type_IEND = fold_left crc_byte type_IEND 0
  /\ 0 <= png_update_crc 0 type_IEND < 4294967296
  /\ png_crc type_IEND = Z.lxor (fold_left crc_byte type_IEND 0xffffffff) 0xffffffff
  /\ 0 <= png_crc type_IEND < 4294967296.
Proof.
  apply png_crc_bitwise; [lia|].
  unfold type_IEND, is_byte. repeat (constructor; [lia|]). constructor.
Defined.

Lemma png_huffman_decode_complete_witness :
  png_huffman_decode (aligned_at [3] 0)
    {| h_count := [0; 1; 1; 2; 0; 0; 0; 0; 0; 0; 0; 0; 0; 0; 0; 0];
       h_symbol := [1; 0; 2; 3] ++ repeat 0 284 |}
  = Some (2, {| bs_data := [3]; bytepos := 1; bitbuf := 0; bitcount := 5 |}).
Proof.
  apply (png_huffman_decode_complete [2; 1; 3; 3]).
  - unfold is_byte. repeat (constructor; [lia|]). constructor.
  - vm_compute. discriminate.
  - vm_compute. reflexivity.
  - vm_compute. split; [discriminate|reflexivity].
  - vm_compute. discriminate.
  - vm_compute. reflexivity.
Defined.

Lemma deflate_store_inflate_witness :
  exists z,
    png_deflate_store [7; 8; 9] 2 = Done (Some z)
    /\ len_of z = 2 + 5 * ((2 + 65534) / 65535) + 2 + 4
    /\ png_inflate_zlib z 2 = Some (slice [7; 8; 9] 0 2).
Proof.
  apply (proj1 (deflate_store_inflate [7; 8; 9] 2)); [vm_compute; split; [done|discriminate] | lia].
Defined.

Lemma png_inflate_zlib_one_length_witness :
  2 = 2 /\ [7; 8] = [7; 8].
Proof.
  apply (png_inflate_zlib_one_length [120; 1; 1; 2; 0; 253; 255; 7; 8; 0; 24; 0; 16]);
    vm_compute; reflexivity.
Defined.
